(** * Join predicates of pkg/sql/join_predicate.go

    A shallow embedding of the three join predicates (CROSS, ON and
    USING/equality), of the construction of the equality predicate with
    its merged schema, and the properties stated about them.

    Go values are embedded as follows:
    - [int] is [Z]; slice lengths are far below 2^63, so the arithmetic on
      lengths and indices never wraps;
    - a slice is a [list]; indexing out of range panics, so every access
      goes through [index] and returns an [outcome];
    - a map is a [gmap], a map used as a set is a [gset];
    - a function returning [(T, error)] returns a pair whose second
      component is an [option error] ([None] is Go's nil error);
    - the three row buffers passed to [eval] and [prepareRow] live in a
      store ([buffers]) threaded through the [exec] monad, so that writes
      to the result buffer are visible in the model. *)

From stdpp Require Import gmap strings list fin_maps.
From Stdlib Require Import ZArith Lia Init.Byte.

Set Default Proof Using "Type".

(** ** Panics and outcomes *)

(** The run-time panics this file can raise. *)
Inductive panic : Type :=
  | PanicIndex                     (* index out of range *)
  | PanicSliceBounds               (* slice bounds out of range *)
  | PanicMakeSlice                 (* makeslice: cap out of range *)
  | PanicNilFunc                   (* call of a nil func value *)
  | PanicMsg (msg : string)        (* panic(msg) with a string *)
  | PanicLengths (nleft nright : Z) (* panic(fmt.Errorf(...)) of makeEqualityPredicate *).

Inductive outcome (A : Type) : Type :=
  | Done (a : A)
  | Panicked (p : panic).
Arguments Done {A} a.
Arguments Panicked {A} p.

#[global] Instance outcome_ret : MRet outcome := λ A a, Done a.
#[global] Instance outcome_bind : MBind outcome := λ A B f m,
  match m with
  | Done a => f a
  | Panicked p => Panicked p
  end.

(** [l[i]] for a Go int [i]. *)
Definition index {A : Type} (l : list A) (i : Z) : outcome A :=
  if decide (0 ≤ i)%Z then
    match l !! Z.to_nat i with
    | Some x => Done x
    | None => Panicked PanicIndex
    end
  else Panicked PanicIndex.

(** [l[i] = x] for a Go int [i]. *)
Definition store {A : Type} (l : list A) (i : Z) (x : A) : outcome (list A) :=
  if decide (0 ≤ i < Z.of_nat (length l))%Z then Done (<[Z.to_nat i := x]> l)
  else Panicked PanicIndex.

(** [make([]T, 0, cap)]: the slice is empty, a negative capacity panics. *)
Definition make_cap {A : Type} (cap : Z) : outcome (list A) :=
  if decide (0 ≤ cap)%Z then Done [] else Panicked PanicMakeSlice.

(** The total counterpart of [index], used in statements. *)
Definition lookupZ {A : Type} (l : list A) (i : Z) : option A :=
  if decide (0 ≤ i)%Z then l !! Z.to_nat i else None.

(** ** The collaborators: packages parser and sqlbase *)

(** The types this file takes from package parser. *)
Class ParserTypes : Type := {
  Datum : Type;                        (* parser.Datum *)
  DNull : Datum;                       (* parser.DNull *)
  Datum_eq_dec :: EqDecision Datum;    (* == on the interface values *)
  ColType : Type;                      (* parser.Type *)
  EvalContext : Type;                  (* parser.EvalContext *)
  TypedExpr : Type;                    (* parser.TypedExpr *)
  ExtError : Type;                     (* errors made by the collaborators *)
}.

Section Embedding.
Context `{PT : ParserTypes}.

(** parser.DTuple *)
Definition DTuple : Type := list Datum.

(** The values of Go's [error] that reach this file: the three made here
    with fmt.Errorf, and those returned by collaborators. *)
Inductive error : Type :=
  | ErrUsingMissing (colName context : string)
      (* column %s specified in USING clause does not exist in %s table *)
  | ErrUsingTwice (colName : string)
      (* column %q appears more than once in USING clause *)
  | ErrUsingTypes (leftType : ColType) (leftColName : string)
                  (rightType : ColType) (rightColName : string)
      (* JOIN/USING types %s for left column %s and %s for right column %s
         cannot be matched *)
  | ErrExternal (e : ExtError).

(** The type of the entries of usingCmp: a function from an evaluation
    context and two datums to (parser.DBool, error). *)
Definition cmpFn : Type := EvalContext → Datum → Datum → bool * option error.

(** The functions this file calls in packages parser and sqlbase, and the
    constant [invalidColIdx] of package sql, which is declared in another
    file. *)
Class Collaborators : Type := {
  Normalize : string → string;               (* parser.Name.Normalize *)
  ReNormalizeName : string → string;         (* parser.ReNormalizeName *)
  FindEqualComparisonFunction : ColType → ColType → option cmpFn;
  EncodeDatum : list byte → Datum → list byte * option error;
                                             (* sqlbase.EncodeDatum *)
  RunFilter : TypedExpr → EvalContext → DTuple → bool * option error;
                                             (* sqlbase.RunFilter *)
  invalidColIdx : Z;
}.

Context `{CO : Collaborators}.

(** ** Schemas *)

(** ResultColumn: the fields this file reads. *)
Record ResultColumn : Type := {
  Name : string;
  Typ : ColType;
  hidden : bool;
}.

Definition ResultColumns : Type := list ResultColumn.

(** dataSourceInfo: the columns and the map from alias to column range. *)
Record dataSourceInfo : Type := {
  sourceColumns : ResultColumns;
  sourceAliases : gmap string (list Z);
}.

(** ** The row buffers and the [exec] monad *)

(** The three slices handed to [eval] and [prepareRow]. The join node
    passes its own output buffer as [result], so the three do not overlap. *)
Record buffers : Type := {
  result : DTuple;
  leftRow : DTuple;
  rightRow : DTuple;
}.

Definition exec (A : Type) : Type := buffers → outcome A * buffers.

#[global] Instance exec_ret : MRet exec := λ A a st, (Done a, st).
#[global] Instance exec_bind : MBind exec := λ A B f m st,
  match m st with
  | (Done a, st') => f a st'
  | (Panicked p, st') => (Panicked p, st')
  end.

Definition lift {A : Type} (o : outcome A) : exec A := λ st, (o, st).

(** [leftRow[i]] *)
Definition readLeft (i : Z) : exec Datum := λ st, (index (leftRow st) i, st).
(** [rightRow[i]] *)
Definition readRight (i : Z) : exec Datum := λ st, (index (rightRow st) i, st).
(** [result[d] = v] *)
Definition writeResult (d : Z) (v : Datum) : exec unit := λ st,
  match store (result st) d v with
  | Done r => (Done (), {| result := r; leftRow := leftRow st; rightRow := rightRow st |})
  | Panicked p => (Panicked p, st)
  end.

(** [copy(dst, src)] of Go: the first min(len dst, len src) elements. *)
Definition copy {A : Type} (dst src : list A) : list A :=
  take (length dst) src ++ drop (length src) dst.

(** ** prepareRowConcat, crossPredicate and onPredicate *)

Definition leftSide : Z := 0.
Definition rightSide : Z := 1.

(** copy(result, leftRow); copy(result[len(leftRow):], rightRow) *)
Definition prepareRowConcat : exec unit := λ st,
  let r1 := copy (result st) (leftRow st) in
  if decide (length (leftRow st) ≤ length r1) then
    let r2 := take (length (leftRow st)) r1
              ++ copy (drop (length (leftRow st)) r1) (rightRow st) in
    (Done (), {| result := r2; leftRow := leftRow st; rightRow := rightRow st |})
  else
    (Panicked PanicSliceBounds,
     {| result := r1; leftRow := leftRow st; rightRow := rightRow st |}).

Record crossPredicate : Type := {}.

Definition crossPredicate_eval (p : crossPredicate) : exec (bool * option error) :=
  mret (true, None).

Definition crossPredicate_prepareRow (p : crossPredicate) : exec unit :=
  prepareRowConcat.

Definition crossPredicate_encode (p : crossPredicate)
    (b : list byte) (row : DTuple) (side : Z)
  : outcome (list byte * bool * option error) :=
  Done ([], false, None).

(** onPredicate: [curRow] is the slice the bound variables of the filter
    read; [eval] makes it the result buffer itself, so it is not a field
    of its own here. *)
Record onPredicate : Type := {
  on_evalCtx : EvalContext;      (* p.p.evalCtx *)
  on_filter : TypedExpr;
  on_info : dataSourceInfo;
}.

Definition onPredicate_encode (p : onPredicate)
    (b : list byte) (row : DTuple) (side : Z)
  : outcome (list byte * bool * option error) :=
  Panicked (PanicMsg "ON predicate extraction unimplemented").

(** sqlbase.RunFilter(p.filter, &p.p.evalCtx), the variables of the filter
    reading p.curRow, which is the result buffer. *)
Definition runFilter (p : onPredicate) : exec (bool * option error) := λ st,
  (Done (RunFilter (on_filter p) (on_evalCtx p) (result st)), st).

Definition onPredicate_eval (p : onPredicate) : exec (bool * option error) :=
  _ ← prepareRowConcat;
  runFilter p.

Definition onPredicate_prepareRow (p : onPredicate) : exec unit :=
  prepareRowConcat.

(** ** equalityPredicate *)

Record equalityPredicate : Type := {
  leftColNames : list string;
  rightColNames : list string;
  usingCmp : list (option cmpFn);     (* a nil func is [None] *)
  evalCtx : EvalContext;
  leftUsingIndices : list Z;
  rightUsingIndices : list Z;
  leftRestIndices : list Z;
  rightRestIndices : list Z;
}.

(** Calling the function value [f]. *)
Definition call (f : option cmpFn) : outcome cmpFn :=
  match f with
  | Some fn => Done fn
  | None => Panicked PanicNilFunc
  end.

(** The body of the loop of [eval], for the pair indices [idxs] that remain.
    Leaving the loop by [break] with eq = false returns (false, nil). *)
Fixpoint eval_loop (p : equalityPredicate) (idxs : list nat)
  : exec (bool * option error) :=
  match idxs with
  | [] => mret (true, None)
  | i :: rest =>
      li ← lift (index (leftUsingIndices p) (Z.of_nat i));
      leftVal ← readLeft li;
      ri ← lift (index (rightUsingIndices p) (Z.of_nat i));
      rightVal ← readRight ri;
      if bool_decide (leftVal = DNull) || bool_decide (rightVal = DNull)
      then mret (false, None)
      else
        f ← lift (index (usingCmp p) (Z.of_nat i));
        fn ← lift (call f);
        match (fn : cmpFn) (evalCtx p) leftVal rightVal with
        | (_, Some err) => mret (false, Some err)
        | (res, None) =>
            if res then eval_loop p rest else mret (false, None)
        end
  end.

(** for i := range p.leftColNames *)
Definition equalityPredicate_eval (p : equalityPredicate)
  : exec (bool * option error) :=
  eval_loop p (seq 0 (length (leftColNames p))).

(** The first loop of [prepareRow], over the pairs (k, j) that remain;
    returns d. *)
Fixpoint prepareRow_using (p : equalityPredicate) (d : Z) (k : nat)
    (js : list Z) : exec Z :=
  match js with
  | [] => mret d
  | j :: rest =>
      lv ← readLeft j;
      _ ← (if bool_decide (lv ≠ DNull) then
             v ← readLeft j; writeResult d v
           else
             ri ← lift (index (rightUsingIndices p) (Z.of_nat k));
             v ← readRight ri; writeResult d v);
      prepareRow_using p (d + 1)%Z (S k) rest
  end.

(** The second and third loops of [prepareRow]: [read] is the row copied
    from. *)
Fixpoint prepareRow_rest (read : Z → exec Datum) (d : Z) (js : list Z)
  : exec Z :=
  match js with
  | [] => mret d
  | j :: rest =>
      v ← read j;
      _ ← writeResult d v;
      prepareRow_rest read (d + 1)%Z rest
  end.

Definition equalityPredicate_prepareRow (p : equalityPredicate) : exec unit :=
  d ← prepareRow_using p 0 0 (leftUsingIndices p);
  d ← prepareRow_rest readLeft d (leftRestIndices p);
  _ ← prepareRow_rest readRight d (rightRestIndices p);
  mret ().

(** The loop of [encode] over the columns that remain. *)
Fixpoint encode_loop (b : list byte) (containsNull : bool) (row : DTuple)
    (cols : list Z) : outcome (list byte * bool * option error) :=
  match cols with
  | [] => Done (b, containsNull, None)
  | colIdx :: rest =>
      d ← index row colIdx;
      let containsNull' :=
        if bool_decide (d = DNull) then true else containsNull in
      d' ← index row colIdx;
      match EncodeDatum b d' with
      | (_, Some err) => Done ([], false, Some err)
      | (b', None) => encode_loop b' containsNull' row rest
      end
  end.

Definition equalityPredicate_encode (p : equalityPredicate)
    (b : list byte) (row : DTuple) (side : Z)
  : outcome (list byte * bool * option error) :=
  cols ← (if decide (side = rightSide) then Done (rightUsingIndices p)
          else if decide (side = leftSide) then Done (leftUsingIndices p)
          else Panicked (PanicMsg
            "invalid side provided, only leftSide or rightSide applicable"));
  encode_loop b false row cols.

(** joinPredicate: the interface, with its three implementations. *)
Inductive joinPredicate : Type :=
  | CrossP (p : crossPredicate)
  | OnP (p : onPredicate)
  | EqualityP (p : equalityPredicate).

Definition eval (jp : joinPredicate) : exec (bool * option error) :=
  match jp with
  | CrossP p => crossPredicate_eval p
  | OnP p => onPredicate_eval p
  | EqualityP p => equalityPredicate_eval p
  end.

Definition prepareRow (jp : joinPredicate) : exec unit :=
  match jp with
  | CrossP p => crossPredicate_prepareRow p
  | OnP p => onPredicate_prepareRow p
  | EqualityP p => equalityPredicate_prepareRow p
  end.

Definition encode (jp : joinPredicate) (b : list byte) (row : DTuple)
    (side : Z) : outcome (list byte * bool * option error) :=
  match jp with
  | CrossP p => crossPredicate_encode p b row side
  | OnP p => onPredicate_encode p b row side
  | EqualityP p => equalityPredicate_encode p b row side
  end.

(** ** Construction of the equality predicate *)

(** The loop of [pickUsingColumn] over the columns from position [j] on;
    [idx] is the position found so far. *)
Fixpoint pick_loop (cols : ResultColumns) (colName : string) (j idx : Z) : Z :=
  match cols with
  | [] => idx
  | col :: rest =>
      if hidden col then pick_loop rest colName (j + 1)%Z idx
      else if decide (ReNormalizeName (Name col) = colName)
      then pick_loop rest colName (j + 1)%Z j
      else pick_loop rest colName (j + 1)%Z idx
  end.

(** Returns the column index and type ([inl]) or the error ([inr]). *)
Definition pickUsingColumn (cols : ResultColumns) (colName context : string)
  : outcome (Z * ColType + error) :=
  let idx := pick_loop cols colName 0 invalidColIdx in
  if decide (idx = invalidColIdx) then
    Done (inr (ErrUsingMissing colName context))
  else
    col ← index cols idx;
    Done (inl (idx, Typ col)).

(** The local variables of [makeEqualityPredicate] that its first loop
    updates. *)
Record usingState : Type := {
  cmpOps : list (option cmpFn);
  usingLeft : list Z;        (* leftUsingIndices *)
  usingRight : list Z;       (* rightUsingIndices *)
  usedLeft : list Z;
  usedRight : list Z;
  columns : ResultColumns;
}.

(** The body of the first loop, for the pair [i]; [inr] is the error the
    function returns from inside the loop. *)
Definition using_step (left right : dataSourceInfo)
    (leftColNames rightColNames : list string) (i : nat) (s : usingState)
  : outcome (usingState + error) :=
  ln ← index leftColNames (Z.of_nat i);
  rn ← index rightColNames (Z.of_nat i);
  let leftColName := Normalize ln in
  let rightColName := Normalize rn in
  l ← pickUsingColumn (sourceColumns left) leftColName "left";
  match l with
  | inr err => Done (inr err)
  | inl (leftIdx, leftType) =>
      usedLeft' ← store (usedLeft s) leftIdx (Z.of_nat i);
      r ← pickUsingColumn (sourceColumns right) rightColName "right";
      match r with
      | inr err => Done (inr err)
      | inl (rightIdx, rightType) =>
          usedRight' ← store (usedRight s) rightIdx (Z.of_nat i);
          usingLeft' ← store (usingLeft s) (Z.of_nat i) leftIdx;
          usingRight' ← store (usingRight s) (Z.of_nat i) rightIdx;
          match FindEqualComparisonFunction leftType rightType with
          | None =>
              Done (inr (ErrUsingTypes leftType leftColName
                                       rightType rightColName))
          | Some fn =>
              cmpOps' ← store (cmpOps s) (Z.of_nat i) (Some fn);
              leftCol ← index (sourceColumns left) leftIdx;
              Done (inl {| cmpOps := cmpOps';
                           usingLeft := usingLeft';
                           usingRight := usingRight';
                           usedLeft := usedLeft';
                           usedRight := usedRight';
                           columns := columns s ++ [leftCol] |})
          end
      end
  end.

Fixpoint using_loop (left right : dataSourceInfo)
    (leftColNames rightColNames : list string) (idxs : list nat)
    (s : usingState) : outcome (usingState + error) :=
  match idxs with
  | [] => Done (inl s)
  | i :: rest =>
      r ← using_step left right leftColNames rightColNames i s;
      match r with
      | inr err => Done (inr err)
      | inl s' => using_loop left right leftColNames rightColNames rest s'
      end
  end.

(** The loop that collects the columns of one side not used by a pair:
    [cols] are the columns from position [i] on. *)
Fixpoint rest_loop (cols : ResultColumns) (i : Z) (restIndices used : list Z)
    (columns : ResultColumns) : outcome (list Z * list Z * ResultColumns) :=
  match cols with
  | [] => Done (restIndices, used, columns)
  | col :: rest =>
      u ← index used i;
      if decide (u = invalidColIdx) then
        used' ← store used i (Z.of_nat (length columns));
        rest_loop rest (i + 1)%Z (restIndices ++ [i]) used' (columns ++ [col])
      else rest_loop rest (i + 1)%Z restIndices used columns
  end.

(** newRange, with newRange[i] = used[colIdx] for each colIdx of colRange. *)
Fixpoint remap_range (used colRange : list Z) : outcome (list Z) :=
  match colRange with
  | [] => Done []
  | colIdx :: rest =>
      u ← index used colIdx;
      r ← remap_range used rest;
      Done (u :: r)
  end.

(** for alias, colRange := range src { aliases[alias] = newRange } *)
Definition remap_aliases (used : list Z) (src aliases : gmap string (list Z))
  : outcome (gmap string (list Z)) :=
  map_fold (λ alias colRange acc,
              a ← acc;
              newRange ← remap_range used colRange;
              Done (<[alias := newRange]> a))
           (Done aliases) src.

(** What [makeEqualityPredicate] has built when it reaches its last
    statement: the predicate, the merged schema, and the final contents of
    its locals usedLeft and usedRight. *)
Record equalityPlan : Type := {
  plan_pred : equalityPredicate;
  plan_info : dataSourceInfo;
  plan_usedLeft : list Z;
  plan_usedRight : list Z;
}.

(** The body of [makeEqualityPredicate] up to its last statement; [inr] is
    an error returned on the way. [ctx] is the planner's evalCtx. *)
Definition equalityPlan_build (ctx : EvalContext) (left right : dataSourceInfo)
    (leftColNames rightColNames : list string)
  : outcome (equalityPlan + error) :=
  if decide (length leftColNames ≠ length rightColNames) then
    Panicked (PanicLengths (Z.of_nat (length leftColNames))
                           (Z.of_nat (length rightColNames)))
  else
    let nleft := Z.of_nat (length (sourceColumns left)) in
    let nright := Z.of_nat (length (sourceColumns right)) in
    columns0 ← make_cap (nleft + nright - Z.of_nat (length leftColNames))%Z;
    r ← using_loop left right leftColNames rightColNames
          (seq 0 (length leftColNames))
          {| cmpOps := replicate (length leftColNames) None;
             usingLeft := replicate (length leftColNames) 0%Z;
             usingRight := replicate (length rightColNames) 0%Z;
             usedLeft := replicate (length (sourceColumns left)) invalidColIdx;
             usedRight := replicate (length (sourceColumns right)) invalidColIdx;
             columns := columns0 |};
    match r with
    | inr err => Done (inr err)
    | inl s =>
        leftRest0 ← make_cap (nleft - 1)%Z;
        '(leftRest, usedL, cols1) ←
          rest_loop (sourceColumns left) 0 leftRest0 (usedLeft s) (columns s);
        rightRest0 ← make_cap (nright - 1)%Z;
        '(rightRest, usedR, cols2) ←
          rest_loop (sourceColumns right) 0 rightRest0 (usedRight s) cols1;
        aliases ← remap_aliases usedL (sourceAliases left) ∅;
        aliases ← remap_aliases usedR (sourceAliases right) aliases;
        Done (inl {|
          plan_pred := {| evalCtx := ctx;
                          leftColNames := leftColNames;
                          rightColNames := rightColNames;
                          usingCmp := cmpOps s;
                          leftUsingIndices := usingLeft s;
                          rightUsingIndices := usingRight s;
                          leftRestIndices := leftRest;
                          rightRestIndices := rightRest |};
          plan_info := {| sourceColumns := cols2; sourceAliases := aliases |};
          plan_usedLeft := usedL;
          plan_usedRight := usedR |})
    end.

(** The three results of the constructors: (joinPredicate, *dataSourceInfo,
    error), nil being [None]. *)
Definition construction : Type :=
  (option joinPredicate * option dataSourceInfo * option error)%type.

Definition makeEqualityPredicate (ctx : EvalContext)
    (left right : dataSourceInfo) (leftColNames rightColNames : list string)
  : outcome construction :=
  r ← equalityPlan_build ctx left right leftColNames rightColNames;
  match r with
  | inr err => Done (None, None, Some err)
  | inl pl => Done (Some (EqualityP (plan_pred pl)), Some (plan_info pl), None)
  end.

(** The loop of [makeUsingPredicate] that looks for USING(x, x). *)
Fixpoint seenNames_loop (colNames : list string) (seenNames : gset string)
  : option error :=
  match colNames with
  | [] => None
  | unnormalizedColName :: rest =>
      let colName := Normalize unnormalizedColName in
      if decide (colName ∈ seenNames) then Some (ErrUsingTwice colName)
      else seenNames_loop rest ({[colName]} ∪ seenNames)
  end.

Definition makeUsingPredicate (ctx : EvalContext)
    (left right : dataSourceInfo) (colNames : list string)
  : outcome construction :=
  match seenNames_loop colNames ∅ with
  | Some err => Done (None, None, Some err)
  | None => makeEqualityPredicate ctx left right colNames colNames
  end.

End Embedding.

(** ** What a pair of rows holds at the USING positions *)

Section Pairs.
Context `{PT : ParserTypes} `{CO : !Collaborators}.

(** The values the [i]-th USING pair reads from the two rows. *)
Definition pair_values (p : equalityPredicate) (st : buffers) (i : nat)
  : option (Datum * Datum) :=
  li ← leftUsingIndices p !! i;
  lv ← lookupZ (leftRow st) li;
  ri ← rightUsingIndices p !! i;
  rv ← lookupZ (rightRow st) ri;
  Some (lv, rv).

(** One side of the [i]-th pair holds the null marker. *)
Definition pair_null (p : equalityPredicate) (st : buffers) (i : nat) : Prop :=
  ∃ lv rv, pair_values p st i = Some (lv, rv) ∧ (lv = DNull ∨ rv = DNull).

(** Both sides of the [i]-th pair are non-null and the comparison function
    of the pair returns [r]. *)
Definition pair_compares (p : equalityPredicate) (st : buffers) (i : nat)
    (r : bool * option error) : Prop :=
  ∃ lv rv fn,
    pair_values p st i = Some (lv, rv) ∧ lv ≠ DNull ∧ rv ≠ DNull ∧
    usingCmp p !! i = Some (Some fn) ∧ fn (evalCtx p) lv rv = r.

Definition pair_equal (p : equalityPredicate) (st : buffers) (i : nat) : Prop :=
  pair_compares p st i (true, None).

(** The positions [encode] reads for a side. *)
Definition side_columns (p : equalityPredicate) (side : Z) : list Z :=
  if decide (side = rightSide) then rightUsingIndices p else leftUsingIndices p.

(** COALESCE of the two values of a USING pair. *)
Definition coalesce (lv rv : Datum) : Datum :=
  if decide (lv = DNull) then rv else lv.

End Pairs.

(** ** What construction resolves *)

Section Resolution.
Context `{PT : ParserTypes} `{CO : !Collaborators}.

(** A column that a USING name can denote: not hidden, and with that name
    once it is normalized. *)
Definition visible_match (colName : string) (col : ResultColumn) : Prop :=
  hidden col = false ∧ ReNormalizeName (Name col) = colName.

#[global] Instance visible_match_dec colName col :
  Decision (visible_match colName col).
Proof. unfold visible_match. apply _. Defined.

(** The [i]-th pair of names resolves to the positions [li] and [ri], whose
    types have the equality function [fn]. *)
Definition pair_resolved (left right : dataSourceInfo)
    (leftColNames rightColNames : list string)
    (i : nat) (li ri : Z) (fn : cmpFn) : Prop :=
  ∃ ln rn lty rty,
    leftColNames !! i = Some ln ∧ rightColNames !! i = Some rn ∧
    pickUsingColumn (sourceColumns left) (Normalize ln) "left"
      = Done (inl (li, lty)) ∧
    pickUsingColumn (sourceColumns right) (Normalize rn) "right"
      = Done (inl (ri, rty)) ∧
    FindEqualComparisonFunction lty rty = Some fn.

(** The [i]-th pair of names has a fault, reported as [err]: the left name
    denotes no column, or the right name denotes none, or the two types have
    no equality function. *)
Definition pair_fault (left right : dataSourceInfo)
    (leftColNames rightColNames : list string)
    (i : nat) (err : error) : Prop :=
  ∃ ln rn,
    leftColNames !! i = Some ln ∧ rightColNames !! i = Some rn ∧
    ((∀ col, col ∈ sourceColumns left → ¬ visible_match (Normalize ln) col) ∧
     err = ErrUsingMissing (Normalize ln) "left"
     ∨
     (∃ col, col ∈ sourceColumns left ∧ visible_match (Normalize ln) col) ∧
     (∀ col, col ∈ sourceColumns right → ¬ visible_match (Normalize rn) col) ∧
     err = ErrUsingMissing (Normalize rn) "right"
     ∨
     ∃ li lty ri rty,
       pickUsingColumn (sourceColumns left) (Normalize ln) "left"
         = Done (inl (li, lty)) ∧
       pickUsingColumn (sourceColumns right) (Normalize rn) "right"
         = Done (inl (ri, rty)) ∧
       FindEqualComparisonFunction lty rty = None ∧
       err = ErrUsingTypes lty (Normalize ln) rty (Normalize rn)).

(** The positions below [n] that no USING pair uses, in increasing order. *)
Definition rest_positions (usingIdx : list Z) (n : nat) : list Z :=
  Z.of_nat <$> filter (λ j, Z.of_nat j ∉ usingIdx) (seq 0 n).

(** What usedLeft (or usedRight) holds once the pairs below [i] are done:
    the invalid index for a column that none of them uses, else a pair that
    uses the column. *)
Definition used_ok (i : nat) (usingIdx used : list Z) : Prop :=
  ∀ j u, used !! j = Some u →
    (u = invalidColIdx ∧ ∀ k, k < i → usingIdx !! k ≠ Some (Z.of_nat j)) ∨
    (∃ k, u = Z.of_nat k ∧ k < i ∧ usingIdx !! k = Some (Z.of_nat j)).

(** The invariant of the first loop of [makeEqualityPredicate], at the
    start of the turn for the pair [i]. *)
Record using_inv (left right : dataSourceInfo)
    (leftColNames rightColNames : list string)
    (i : nat) (s : usingState) : Prop := {
  inv_usingLeft_len : length (usingLeft s) = length leftColNames;
  inv_usingRight_len : length (usingRight s) = length leftColNames;
  inv_cmpOps_len : length (cmpOps s) = length leftColNames;
  inv_usedLeft_len : length (usedLeft s) = length (sourceColumns left);
  inv_usedRight_len : length (usedRight s) = length (sourceColumns right);
  inv_resolved : ∀ k, k < i →
    ∃ li ri fn,
      pair_resolved left right leftColNames rightColNames k li ri fn ∧
      usingLeft s !! k = Some li ∧ usingRight s !! k = Some ri ∧
      cmpOps s !! k = Some (Some fn);
  inv_columns :
    Forall2 (λ li col, lookupZ (sourceColumns left) li = Some col)
            (take i (usingLeft s)) (columns s);
  inv_usedLeft : used_ok i (usingLeft s) (usedLeft s);
  inv_usedRight : used_ok i (usingRight s) (usedRight s);
}.

(** How an index list is remapped into the merged schema. *)
Definition remapped (used colRange newRange : list Z) : Prop :=
  mapM (lookupZ used) colRange = Some newRange.

End Resolution.

(** * The command that queues the nightly stress builds

    The function main of the second source file, src/unnamed/part_000: it
    reads the address and the credentials of the TeamCity server from the
    environment and queues one build per configuration per package. *)

(** What main takes from packages net/url, gotool and teamcity. The state
    of the TeamCity server is threaded through QueueBuild. *)
Class TeamCity : Type := {
  GoError : Type;                                (* error *)
  URL : Type;                                    (* *url.URL *)
  Host : URL → string;                           (* u.Host *)
  Parse : string → URL + GoError;                (* url.Parse *)
  ImportPaths : list string → list string;       (* gotool.ImportPaths *)
  Client : Type;                                 (* *teamcity.Client *)
  New : string → string → string → Client;       (* teamcity.New *)
  Server : Type;
  Build : Type;                                  (* *teamcity.Build *)
  QueueBuild : Client → string → string → gmap string string → Server →
               (Build + GoError) * Server;       (* client.QueueBuild *)
}.

Section StressMain.
Context `{TC : TeamCity}.

Definition teamcityServerURLEnv : string := "TC_SERVER_URL".
Definition teamcityAPIUserEnv : string := "TC_API_USER".
Definition teamcityAPIPasswordEnv : string := "TC_API_PASSWORD".

(** strconv.FormatBool *)
Definition FormatBool (b : bool) : string := if b then "true" else "false".

(** The lines main prints with log.Printf, one per build created. *)
Inductive logLine : Type :=
  | Created (buildTypeID branchName : string) (params : gmap string string)
            (build : Build).

(** The calls of log.Fatalf and log.Fatal, which end the program with
    status 1: a variable of the environment that is not set, the error of
    url.Parse, and the error of QueueBuild. *)
Inductive fatal : Type :=
  | FatalEnv (name : string)
  | FatalParse (err : GoError)
  | FatalQueue (buildTypeID branchName : string) (params : gmap string string)
               (err : GoError).

(** The server and what has been logged so far. *)
Record world : Type := {
  server : Server;
  logged : list logLine;
}.

(** for _, importPath := range importPaths: [params] is the map of the
    enclosing loop, which every turn updates in place. *)
Fixpoint queue_packages (client : Client) (buildTypeID branchName : string)
    (propEvalKV : bool) (importPaths : list string)
    (params : gmap string string) (w : world) : option fatal * world :=
  match importPaths with
  | [] => (None, w)
  | importPath :: rest =>
      let params := <["env.PKG" := importPath]> params in
      let params :=
        <["env.COCKROACH_PROPOSER_EVALUATED_KV" := FormatBool propEvalKV]>
          params in
      match QueueBuild client buildTypeID branchName params (server w) with
      | (inr err, sv) =>
          (Some (FatalQueue buildTypeID branchName params err),
           {| server := sv; logged := logged w |})
      | (inl build, sv) =>
          queue_packages client buildTypeID branchName propEvalKV rest params
            {| server := sv;
               logged := logged w
                         ++ [Created buildTypeID branchName params build] |}
      end
  end.

(** for _, params := range []map[string]string{...} *)
Fixpoint queue_configurations (client : Client)
    (buildTypeID branchName : string) (propEvalKV : bool)
    (importPaths : list string) (configs : list (gmap string string))
    (w : world) : option fatal * world :=
  match configs with
  | [] => (None, w)
  | params :: rest =>
      match queue_packages client buildTypeID branchName propEvalKV
              importPaths params w with
      | (Some f, w') => (Some f, w')
      | (None, w') =>
          queue_configurations client buildTypeID branchName propEvalKV
            importPaths rest w'
      end
  end.

(** The three maps of the slice literal, made anew at each turn of the
    outer loop: uninstrumented, race, deadlock. *)
Definition configurations : list (gmap string string) :=
  [∅; {["env.GOFLAGS" := "-race"]}; {["env.TAGS" := "deadlock"]}].

(** for _, propEvalKV := range []bool{true, false} *)
Fixpoint queue_all (client : Client) (buildTypeID branchName : string)
    (importPaths : list string) (flags : list bool) (w : world)
  : option fatal * world :=
  match flags with
  | [] => (None, w)
  | propEvalKV :: rest =>
      match queue_configurations client buildTypeID branchName propEvalKV
              importPaths configurations w with
      | (Some f, w') => (Some f, w')
      | (None, w') =>
          queue_all client buildTypeID branchName importPaths rest w'
      end
  end.

(** main, after flag.Parse has set the flags build and branch; [environ] is
    the environment of the process and [sv] the state of the server. The
    result is the fatal error, if any, and the final state. *)
Definition main (buildTypeID branchName : string)
    (environ : gmap string string) (sv : Server) : option fatal * world :=
  let w := {| server := sv; logged := [] |} in
  match environ !! teamcityServerURLEnv with
  | None => (Some (FatalEnv teamcityServerURLEnv), w)
  | Some serverURL =>
      match Parse serverURL with
      | inr err => (Some (FatalParse err), w)
      | inl u =>
          match environ !! teamcityAPIUserEnv with
          | None => (Some (FatalEnv teamcityAPIUserEnv), w)
          | Some username =>
              match environ !! teamcityAPIPasswordEnv with
              | None => (Some (FatalEnv teamcityAPIPasswordEnv), w)
              | Some password =>
                  let importPaths :=
                    ImportPaths ["github.com/cockroachdb/cockroach/..."] in
                  let client := New (Host u) username password in
                  queue_all client buildTypeID branchName importPaths
                    [true; false] w
              end
          end
      end
  end.

(** ** The builds main is meant to queue *)

(** A call of QueueBuild: the build type, the branch and the parameters. *)
Definition queued : Type := (string * string * gmap string string)%type.

Definition queued_of (line : logLine) : queued :=
  match line with
  | Created buildTypeID branchName params _ => (buildTypeID, branchName, params)
  end.

(** The parameters of the build of one package in one configuration. *)
Definition build_params (propEvalKV : bool) (base : gmap string string)
    (importPath : string) : gmap string string :=
  <["env.COCKROACH_PROPOSER_EVALUATED_KV" := FormatBool propEvalKV]>
    (<["env.PKG" := importPath]> base).

Definition builds_of_configuration (buildTypeID branchName : string)
    (propEvalKV : bool) (importPaths : list string)
    (base : gmap string string) : list queued :=
  (λ importPath,
     (buildTypeID, branchName, build_params propEvalKV base importPath))
  <$> importPaths.

Definition builds_of_flag (buildTypeID branchName : string)
    (importPaths : list string) (propEvalKV : bool) : list queued :=
  concat (builds_of_configuration buildTypeID branchName propEvalKV importPaths
          <$> configurations).

(** All the builds, in the order of the three loops. *)
Definition all_builds (buildTypeID branchName : string)
    (importPaths : list string) : list queued :=
  concat (builds_of_flag buildTypeID branchName importPaths <$> [true; false]).

(** Queueing a list of builds one after the other, up to the first that
    fails. *)
Fixpoint queue_list (client : Client) (builds : list queued) (w : world)
  : option fatal * world :=
  match builds with
  | [] => (None, w)
  | (buildTypeID, branchName, params) :: rest =>
      match QueueBuild client buildTypeID branchName params (server w) with
      | (inr err, sv) =>
          (Some (FatalQueue buildTypeID branchName params err),
           {| server := sv; logged := logged w |})
      | (inl build, sv) =>
          queue_list client rest
            {| server := sv;
               logged := logged w
                         ++ [Created buildTypeID branchName params build] |}
      end
  end.

End StressMain.

(** ** A small instance of the collaborators, for the examples *)

Module Sample.

Inductive datum : Type :=
  | SNull
  | SInt (n : Z)
  | SString (s : string).

#[local] Instance datum_eq_dec : EqDecision datum.
Proof. solve_decision. Defined.

Inductive coltype : Type := TInt | TString | TBytes.

Definition types : ParserTypes :=
  {| Datum := datum; DNull := SNull; Datum_eq_dec := datum_eq_dec;
     ColType := coltype; EvalContext := unit; TypedExpr := unit;
     ExtError := string |}.
#[local] Existing Instance types.

Definition eqInt : cmpFn := λ _ a b,
  match a, b with
  | SInt x, SInt y => (bool_decide (x = y), None)
  | _, _ => (false, Some (ErrExternal "unsupported comparison"))
  end.

Definition eqString : cmpFn := λ _ a b,
  match a, b with
  | SString x, SString y => (bool_decide (x = y), None)
  | _, _ => (false, Some (ErrExternal "unsupported comparison"))
  end.

Definition findEq (a b : coltype) : option cmpFn :=
  match a, b with
  | TInt, TInt => Some eqInt
  | TString, TString => Some eqString
  | _, _ => None
  end.

(** One byte per datum; strings are not encodable. *)
Definition datumBytes (d : Datum) : list byte :=
  match d with
  | SNull => [x00]
  | SInt n => [x01; default x00 (Byte.of_N (Z.to_N (n `mod` 256)))]
  | SString _ => []
  end.

Definition encodeDatum (b : list byte) (d : datum) : list byte * option error :=
  match d with
  | SString _ => ([], Some (ErrExternal "unable to encode"))
  | _ => (b ++ datumBytes d, None)
  end.

Definition collaborators : Collaborators :=
  {| Normalize := id; ReNormalizeName := id;
     FindEqualComparisonFunction := findEq;
     EncodeDatum := encodeDatum;
     RunFilter := λ _ _ _, (true, None);
     invalidColIdx := (-1)%Z |}.
#[local] Existing Instance collaborators.

Definition col (name : string) (t : coltype) : ResultColumn :=
  {| Name := name; Typ := t; hidden := false |}.

(** Left table (a, b), right table (a, c), joined with USING(a). *)
Definition leftInfo : dataSourceInfo :=
  {| sourceColumns := [col "a" TInt; col "b" TInt];
     sourceAliases := {[ "l" := [0; 1]%Z ]} |}.
Definition rightInfo : dataSourceInfo :=
  {| sourceColumns := [col "a" TInt; col "c" TInt];
     sourceAliases := {[ "r" := [0; 1]%Z ]} |}.

(** The predicate that construction gives for the join above. *)
Definition usingA : equalityPredicate :=
  {| leftColNames := ["a"]; rightColNames := ["a"];
     usingCmp := [Some eqInt]; evalCtx := ();
     leftUsingIndices := [0%Z]; rightUsingIndices := [0%Z];
     leftRestIndices := [1%Z]; rightRestIndices := [1%Z] |}.

(** The merged schema that construction gives for it: (a, b, c). *)
Definition mergedInfo : dataSourceInfo :=
  {| sourceColumns := [col "a" TInt; col "b" TInt; col "c" TInt];
     sourceAliases := {[ "l" := [0; 1]%Z; "r" := [0; 2]%Z ]} |}.

(** The same two tables, both under the alias t. *)
Definition leftT : dataSourceInfo :=
  {| sourceColumns := [col "a" TInt; col "b" TInt];
     sourceAliases := {[ "t" := [0; 1]%Z ]} |}.
Definition rightT : dataSourceInfo :=
  {| sourceColumns := [col "a" TInt; col "c" TInt];
     sourceAliases := {[ "t" := [0; 1]%Z ]} |}.
Definition mergedT : dataSourceInfo :=
  {| sourceColumns := [col "a" TInt; col "b" TInt; col "c" TInt];
     sourceAliases := {[ "t" := [0; 2]%Z ]} |}.
Definition planT : equalityPlan :=
  {| plan_pred := usingA; plan_info := mergedT;
     plan_usedLeft := [0; 1]%Z; plan_usedRight := [0; 2]%Z |}.

(** A left table (a, s) whose column s is a string, and a table with the
    single column a. *)
Definition leftS : dataSourceInfo :=
  {| sourceColumns := [col "a" TInt; col "s" TString];
     sourceAliases := ∅ |}.
Definition rightS : dataSourceInfo :=
  {| sourceColumns := [col "a" TInt; col "s" TInt];
     sourceAliases := ∅ |}.
Definition oneA : dataSourceInfo :=
  {| sourceColumns := [col "a" TInt]; sourceAliases := ∅ |}.

(** An ON predicate over the merged schema, and rows with a result buffer
    of width four. *)
Definition sampleOn : onPredicate :=
  {| on_evalCtx := (); on_filter := (); on_info := mergedInfo |}.

Definition fourCells : buffers :=
  {| result := [SNull; SNull; SNull; SNull];
     leftRow := [SInt 1; SInt 10]; rightRow := [SInt 1; SInt 100] |}.

(** Rows of the two tables, with an empty result buffer of width three. *)
Definition rows (l r : list datum) : buffers :=
  {| result := [SNull; SNull; SNull]; leftRow := l; rightRow := r |}.

(** The same rows with result buffers of width five, one and three. *)
Definition fiveCells : buffers :=
  {| result := [SNull; SNull; SNull; SNull; SInt 7];
     leftRow := [SInt 1; SInt 10]; rightRow := [SInt 1; SInt 100] |}.
Definition oneCell : buffers :=
  {| result := [SNull];
     leftRow := [SInt 1; SInt 10]; rightRow := [SInt 1; SInt 100] |}.
Definition threeCells : buffers :=
  {| result := [SNull; SNull; SNull];
     leftRow := [SInt 1; SInt 10]; rightRow := [SInt 1; SInt 100] |}.

Definition hid (name : string) (t : coltype) : ResultColumn :=
  {| Name := name; Typ := t; hidden := true |}.

(** Columns that all have the name a: the second and the last hidden. *)
Definition manyA : list ResultColumn :=
  [col "a" TInt; hid "a" TBytes; col "a" TString; hid "a" TInt].

(** A left table (a, rowid) whose column rowid is hidden, and the plan of
    its join with the table (a, c) with USING(a). *)
Definition leftH : dataSourceInfo :=
  {| sourceColumns := [col "a" TInt; hid "rowid" TInt];
     sourceAliases := ∅ |}.
Definition planH : equalityPlan :=
  {| plan_pred := usingA;
     plan_info :=
       {| sourceColumns := [col "a" TInt; hid "rowid" TInt; col "c" TInt];
          sourceAliases := {[ "r" := [0; 2]%Z ]} |};
     plan_usedLeft := [0; 1]%Z; plan_usedRight := [0; 2]%Z |}.

(** The predicate and the schema for the two tables joined with no name. *)
Definition noUsing : equalityPredicate :=
  {| leftColNames := []; rightColNames := [];
     usingCmp := []; evalCtx := ();
     leftUsingIndices := []; rightUsingIndices := [];
     leftRestIndices := [0; 1]%Z; rightRestIndices := [0; 1]%Z |}.
Definition concatInfo : dataSourceInfo :=
  {| sourceColumns := [col "a" TInt; col "b" TInt; col "a" TInt; col "c" TInt];
     sourceAliases := {[ "l" := [0; 1]%Z; "r" := [2; 3]%Z ]} |}.

(** A TeamCity server that numbers the builds it queues, and refuses a
    build once it holds [quota] of them; two packages; an environment with
    the three variables, and one without the user name. *)
Definition teamcity (quota : option nat) : TeamCity :=
  {| GoError := string; URL := string; Host := id;
     Parse := λ s, if decide (s = EmptyString) then inr "empty url" else inl s;
     ImportPaths := λ _, ["pkg/sql"; "pkg/kv"];
     Client := string * string * string;
     New := λ host username password, (host, username, password);
     Server := nat; Build := nat;
     QueueBuild := λ _ _ _ _ n,
       match quota with
       | Some q => if decide (n < q) then (inl n, S n)
                   else (inr "queue is full", n)
       | None => (inl n, S n)
       end |}.

Definition environment : gmap string string :=
  {[ "TC_SERVER_URL" := "tc.example.org"; "TC_API_USER" := "u";
     "TC_API_PASSWORD" := "p" ]}.
Definition noUser : gmap string string :=
  {[ "TC_SERVER_URL" := "tc.example.org"; "TC_API_PASSWORD" := "p" ]}.

End Sample.

(** * Properties *)

(** ** Slices *)

Lemma index_lookupZ {A : Type} (l : list A) (i : Z) :
  index l i =
  match lookupZ l i with
  | Some x => Done x
  | None => Panicked PanicIndex
  end.
Proof. unfold index, lookupZ. by case_decide. Qed.

Lemma lookupZ_nat {A : Type} (l : list A) (i : nat) :
  lookupZ l (Z.of_nat i) = l !! i.
Proof.
  unfold lookupZ. rewrite decide_True by lia. by rewrite Nat2Z.id.
Qed.

Lemma index_nat {A : Type} (l : list A) (i : nat) :
  index l (Z.of_nat i) =
  match l !! i with
  | Some x => Done x
  | None => Panicked PanicIndex
  end.
Proof. by rewrite index_lookupZ, lookupZ_nat. Qed.

Lemma lookupZ_Some {A : Type} (l : list A) (i : Z) (x : A) :
  lookupZ l i = Some x ↔ (0 ≤ i)%Z ∧ l !! Z.to_nat i = Some x.
Proof.
  unfold lookupZ. destruct (decide (0 ≤ i)%Z) as [Hi|Hi]; split.
  - by intros ->.
  - by intros [_ ->].
  - done.
  - by intros [? _].
Qed.

Lemma copy_prefix {A : Type} (dst src : list A) :
  length src ≤ length dst → copy dst src = src ++ drop (length src) dst.
Proof. intros Hlen. unfold copy. by rewrite take_ge. Qed.

Section Runtime.
Context `{PT : ParserTypes} `{CO : !Collaborators}.

Implicit Types (p : equalityPredicate) (st : buffers).

(** ** CROSS and ON *)

(** When the buffer is at least as wide as the two rows together,
    prepareRowConcat overwrites its first cells with the left row followed
    by the right row and keeps the cells after them. *)
Lemma prepareRowConcat_wide st :
  length (leftRow st) + length (rightRow st) ≤ length (result st) →
  prepareRowConcat st =
    (Done (),
     {| result := leftRow st ++ rightRow st
                  ++ drop (length (leftRow st) + length (rightRow st)) (result st);
        leftRow := leftRow st; rightRow := rightRow st |}).
Proof.
  intros Hlen. unfold prepareRowConcat.
  rewrite copy_prefix by lia.
  rewrite decide_True by (rewrite length_app, length_drop; lia).
  rewrite take_app_length, drop_app_length.
  rewrite copy_prefix by (rewrite length_drop; lia).
  by rewrite drop_drop.
Qed.

(** A row longer than the buffer makes the slice expression panic. *)
Lemma prepareRowConcat_short st :
  length (result st) < length (leftRow st) →
  (prepareRowConcat st).1 = Panicked PanicSliceBounds.
Proof.
  intros Hlen. unfold prepareRowConcat, copy.
  rewrite decide_False; [done|].
  rewrite length_app, length_take, length_drop. lia.
Qed.

(** C8: for every left and right row, eval of the CROSS predicate returns
    true and no error, whatever the rows and the buffer hold, and leaves
    them as they are; prepareRow of the CROSS and of the ON predicate both
    turn a result buffer whose width is the left width plus the right width
    into the left row followed by the right row. *)
Theorem cross_on_concat (pc : crossPredicate) (po : onPredicate) st :
  crossPredicate_eval pc st = (Done (true, None), st) ∧
  (length (result st) = length (leftRow st) + length (rightRow st) →
   crossPredicate_prepareRow pc st =
     (Done (), {| result := leftRow st ++ rightRow st;
                  leftRow := leftRow st; rightRow := rightRow st |}) ∧
   onPredicate_prepareRow po st =
     (Done (), {| result := leftRow st ++ rightRow st;
                  leftRow := leftRow st; rightRow := rightRow st |}) ∧
   length (leftRow st ++ rightRow st)
     = length (leftRow st) + length (rightRow st)).
Proof.
  split; [done|]. intros Hlen.
  unfold crossPredicate_prepareRow, onPredicate_prepareRow.
  rewrite prepareRowConcat_wide by lia.
  rewrite <- Hlen, drop_all, app_nil_r, length_app. done.
Qed.

(** eval of the CROSS predicate does not depend on the rows at all. *)
Lemma crossPredicate_eval_const (pc : crossPredicate) st :
  crossPredicate_eval pc st = (Done (true, None), st).
Proof. done. Qed.

(** C9: for every buffer, row and side, encode of the CROSS predicate
    returns an empty key, containsNull = false and no error; it neither
    fails nor panics. *)
Theorem crossPredicate_encode_noop (pc : crossPredicate)
    (b : list byte) (row : DTuple) (side : Z) :
  crossPredicate_encode pc b row side = Done ([], false, None).
Proof. done. Qed.

End Runtime.

(** ** eval of the equality predicate *)

Section EqualityEval.
Context `{PT : ParserTypes} `{CO : !Collaborators}.

Implicit Types (p : equalityPredicate) (st : buffers).

(** One turn of the loop, in terms of what the pair holds. *)
Lemma eval_loop_unfold p i rest st :
  eval_loop p (i :: rest) st =
  match leftUsingIndices p !! i with
  | None => (Panicked PanicIndex, st)
  | Some li =>
    match lookupZ (leftRow st) li with
    | None => (Panicked PanicIndex, st)
    | Some lv =>
      match rightUsingIndices p !! i with
      | None => (Panicked PanicIndex, st)
      | Some ri =>
        match lookupZ (rightRow st) ri with
        | None => (Panicked PanicIndex, st)
        | Some rv =>
          if bool_decide (lv = DNull) || bool_decide (rv = DNull)
          then (Done (false, None), st)
          else
            match usingCmp p !! i with
            | None => (Panicked PanicIndex, st)
            | Some None => (Panicked PanicNilFunc, st)
            | Some (Some fn) =>
              match fn (evalCtx p) lv rv with
              | (_, Some err) => (Done (false, Some err), st)
              | (true, None) => eval_loop p rest st
              | (false, None) => (Done (false, None), st)
              end
            end
        end
      end
    end
  end.
Proof.
  cbn [eval_loop]. unfold mbind, exec_bind, lift, readLeft, readRight.
  rewrite !index_nat.
  destruct (leftUsingIndices p !! i) as [li|]; [|done].
  rewrite index_lookupZ.
  destruct (lookupZ (leftRow st) li) as [lv|]; [|done].
  destruct (rightUsingIndices p !! i) as [ri|]; [|done].
  rewrite index_lookupZ.
  destruct (lookupZ (rightRow st) ri) as [rv|]; [|done].
  destruct (bool_decide (lv = DNull) || bool_decide (rv = DNull)); [done|].
  destruct (usingCmp p !! i) as [[fn|]|]; [|done..].
  cbn. destruct (fn (evalCtx p) lv rv) as [[] []]; done.
Qed.

(** C10: eval of the equality predicate takes no account of its result
    parameter and writes to none of the three buffers: whatever it returns
    (true, false, an error, or even a panic), the result buffer and both
    rows are afterwards what they were before. *)
Theorem equalityPredicate_eval_frame p st :
  (equalityPredicate_eval p st).2 = st.
Proof.
  unfold equalityPredicate_eval.
  generalize (seq 0 (length (leftColNames p))) as idxs.
  induction idxs as [|i rest IH]; [done|].
  rewrite eval_loop_unfold.
  repeat (case_match; try done).
Qed.

(** The result of eval does not depend on the contents of the result
    buffer either. *)
Lemma equalityPredicate_eval_result_irrelevant p st (r : DTuple) :
  (equalityPredicate_eval p
     {| result := r; leftRow := leftRow st; rightRow := rightRow st |}).1
  = (equalityPredicate_eval p st).1.
Proof.
  unfold equalityPredicate_eval.
  generalize (seq 0 (length (leftColNames p))) as idxs.
  induction idxs as [|i rest IH]; [done|].
  rewrite !eval_loop_unfold. cbn [leftRow rightRow].
  repeat (case_match; try done).
Qed.

(** By contrast, eval of the ON predicate fills the result buffer. *)
Lemma onPredicate_eval_writes (po : onPredicate) st :
  length (result st) = length (leftRow st) + length (rightRow st) →
  result (onPredicate_eval po st).2 = leftRow st ++ rightRow st.
Proof.
  intros Hlen. unfold onPredicate_eval, mbind, exec_bind.
  rewrite prepareRowConcat_wide by lia. cbn.
  by rewrite <- Hlen, drop_all, app_nil_r.
Qed.

(** *** The loop, pair by pair *)

Lemma pair_values_Some p st i lv rv :
  pair_values p st i = Some (lv, rv) ↔
  ∃ li ri, leftUsingIndices p !! i = Some li ∧ lookupZ (leftRow st) li = Some lv ∧
           rightUsingIndices p !! i = Some ri ∧ lookupZ (rightRow st) ri = Some rv.
Proof.
  unfold pair_values. split.
  - intros H.
    destruct (leftUsingIndices p !! i) as [li|]; [|done]. cbn in H.
    destruct (lookupZ (leftRow st) li) as [lv'|] eqn:Hl; [|done]. cbn in H.
    destruct (rightUsingIndices p !! i) as [ri|]; [|done]. cbn in H.
    destruct (lookupZ (rightRow st) ri) as [rv'|] eqn:Hr; [|done]. cbn in H.
    exists li, ri. by simplify_eq.
  - intros (li & ri & -> & Hl & -> & Hr). cbn. rewrite Hl. cbn. by rewrite Hr.
Qed.

Lemma eval_loop_null p i rest st :
  pair_null p st i → eval_loop p (i :: rest) st = (Done (false, None), st).
Proof.
  intros (lv & rv & (li & ri & Hli & Hlv & Hri & Hrv)%pair_values_Some & Hnull).
  rewrite eval_loop_unfold, Hli, Hlv, Hri, Hrv.
  destruct Hnull as [->| ->].
  - by rewrite bool_decide_true.
  - rewrite (bool_decide_true (DNull = DNull)) by done. by rewrite orb_true_r.
Qed.

Lemma eval_loop_compares p i rest st r :
  pair_compares p st i r →
  eval_loop p (i :: rest) st =
  match r with
  | (_, Some err) => (Done (false, Some err), st)
  | (true, None) => eval_loop p rest st
  | (false, None) => (Done (false, None), st)
  end.
Proof.
  intros (lv & rv & fn & (li & ri & Hli & Hlv & Hri & Hrv)%pair_values_Some
          & Hl & Hr & Hfn & Hres).
  rewrite eval_loop_unfold, Hli, Hlv, Hri, Hrv, Hfn, Hres.
  by rewrite !bool_decide_false.
Qed.

Lemma eval_loop_true_inv p i rest st :
  (eval_loop p (i :: rest) st).1 = Done (true, None) →
  pair_equal p st i ∧ (eval_loop p rest st).1 = Done (true, None).
Proof.
  rewrite eval_loop_unfold.
  destruct (leftUsingIndices p !! i) as [li|] eqn:Hli; [|done].
  destruct (lookupZ (leftRow st) li) as [lv|] eqn:Hlv; [|done].
  destruct (rightUsingIndices p !! i) as [ri|] eqn:Hri; [|done].
  destruct (lookupZ (rightRow st) ri) as [rv|] eqn:Hrv; [|done].
  destruct (bool_decide (lv = DNull)) eqn:Hl; [done|].
  destruct (bool_decide (rv = DNull)) eqn:Hr; [done|].
  apply bool_decide_eq_false in Hl, Hr. cbn.
  destruct (usingCmp p !! i) as [[fn|]|] eqn:Hfn; [|done..].
  destruct (fn (evalCtx p) lv rv) as [[] []] eqn:Hres; try done.
  intros Hrest. split; [|done].
  exists lv, rv, fn. split_and!; try done.
  apply pair_values_Some. by exists li, ri.
Qed.

(** The turns of the loop for pairs that compare equal change nothing. *)
Lemma eval_loop_skip p st rest k a :
  (∀ j, a ≤ j < a + k → pair_equal p st j) →
  eval_loop p (seq a k ++ rest) st = eval_loop p rest st.
Proof.
  revert a. induction k as [|k IH]; intros a Heq; [done|].
  cbn [seq app].
  rewrite (eval_loop_compares _ _ _ _ (true, None)) by (apply Heq; lia).
  apply IH. intros j Hj. apply Heq. lia.
Qed.

Lemma eval_loop_all_inv p st k a :
  (eval_loop p (seq a k) st).1 = Done (true, None) →
  ∀ j, a ≤ j < a + k → pair_equal p st j.
Proof.
  revert a. induction k as [|k IH]; intros a Htrue j Hj; [lia|].
  cbn [seq] in Htrue. apply eval_loop_true_inv in Htrue as [Ha Hrest].
  destruct (decide (j = a)) as [->|]; [done|].
  apply (IH (S a)); [done|lia].
Qed.

(** eval reaches the pair [i] when all the pairs before it compare equal. *)
Lemma equalityPredicate_eval_reach p st i :
  i < length (leftColNames p) →
  (∀ j, j < i → pair_equal p st j) →
  equalityPredicate_eval p st =
  eval_loop p (i :: seq (S i) (length (leftColNames p) - S i)) st.
Proof.
  intros Hi Hbefore. unfold equalityPredicate_eval.
  replace (length (leftColNames p)) with (i + S (length (leftColNames p) - S i))
    at 1 by lia.
  rewrite seq_app. cbn [seq]. rewrite eval_loop_skip; [done|].
  intros j Hj. apply Hbefore. lia.
Qed.

(** A null marker in the pair [i] ends the loop with false when the loop
    gets there, and also when an earlier pair has ended it with false; only
    an error of an earlier comparison is returned instead. *)
Lemma eval_loop_null_reached p st (i : nat) :
  pair_null p st i →
  ∀ k a, a ≤ i < a + k →
  (∀ j, a ≤ j < i →
        pair_null p st j ∨ ∃ res, pair_compares p st j (res, None)) →
  eval_loop p (seq a k) st = (Done (false, None), st).
Proof.
  intros Hnull. induction k as [|k IH]; intros a Hi Hbefore; [lia|].
  cbn [seq]. destruct (decide (a = i)) as [->|Hne].
  { by apply eval_loop_null. }
  destruct (Hbefore a) as [Ha|[res Ha]]; [lia| |].
  - by apply eval_loop_null.
  - rewrite (eval_loop_compares _ _ _ _ _ Ha). destruct res; [|done].
    apply IH; [lia|]. intros j Hj. apply Hbefore. lia.
Qed.

(** C1: eval of the equality predicate returns true exactly when every
    USING pair has a non-null value on both sides and its comparison
    function returns true. The pairs are taken in order: a null marker on
    either side of a pair makes eval return false with no error, whatever
    the later pairs hold, unless the comparison of an earlier pair has
    returned an error; the error of the first comparison that does not
    return true is returned as it is; and a comparison that returns false
    with no error ends the loop with false. *)
Theorem equalityPredicate_eval_spec p st :
  ((equalityPredicate_eval p st).1 = Done (true, None) ↔
   ∀ i, i < length (leftColNames p) → pair_equal p st i) ∧
  (∀ i, i < length (leftColNames p) →
        pair_null p st i →
        (∀ j, j < i →
              pair_null p st j ∨ ∃ res, pair_compares p st j (res, None)) →
        equalityPredicate_eval p st = (Done (false, None), st)) ∧
  (∀ i res err, i < length (leftColNames p) →
        (∀ j, j < i → pair_equal p st j) →
        pair_compares p st i (res, Some err) →
        equalityPredicate_eval p st = (Done (false, Some err), st)) ∧
  (∀ i, i < length (leftColNames p) →
        (∀ j, j < i → pair_equal p st j) →
        pair_compares p st i (false, None) →
        equalityPredicate_eval p st = (Done (false, None), st)).
Proof.
  split_and!.
  - split.
    + intros Htrue i Hi.
      apply (eval_loop_all_inv p st (length (leftColNames p)) 0); [done|lia].
    + intros Hall. unfold equalityPredicate_eval.
      rewrite <- (app_nil_r (seq _ _)), eval_loop_skip; [done|].
      intros j Hj. apply Hall. lia.
  - intros i Hi Hnull Hbefore.
    apply (eval_loop_null_reached p st i Hnull); [lia|].
    intros j Hj. apply Hbefore. lia.
  - intros i res err Hi Hbefore Hcmp.
    rewrite (equalityPredicate_eval_reach p st i) by done.
    rewrite (eval_loop_compares _ _ _ _ _ Hcmp). by destruct res.
  - intros i Hi Hbefore Hcmp.
    rewrite (equalityPredicate_eval_reach p st i) by done.
    by rewrite (eval_loop_compares _ _ _ _ _ Hcmp).
Qed.

(** A null marker in any pair keeps eval from returning true. *)
Corollary equalityPredicate_eval_null_not_true p st i :
  i < length (leftColNames p) → pair_null p st i →
  (equalityPredicate_eval p st).1 ≠ Done (true, None).
Proof.
  intros Hi (lv & rv & Hv & Hnull) Htrue.
  destruct (eval_loop_all_inv p st _ 0 Htrue i) as
    (lv' & rv' & fn & Hv' & Hl & Hr & _); [lia|].
  rewrite Hv in Hv'. simplify_eq. by destruct Hnull.
Qed.

End EqualityEval.

(** ** prepareRow of the equality predicate *)

Section EqualityPrepare.
Context `{PT : ParserTypes} `{CO : !Collaborators}.

Implicit Types (p : equalityPredicate) (st : buffers).

(** Writing the cell that follows the prefix [pre] of the result buffer. *)
Lemma writeResult_next (pre old : DTuple) (x v : Datum) (l r : DTuple) :
  writeResult (Z.of_nat (length pre)) v
    {| result := pre ++ x :: old; leftRow := l; rightRow := r |} =
  (Done (), {| result := (pre ++ [v]) ++ old; leftRow := l; rightRow := r |}).
Proof.
  unfold writeResult, store. cbn [result leftRow rightRow].
  rewrite decide_True by (rewrite length_app; cbn; lia).
  rewrite Nat2Z.id.
  replace (length pre) with (length pre + 0) at 1 by lia.
  rewrite insert_app_r. cbn. by rewrite <- app_assoc.
Qed.

Lemma prepareRow_using_spec p (l r : DTuple) (js : list Z) :
  ∀ (k : nat) (pre old : DTuple) (lvs rvs : list Datum),
  Forall2 (λ j lv, lookupZ l j = Some lv) js lvs →
  Forall2 (λ ri rv, lookupZ r ri = Some rv) (drop k (rightUsingIndices p)) rvs →
  length lvs ≤ length rvs →
  length js ≤ length old →
  prepareRow_using p (Z.of_nat (length pre)) k js
    {| result := pre ++ old; leftRow := l; rightRow := r |} =
  (Done (Z.of_nat (length pre + length js)),
   {| result := (pre ++ zip_with coalesce lvs rvs) ++ drop (length js) old;
      leftRow := l; rightRow := r |}).
Proof.
  induction js as [|j js IH]; intros k pre old lvs rvs Hl Hr Hlen Hold.
  - apply Forall2_nil_inv_l in Hl as ->. cbn.
    by rewrite !app_nil_r, Nat.add_0_r.
  - apply Forall2_cons_inv_l in Hl as (lv & lvs' & Hlv & Hl & ->).
    destruct rvs as [|rv rvs']; [cbn in Hlen; lia|].
    destruct old as [|x old']; [cbn in Hold; lia|].
    destruct (drop k (rightUsingIndices p)) as [|ri ris] eqn:Hdrop;
      [by apply Forall2_nil_inv_l in Hr|].
    apply Forall2_cons in Hr as [Hrv Hr].
    assert (rightUsingIndices p !! k = Some ri) as Hri.
    { rewrite <- (Nat.add_0_r k), <- lookup_drop, Hdrop. done. }
    assert (drop (S k) (rightUsingIndices p) = ris) as Hdrop'.
    { replace (S k) with (k + 1) by lia. by rewrite <- drop_drop, Hdrop. }
    cbn [prepareRow_using].
    unfold mbind at 1, exec_bind at 1, readLeft at 1. cbn [leftRow].
    rewrite index_lookupZ, Hlv.
    unfold mbind at 1, exec_bind at 1.
    assert ((if bool_decide (lv ≠ DNull)
             then v ← readLeft j; writeResult (Z.of_nat (length pre)) v
             else ri ← lift (index (rightUsingIndices p) (Z.of_nat k));
                  v ← readRight ri; writeResult (Z.of_nat (length pre)) v)
              {| result := pre ++ x :: old'; leftRow := l; rightRow := r |}
            = (Done (), {| result := (pre ++ [coalesce lv rv]) ++ old';
                           leftRow := l; rightRow := r |})) as ->.
    { unfold coalesce. destruct (decide (lv = DNull)) as [->|Hne].
      - rewrite bool_decide_false by naive_solver.
        unfold mbind, exec_bind, lift, readRight. cbn [rightRow].
        rewrite index_nat, Hri, index_lookupZ, Hrv.
        apply writeResult_next.
      - rewrite bool_decide_true by done.
        unfold mbind, exec_bind, readLeft. cbn [leftRow].
        rewrite index_lookupZ, Hlv.
        apply writeResult_next. }
    replace (Z.of_nat (length pre) + 1)%Z
      with (Z.of_nat (length (pre ++ [coalesce lv rv])))
      by (rewrite length_app; cbn; lia).
    rewrite (IH (S k) _ old' lvs' rvs'); try done.
    + rewrite length_app. cbn [length zip_with drop].
      rewrite <- !app_assoc. cbn. do 2 f_equal. lia.
    + by rewrite Hdrop'.
    + cbn in Hlen. lia.
    + cbn in Hold. lia.
Qed.

(** The two loops that copy the remaining columns of one row. *)
Lemma prepareRow_rest_spec (read : Z → exec Datum) (row l r : DTuple)
    (js : list Z) :
  (∀ j res, read j {| result := res; leftRow := l; rightRow := r |}
            = (index row j, {| result := res; leftRow := l; rightRow := r |})) →
  ∀ (pre old : DTuple) (vs : list Datum),
  Forall2 (λ j v, lookupZ row j = Some v) js vs →
  length js ≤ length old →
  prepareRow_rest read (Z.of_nat (length pre)) js
    {| result := pre ++ old; leftRow := l; rightRow := r |} =
  (Done (Z.of_nat (length pre + length js)),
   {| result := (pre ++ vs) ++ drop (length js) old;
      leftRow := l; rightRow := r |}).
Proof.
  intros Hread.
  induction js as [|j js IH]; intros pre old vs Hvs Hold.
  - apply Forall2_nil_inv_l in Hvs as ->. cbn.
    by rewrite !app_nil_r, Nat.add_0_r.
  - apply Forall2_cons_inv_l in Hvs as (v & vs' & Hv & Hvs & ->).
    destruct old as [|x old']; [cbn in Hold; lia|].
    cbn [prepareRow_rest].
    unfold mbind at 1, exec_bind at 1.
    rewrite Hread, index_lookupZ, Hv.
    unfold mbind at 1, exec_bind at 1.
    rewrite writeResult_next.
    replace (Z.of_nat (length pre) + 1)%Z with (Z.of_nat (length (pre ++ [v])))
      by (rewrite length_app; cbn; lia).
    rewrite (IH _ old' vs'); try done.
    + rewrite length_app. cbn [length drop].
      rewrite <- !app_assoc. cbn. do 2 f_equal. lia.
    + cbn in Hold. lia.
Qed.

(** Both sides null give null, a null left side gives the right value, and
    any other left value is kept. *)
Lemma coalesce_cases (lv rv : Datum) :
  coalesce DNull DNull = DNull ∧
  coalesce DNull rv = rv ∧
  (lv ≠ DNull → coalesce lv rv = lv).
Proof.
  unfold coalesce. rewrite !decide_True by done.
  split_and!; try done. intros Hne. by rewrite decide_False.
Qed.

(** C2: prepareRow of the equality predicate fills the result buffer with
    one coalesced value per USING pair, in pair order (the left value
    unless it is the null marker, else the right value), then the values of
    the left row at the left rest positions, then the values of the right
    row at the right rest positions, both in the order of the positions.
    The rows hold a value at every position of the predicate, and the
    buffer has one cell per value. *)
Theorem equalityPredicate_prepareRow_spec p (res l r : DTuple)
    (lvs rvs lrest rrest : list Datum) :
  length (leftUsingIndices p) = length (rightUsingIndices p) →
  mapM (lookupZ l) (leftUsingIndices p) = Some lvs →
  mapM (lookupZ r) (rightUsingIndices p) = Some rvs →
  mapM (lookupZ l) (leftRestIndices p) = Some lrest →
  mapM (lookupZ r) (rightRestIndices p) = Some rrest →
  length res = length lvs + length lrest + length rrest →
  equalityPredicate_prepareRow p
    {| result := res; leftRow := l; rightRow := r |} =
  (Done (),
   {| result := zip_with coalesce lvs rvs ++ lrest ++ rrest;
      leftRow := l; rightRow := r |}).
Proof.
  intros Hlen Hlvs%mapM_Some Hrvs%mapM_Some Hlrest%mapM_Some Hrrest%mapM_Some Hres.
  pose proof (Forall2_length _ _ _ Hlvs) as Hl1.
  pose proof (Forall2_length _ _ _ Hrvs) as Hl2.
  pose proof (Forall2_length _ _ _ Hlrest) as Hl3.
  pose proof (Forall2_length _ _ _ Hrrest) as Hl4.
  unfold equalityPredicate_prepareRow.
  unfold mbind at 1, exec_bind at 1.
  rewrite (prepareRow_using_spec p l r _ 0 [] res lvs rvs); try done; try lia.
  unfold mbind at 1, exec_bind at 1.
  cbn [length Nat.add app].
  set (pre1 := zip_with coalesce lvs rvs).
  assert (length pre1 = length (leftUsingIndices p)) as Hpre1.
  { unfold pre1. rewrite length_zip_with. lia. }
  rewrite <- Hpre1.
  rewrite (prepareRow_rest_spec readLeft l l r _ (λ _ _, eq_refl) pre1 _ lrest);
    [|done|rewrite length_drop; lia].
  unfold mbind at 1, exec_bind at 1.
  replace (length pre1 + length (leftRestIndices p))
    with (length (pre1 ++ lrest)) by (rewrite length_app; lia).
  rewrite (prepareRow_rest_spec readRight r l r _ (λ _ _, eq_refl) _ _ rrest);
    [|done|rewrite !length_drop; lia].
  cbn. rewrite !drop_drop, drop_ge by lia.
  by rewrite app_nil_r, <- app_assoc.
Qed.

End EqualityPrepare.

(** ** encode *)

Section Encode.
Context `{PT : ParserTypes} `{CO : !Collaborators}.

Implicit Types (p : equalityPredicate).

Section Appending.
(** The value encoder appends: [enc d] is what it adds for [d]. *)
Variable enc : Datum → list byte.
Hypothesis EncodeDatum_appends :
  ∀ b d b', EncodeDatum b d = (b', None) → b' = b ++ enc d.

Lemma encode_loop_spec (row : DTuple) (cols : list Z) :
  ∀ (vals : list Datum) (b : list byte) (containsNull : bool),
  Forall2 (λ c v, lookupZ row c = Some v) cols vals →
  match encode_loop b containsNull row cols with
  | Done (b', containsNull', None) =>
      b' = b ++ concat (enc <$> vals) ∧
      (containsNull' = true ↔ containsNull = true ∨ DNull ∈ vals)
  | Done (b', containsNull', Some err) =>
      b' = [] ∧ containsNull' = false ∧
      ∃ k d bk, vals !! k = Some d ∧
        EncodeDatum (b ++ concat (enc <$> take k vals)) d = (bk, Some err)
  | Panicked _ => False
  end.
Proof using EncodeDatum_appends.
  induction cols as [|c cols IH]; intros vals b cn Hvals.
  - apply Forall2_nil_inv_l in Hvals as ->. cbn.
    rewrite app_nil_r. split; [done|]. split; [by left|].
    intros [?|Hin]; [done|]. by apply elem_of_nil in Hin.
  - apply Forall2_cons_inv_l in Hvals as (v & vals' & Hv & Hvals & ->).
    cbn [encode_loop]. unfold mbind, outcome_bind.
    rewrite index_lookupZ, Hv.
    destruct (EncodeDatum b v) as [b1 [err|]] eqn:Henc.
    + split_and!; try done. exists 0, v, b1. cbn. by rewrite app_nil_r.
    + apply EncodeDatum_appends in Henc as ->.
      specialize (IH vals' (b ++ enc v)
                     (if bool_decide (v = DNull) then true else cn) Hvals).
      destruct (encode_loop _ _ row cols) as [[[b' cn'] [err|]]|]; [| |done].
      * destruct IH as (-> & -> & k & d & bk & Hk & Hd).
        split_and!; try done. exists (S k), d, bk. cbn.
        by rewrite app_assoc.
      * destruct IH as [-> Hcn]. split; [by rewrite <- app_assoc|].
        rewrite Hcn, elem_of_cons.
        destruct (bool_decide (v = DNull)) eqn:Hv0.
        -- apply bool_decide_eq_true in Hv0 as ->. split.
           ++ intros _. right. by left.
           ++ intros _. by left.
        -- apply bool_decide_eq_false in Hv0. split.
           ++ intros [?|?]; [by left|]. right. by right.
           ++ intros [?|[?|?]]; [by left|congruence|by right].
Qed.

(** C4: for a row that holds a value at every USING position of the side,
    encode of the equality predicate with side left or right returns the
    given buffer followed by the encodings of the values at that side's
    USING positions, in pair order, and containsNull is true exactly when
    one of these values is the null marker; when the value encoder fails
    on one of them, encode returns that error, with a nil key. It never
    panics. *)
Theorem equalityPredicate_encode_spec p (b : list byte) (row : DTuple)
    (side : Z) (vals : list Datum) :
  side = leftSide ∨ side = rightSide →
  mapM (lookupZ row) (side_columns p side) = Some vals →
  match equalityPredicate_encode p b row side with
  | Done (b', containsNull, None) =>
      b' = b ++ concat (enc <$> vals) ∧
      (containsNull = true ↔ DNull ∈ vals)
  | Done (b', containsNull, Some err) =>
      b' = [] ∧ containsNull = false ∧
      ∃ k d bk, vals !! k = Some d ∧
        EncodeDatum (b ++ concat (enc <$> take k vals)) d = (bk, Some err)
  | Panicked _ => False
  end.
Proof using EncodeDatum_appends.
  intros Hside Hvals%mapM_Some.
  unfold equalityPredicate_encode, side_columns in *.
  assert ((if decide (side = rightSide) then Done (rightUsingIndices p)
           else if decide (side = leftSide) then Done (leftUsingIndices p)
           else Panicked (PanicMsg
             "invalid side provided, only leftSide or rightSide applicable"))
          = Done (if decide (side = rightSide) then rightUsingIndices p
                  else leftUsingIndices p)) as ->.
  { destruct Hside as [->| ->]; done. }
  cbn. pose proof (encode_loop_spec row _ vals b false Hvals) as Hloop.
  destruct (encode_loop b false row _) as [[[b' cn'] [err|]]|]; [done| |done].
  destruct Hloop as [-> Hcn]. split; [done|]. rewrite Hcn.
  split; [by intros [?|?]|by right].
Qed.

End Appending.

(** *** Contract violations *)

(** encode of the ON predicate panics, whatever it is given. *)
Lemma onPredicate_encode_panics (po : onPredicate) (b : list byte)
    (row : DTuple) (side : Z) :
  onPredicate_encode po b row side =
  Panicked (PanicMsg "ON predicate extraction unimplemented").
Proof. done. Qed.

(** encode of the equality predicate panics on a side that is neither left
    nor right, before it reads the row. *)
Lemma equalityPredicate_encode_invalid_side p (b : list byte) (row : DTuple)
    (side : Z) :
  side ≠ leftSide → side ≠ rightSide →
  equalityPredicate_encode p b row side =
  Panicked (PanicMsg
    "invalid side provided, only leftSide or rightSide applicable").
Proof.
  intros Hl Hr. unfold equalityPredicate_encode.
  by rewrite !decide_False.
Qed.

(** C6, as the code has it: encode of the ON predicate, and encode of the
    equality predicate with a side other than left and right, end in a
    panic and never in a returned error; encode of the CROSS predicate is
    neither: it returns an empty key, containsNull = false and a nil
    error. *)
Theorem encode_contract_violations (jp : joinPredicate) (b : list byte)
    (row : DTuple) (side : Z) :
  match jp with
  | CrossP _ => encode jp b row side = Done ([], false, None)
  | OnP _ => ∃ msg, encode jp b row side = Panicked (PanicMsg msg)
  | EqualityP _ =>
      side ≠ leftSide → side ≠ rightSide →
      ∃ msg, encode jp b row side = Panicked (PanicMsg msg)
  end.
Proof.
  destruct jp as [pc|po|p]; cbn.
  - done.
  - by eexists.
  - intros Hl Hr. eexists. by apply equalityPredicate_encode_invalid_side.
Qed.

End Encode.

(** ** Construction of the equality predicate *)

Section Construction.
Context `{PT : ParserTypes} `{CO : !Collaborators}.

(** The invalid index is no position of a slice; in package sql it is -1. *)
Hypothesis invalidColIdx_neg : (invalidColIdx < 0)%Z.

Implicit Types (left right : dataSourceInfo) (cols : list ResultColumn).
Implicit Types (s : usingState) (leftColNames rightColNames : list string).

(** *** pickUsingColumn *)

(** The loop keeps [idx] when no column from [j] on matches, and else ends
    on the last column that matches. *)
Lemma pick_loop_spec cols (colName : string) :
  ∀ (j : nat) (idx : Z),
  (pick_loop cols colName (Z.of_nat j) idx = idx ∧
   ∀ col, col ∈ cols → ¬ visible_match colName col) ∨
  (∃ k col,
     pick_loop cols colName (Z.of_nat j) idx = Z.of_nat (j + k) ∧
     cols !! k = Some col ∧ visible_match colName col ∧
     ∀ k' col', k < k' → cols !! k' = Some col' → ¬ visible_match colName col').
Proof.
  induction cols as [|c cols IH]; intros j idx.
  { left. split; [done|]. intros col Hin. by apply elem_of_nil in Hin. }
  assert (∀ idx',
    pick_loop cols colName (Z.of_nat (S j)) idx' = idx' →
    (∀ col, col ∈ cols → ¬ visible_match colName col) →
    ¬ visible_match colName c →
    ∀ col, col ∈ c :: cols → ¬ visible_match colName col) as Hnone_cons.
  { intros idx' _ Hnone Hc col [->|Hin]%elem_of_cons; [done|by apply Hnone]. }
  assert (∀ idx' k col,
    pick_loop cols colName (Z.of_nat (S j)) idx' = Z.of_nat (S j + k) →
    cols !! k = Some col → visible_match colName col →
    (∀ k' col', k < k' → cols !! k' = Some col' → ¬ visible_match colName col') →
    ∃ k0 col0,
      pick_loop cols colName (Z.of_nat (S j)) idx' = Z.of_nat (j + k0) ∧
      (c :: cols) !! k0 = Some col0 ∧ visible_match colName col0 ∧
      ∀ k' col', k0 < k' → (c :: cols) !! k' = Some col' →
                 ¬ visible_match colName col') as Hlater.
  { intros idx' k col Heq Hk Hm Hlast. exists (S k), col.
    split_and!; [rewrite Heq; f_equal; lia|done|done|].
    intros [|k'] col' Hlt Hk'; [lia|]. apply (Hlast k'); [lia|done]. }
  cbn [pick_loop]. replace (Z.of_nat j + 1)%Z with (Z.of_nat (S j)) by lia.
  destruct (hidden c) eqn:Hh.
  - destruct (IH (S j) idx) as [[Heq Hnone]|(k & col & Heq & Hk & Hm & Hlast)].
    + left. split; [done|]. apply (Hnone_cons idx); [done..|].
      intros [Hv _]. congruence.
    + right. by apply (Hlater idx k col).
  - destruct (decide (ReNormalizeName (Name c) = colName)) as [Hn|Hn].
    + destruct (IH (S j) (Z.of_nat j))
        as [[Heq Hnone]|(k & col & Heq & Hk & Hm & Hlast)].
      * right. exists 0, c. split_and!; [by rewrite Heq, Nat.add_0_r|done|done|].
        intros [|k'] col' Hlt Hk'; [lia|]. apply Hnone.
        by apply (list_elem_of_lookup_2 _ k').
      * right. by apply (Hlater (Z.of_nat j) k col).
    + destruct (IH (S j) idx) as [[Heq Hnone]|(k & col & Heq & Hk & Hm & Hlast)].
      * left. split; [done|]. apply (Hnone_cons idx); [done..|].
        by intros [_ Hv].
      * right. by apply (Hlater idx k col).
Qed.

(** [pickUsingColumn] never panics: it reports a missing column when no
    visible column has the name, and else returns the position and type of
    the last visible column that has it. *)
Lemma pickUsingColumn_cases cols (colName context : string) :
  (pickUsingColumn cols colName context
     = Done (inr (ErrUsingMissing colName context)) ∧
   ∀ col, col ∈ cols → ¬ visible_match colName col) ∨
  (∃ k col,
     pickUsingColumn cols colName context = Done (inl (Z.of_nat k, Typ col)) ∧
     cols !! k = Some col ∧ visible_match colName col ∧
     ∀ k' col', k < k' → cols !! k' = Some col' → ¬ visible_match colName col').
Proof using invalidColIdx_neg.
  unfold pickUsingColumn.
  destruct (pick_loop_spec cols colName 0 invalidColIdx)
    as [[Heq Hnone]|(k & col & Heq & Hk & Hm & Hlast)];
    change (Z.of_nat 0) with 0%Z in Heq.
  - left. by rewrite Heq, decide_True.
  - right. exists k, col. rewrite Heq. cbn [Nat.add].
    rewrite decide_False by lia.
    rewrite index_nat, Hk. done.
Qed.

Lemma pickUsingColumn_found cols (colName context : string) (i : Z)
    (ty : ColType) :
  pickUsingColumn cols colName context = Done (inl (i, ty)) →
  ∃ col, lookupZ cols i = Some col ∧ visible_match colName col ∧ Typ col = ty.
Proof using invalidColIdx_neg.
  destruct (pickUsingColumn_cases cols colName context)
    as [[-> _]|(k & col & -> & Hk & Hm & _)]; [done|].
  intros [= <- <-]. exists col. by rewrite lookupZ_nat.
Qed.

(** *** The first loop: resolving the pairs *)

Lemma store_Done {A : Type} (l : list A) (i : nat) (x : A) :
  i < length l → store l (Z.of_nat i) x = Done (<[i := x]> l).
Proof.
  intros Hi. unfold store. rewrite decide_True by lia. by rewrite Nat2Z.id.
Qed.

Lemma used_ok_step (i kl : nat) (usingIdx used : list Z) :
  used_ok i usingIdx used → i < length usingIdx → kl < length used →
  used_ok (S i) (<[i := Z.of_nat kl]> usingIdx) (<[kl := Z.of_nat i]> used).
Proof.
  intros Hok Hi Hkl j u Hj.
  destruct (decide (j = kl)) as [->|Hne].
  - rewrite list_lookup_insert_eq in Hj by done. injection Hj as <-.
    right. exists i. split_and!; [done|lia|].
    by rewrite list_lookup_insert_eq.
  - rewrite list_lookup_insert_ne in Hj by done.
    destruct (Hok j u Hj) as [[-> Hfree]|(k & -> & Hk & Hused)].
    + left. split; [done|]. intros k Hk.
      destruct (decide (k = i)) as [->|Hki].
      * rewrite list_lookup_insert_eq by done. intros [= Heq]. lia.
      * rewrite list_lookup_insert_ne by done. apply Hfree. lia.
    + right. exists k. split_and!; [done|lia|].
      rewrite list_lookup_insert_ne by lia. done.
Qed.

(** One turn of the first loop either returns the error of a fault of the
    pair, or resolves the pair and keeps the invariant. It never panics. *)
Lemma using_step_cases left right leftColNames rightColNames (i : nat) s :
  length rightColNames = length leftColNames →
  using_inv left right leftColNames rightColNames i s →
  i < length leftColNames →
  (∃ err, pair_fault left right leftColNames rightColNames i err ∧
          using_step left right leftColNames rightColNames i s
            = Done (inr err)) ∨
  (∃ s', using_step left right leftColNames rightColNames i s = Done (inl s') ∧
         using_inv left right leftColNames rightColNames (S i) s').
Proof using invalidColIdx_neg.
  intros Hlen [HuL HuR Hcmp HdL HdR Hres Hcols HokL HokR] Hi.
  destruct (lookup_lt_is_Some_2 leftColNames i Hi) as [ln Hln].
  destruct (lookup_lt_is_Some_2 rightColNames i) as [rn Hrn]; [lia|].
  unfold using_step. rewrite !index_nat, Hln, Hrn. cbn.
  destruct (pickUsingColumn_cases (sourceColumns left) (Normalize ln) "left")
    as [[HpL HnoneL]|(kl & colL & HpL & HkL & HmL & _)]; rewrite HpL; cbn.
  { left. eexists. split; [|done]. exists ln, rn. split_and!; [done..|].
    left. done. }
  pose proof (lookup_lt_Some _ _ _ HkL) as HklL.
  rewrite !store_Done by (unfold ResultColumns in *; lia). cbn.
  destruct (pickUsingColumn_cases (sourceColumns right) (Normalize rn) "right")
    as [[HpR HnoneR]|(kr & colR & HpR & HkR & HmR & _)]; rewrite HpR; cbn.
  { left. eexists. split; [|done]. exists ln, rn. split_and!; [done..|].
    right. left. split_and!; [|done..]. exists colL. split; [|done].
    by apply (list_elem_of_lookup_2 _ kl). }
  pose proof (lookup_lt_Some _ _ _ HkR) as HkrR.
  rewrite ?store_Done by (unfold ResultColumns in *; lia). cbn.
  destruct (FindEqualComparisonFunction (Typ colL) (Typ colR)) as [fn|] eqn:Hfn.
  2:{ left. eexists. split; [|done]. exists ln, rn. split_and!; [done..|].
      right. right. exists (Z.of_nat kl), (Typ colL), (Z.of_nat kr), (Typ colR).
      done. }
  rewrite store_Done by lia. cbn.
  rewrite index_nat. unfold ResultColumns in *. rewrite HkL. cbn.
  right. eexists. split; [done|].
  constructor; cbn [usingLeft usingRight cmpOps usedLeft usedRight columns].
  - by rewrite length_insert.
  - by rewrite length_insert.
  - by rewrite length_insert.
  - by rewrite length_insert.
  - by rewrite length_insert.
  - intros k Hk. destruct (decide (k = i)) as [->|Hne].
    + exists (Z.of_nat kl), (Z.of_nat kr), fn.
      rewrite !list_lookup_insert_eq by lia. split_and!; [|done..].
      exists ln, rn, (Typ colL), (Typ colR). done.
    + destruct (Hres k) as (li & ri & fn' & Hr & H1 & H2 & H3); [lia|].
      exists li, ri, fn'. rewrite !list_lookup_insert_ne by done. done.
  - rewrite (take_S_r _ _ (Z.of_nat kl)) by (by rewrite list_lookup_insert_eq by lia).
    rewrite take_insert_ge by done.
    apply Forall2_app; [done|]. constructor; [|constructor].
    by rewrite lookupZ_nat.
  - apply used_ok_step; [done|lia|lia].
  - apply used_ok_step; [done|lia|lia].
Qed.

(** The first loop, from the pair [i] on, returns the error of a fault of
    one of the pairs or establishes the invariant for all the pairs. *)
Lemma using_loop_cases left right leftColNames rightColNames :
  length rightColNames = length leftColNames →
  ∀ (k i : nat) s,
  using_inv left right leftColNames rightColNames i s →
  i + k = length leftColNames →
  (∃ m err, i ≤ m < length leftColNames ∧
            pair_fault left right leftColNames rightColNames m err ∧
            using_loop left right leftColNames rightColNames (seq i k) s
              = Done (inr err)) ∨
  (∃ s', using_loop left right leftColNames rightColNames (seq i k) s
           = Done (inl s') ∧
         using_inv left right leftColNames rightColNames
                   (length leftColNames) s').
Proof using invalidColIdx_neg.
  intros Hlen. induction k as [|k IH]; intros i s Hinv Hik.
  - right. exists s. split; [done|]. by replace (length leftColNames) with i by lia.
  - cbn [seq using_loop].
    destruct (using_step_cases left right leftColNames rightColNames i s)
      as [(err & Hfault & ->)|(s' & -> & Hinv')]; [done|done|lia| |].
    + left. exists i, err. split_and!; [lia|lia|done|done].
    + cbn. destruct (IH (S i) s' Hinv') as
        [(m & err & Hm & Hfault & ->)|(s'' & -> & Hinv'')]; [lia| |].
      * left. exists m, err. split_and!; [lia|lia|done|done].
      * right. by exists s''.
Qed.

(** The invariant holds before the first turn. *)
Lemma using_inv_init left right leftColNames rightColNames :
  length rightColNames = length leftColNames →
  using_inv left right leftColNames rightColNames 0
    {| cmpOps := replicate (length leftColNames) None;
       usingLeft := replicate (length leftColNames) 0%Z;
       usingRight := replicate (length rightColNames) 0%Z;
       usedLeft := replicate (length (sourceColumns left)) invalidColIdx;
       usedRight := replicate (length (sourceColumns right)) invalidColIdx;
       columns := [] |}.
Proof.
  intros Hlen.
  constructor; cbn [usingLeft usingRight cmpOps usedLeft usedRight columns].
  - by rewrite length_replicate.
  - by rewrite length_replicate.
  - by rewrite length_replicate.
  - by rewrite length_replicate.
  - by rewrite length_replicate.
  - intros k Hk. lia.
  - rewrite take_0. constructor.
  - intros j u [-> _]%lookup_replicate. left. split; [done|]. intros k Hk. lia.
  - intros j u [-> _]%lookup_replicate. left. split; [done|]. intros k Hk. lia.
Qed.

(** A pair cannot both resolve and have a fault. *)
Lemma pair_fault_not_resolved left right leftColNames rightColNames
    (i : nat) (err : error) (li ri : Z) (fn : cmpFn) :
  pair_fault left right leftColNames rightColNames i err →
  pair_resolved left right leftColNames rightColNames i li ri fn → False.
Proof using invalidColIdx_neg.
  intros (ln & rn & Hln & Hrn & Hf) (ln' & rn' & lty & rty & Hln' & Hrn' & HpL & HpR & Hfn).
  rewrite Hln in Hln'. rewrite Hrn in Hrn'. simplify_eq.
  destruct (pickUsingColumn_found _ _ _ _ _ HpL) as (cl & Hcl & Hml & _).
  destruct (pickUsingColumn_found _ _ _ _ _ HpR) as (cr & Hcr & Hmr & _).
  apply lookupZ_Some in Hcl as [_ Hcl]. apply lookupZ_Some in Hcr as [_ Hcr].
  apply list_elem_of_lookup_2 in Hcl, Hcr.
  destruct Hf as [[Hnone _]|[(_ & Hnone & _)|(li' & lty' & ri' & rty' & HpL' & HpR' & Hfn' & _)]].
  - by apply (Hnone cl).
  - by apply (Hnone cr).
  - rewrite HpL in HpL'. rewrite HpR in HpR'. by simplify_eq.
Qed.

(** *** The second and third loops: the remaining columns *)

Lemma filter_ext_in {A : Type} (P Q : A → Prop)
    `{!∀ x, Decision (P x), !∀ x, Decision (Q x)} (l : list A) :
  (∀ x, x ∈ l → (P x ↔ Q x)) → filter P l = filter Q l.
Proof.
  induction l as [|a l IH]; intros Hiff; [done|].
  assert (filter P l = filter Q l) as Hl.
  { apply IH. intros x Hx. apply Hiff. by right. }
  destruct (decide (P a)) as [Ha|Ha].
  - rewrite !filter_cons_True; [by rewrite Hl| |done]. apply Hiff; [by left|done].
  - rewrite !filter_cons_False; [done| |done]. rewrite <- Hiff; [done|by left].
Qed.

(** The loop over the columns of one side, from position [i] on: it
    visits the positions whose entry in [used] is the invalid index, in
    increasing order, appends them to the rest indices and their columns
    to the merged columns, and records in [used] where each one went. *)
Lemma rest_loop_spec (all : list ResultColumn) :
  ∀ (cols : list ResultColumn) (i : nat) (restIndices used : list Z)
    (merged : list ResultColumn),
  drop i all = cols →
  length used = length all →
  ∃ (used' : list Z) (newCols : list ResultColumn),
    rest_loop cols (Z.of_nat i) restIndices used merged =
      Done (restIndices
              ++ (Z.of_nat <$> filter (λ j, used !! j = Some invalidColIdx)
                                      (seq i (length cols))),
            used', merged ++ newCols) ∧
    Forall2 (λ j col, all !! j = Some col)
            (filter (λ j, used !! j = Some invalidColIdx) (seq i (length cols)))
            newCols ∧
    length used' = length used ∧
    (∀ j, j ∉ filter (λ j, used !! j = Some invalidColIdx) (seq i (length cols)) →
          used' !! j = used !! j) ∧
    (∀ r j, filter (λ j, used !! j = Some invalidColIdx) (seq i (length cols)) !! r
              = Some j →
            used' !! j = Some (Z.of_nat (length merged + r))).
Proof.
  induction cols as [|c cols IH]; intros i restIndices used merged Hdrop Hlen.
  { exists used, []. cbn. rewrite !app_nil_r. by split_and!. }
  assert (all !! i = Some c) as Hc.
  { rewrite <- (Nat.add_0_r i), <- lookup_drop, Hdrop. done. }
  assert (drop (S i) all = cols) as Hdrop'.
  { replace (S i) with (i + 1) by lia. by rewrite <- drop_drop, Hdrop. }
  pose proof (lookup_lt_Some _ _ _ Hc) as Hi.
  destruct (lookup_lt_is_Some_2 used i) as [u Hu]; [lia|].
  cbn [rest_loop length seq]. rewrite index_nat, Hu.
  unfold mbind at 1, outcome_bind at 1.
  replace (Z.of_nat i + 1)%Z with (Z.of_nat (S i)) by lia.
  destruct (decide (u = invalidColIdx)) as [->|Hne].
  - rewrite store_Done by lia. unfold mbind at 1, outcome_bind at 1.
    rewrite filter_cons_True by done.
    destruct (IH (S i) (restIndices ++ [Z.of_nat i])
                 (<[i := Z.of_nat (length merged)]> used) (merged ++ [c]))
      as (used' & newCols & Hrun & Hcols & Hlen' & Hkeep & Hnew);
      [done|by rewrite length_insert|].
    assert (filter (λ j, <[i := Z.of_nat (length merged)]> used !! j
                         = Some invalidColIdx) (seq (S i) (length cols))
            = filter (λ j, used !! j = Some invalidColIdx)
                     (seq (S i) (length cols))) as Hfilter.
    { apply filter_ext_in. intros j [Hj _]%elem_of_seq.
      rewrite list_lookup_insert_ne by lia. done. }
    rewrite Hfilter in Hrun, Hcols, Hkeep, Hnew.
    set (rest := filter (λ j, used !! j = Some invalidColIdx)
                        (seq (S i) (length cols))) in *.
    assert (i ∉ rest) as Hirest.
    { intros [_ [Hge _]%elem_of_seq]%list_elem_of_filter. lia. }
    exists used', (c :: newCols). split_and!.
    + rewrite Hrun. cbn. by rewrite <- !app_assoc.
    + by constructor.
    + by rewrite Hlen', length_insert.
    + intros j [Hji Hj]%not_elem_of_cons.
      rewrite Hkeep by done. by rewrite list_lookup_insert_ne.
    + intros [|r] j Hr; cbn in Hr.
      * injection Hr as <-. rewrite Hkeep by done.
        rewrite list_lookup_insert_eq by lia. by rewrite Nat.add_0_r.
      * rewrite (Hnew r j Hr), length_app. cbn. do 2 f_equal. lia.
  - rewrite filter_cons_False by congruence.
    destruct (IH (S i) restIndices used merged)
      as (used' & newCols & Hrun & Hcols & Hlen' & Hkeep & Hnew); [done..|].
    exists used', newCols. done.
Qed.

(** After the first loop an entry of usedLeft (or usedRight) is the invalid
    index exactly for the columns that no pair uses. *)
Lemma used_ok_invalid_iff (usingIdx used : list Z) (j : nat) (u : Z) :
  used_ok (length usingIdx) usingIdx used → used !! j = Some u →
  (u = invalidColIdx ↔ Z.of_nat j ∉ usingIdx).
Proof using invalidColIdx_neg.
  intros Hok Hu. destruct (Hok j u Hu) as [[-> Hfree]|(k & -> & Hk & Hused)].
  - split; [|done]. intros _ [k Hk]%list_elem_of_lookup_1.
    apply (Hfree k); [|done]. by apply lookup_lt_Some in Hk.
  - split; [lia|]. intros Hnot. exfalso. apply Hnot.
    by apply (list_elem_of_lookup_2 _ k).
Qed.

Lemma rest_filter_eq (usingIdx used : list Z) :
  used_ok (length usingIdx) usingIdx used →
  filter (λ j, used !! j = Some invalidColIdx) (seq 0 (length used))
  = filter (λ j, Z.of_nat j ∉ usingIdx) (seq 0 (length used)).
Proof using invalidColIdx_neg.
  intros Hok. apply filter_ext_in. intros j [_ Hj]%elem_of_seq.
  destruct (lookup_lt_is_Some_2 used j) as [u Hu]; [lia|].
  rewrite Hu, <- (used_ok_invalid_iff usingIdx used j u Hok Hu).
  split; [by intros [= ->]|by intros ->].
Qed.

(** *** The alias maps *)

Lemma remap_range_mapM (used colRange : list Z) :
  remap_range used colRange =
  match mapM (lookupZ used) colRange with
  | Some newRange => Done newRange
  | None => Panicked PanicIndex
  end.
Proof.
  induction colRange as [|c colRange IH]; [done|].
  cbn [remap_range]. rewrite index_lookupZ, IH. cbn.
  destruct (lookupZ used c) as [u|]; [|done]. cbn.
  by destruct (mapM (lookupZ used) colRange).
Qed.

(** When the loop over the aliases of one side ends, every alias of the
    side is bound to its remapped range, and the other aliases are as they
    were. *)
Lemma remap_aliases_spec (used : list Z) (src aliases m' : gmap string (list Z)) :
  remap_aliases used src aliases = Done m' →
  ∀ alias,
    (m' !! alias = match src !! alias with
                   | Some colRange => mapM (lookupZ used) colRange
                   | None => aliases !! alias
                   end) ∧
    (∀ colRange, src !! alias = Some colRange →
                 is_Some (mapM (lookupZ used) colRange)).
Proof.
  unfold remap_aliases. revert m'.
  apply (map_fold_weak_ind (λ r (m : gmap string (list Z)),
    ∀ m', r = Done m' →
    ∀ alias,
      (m' !! alias = match m !! alias with
                     | Some colRange => mapM (lookupZ used) colRange
                     | None => aliases !! alias
                     end) ∧
      (∀ colRange, m !! alias = Some colRange →
                   is_Some (mapM (lookupZ used) colRange)))).
  - intros m' [= <-] alias. by rewrite lookup_empty.
  - intros i x m r Hi IH m' Hrun alias.
    destruct r as [a|]; [|done]. cbn in Hrun.
    rewrite remap_range_mapM in Hrun.
    destruct (mapM (lookupZ used) x) as [newRange|] eqn:Hx; [|done].
    cbn in Hrun. injection Hrun as <-.
    destruct (decide (alias = i)) as [->|Hne].
    + rewrite !lookup_insert_eq. split; [done|]. intros ? [= <-]. by eexists.
    + rewrite !lookup_insert_ne by done. by apply IH.
Qed.

Lemma make_cap_Done {A : Type} (cap : Z) :
  (0 ≤ cap)%Z → make_cap (A := A) cap = Done [].
Proof. intros Hcap. unfold make_cap. by rewrite decide_True. Qed.

(** The result of [make] is empty whenever it returns. *)
Lemma make_cap_inv {A : Type} (cap : Z) (l : list A) :
  make_cap cap = Done l → l = [].
Proof. unfold make_cap. case_decide; [by intros [= <-]|done]. Qed.

(** In [H : m ≫= f = Done _], name the result of [m] with the equation [E]. *)
Ltac outcome_head H E :=
  lazymatch type of H with
  | mbind _ ?m = Done _ =>
      destruct m eqn:E; cbn [mbind outcome_bind] in H; [|discriminate H]
  end.

(** *** The whole construction *)

(** What a successful run of the body of [makeEqualityPredicate] has gone
    through: the first loop resolved every pair and left the state [s], and
    the two loops over the columns appended [colsL] and [colsR]. *)
Lemma equalityPlan_build_inv (ctx : EvalContext) left right
    leftColNames rightColNames (pl : equalityPlan) :
  equalityPlan_build ctx left right leftColNames rightColNames = Done (inl pl) →
  ∃ s (colsL colsR : list ResultColumn) (aliases1 : gmap string (list Z)),
    length rightColNames = length leftColNames ∧
    using_inv left right leftColNames rightColNames (length leftColNames) s ∧
    plan_pred pl =
      {| evalCtx := ctx;
         leftColNames := leftColNames;
         rightColNames := rightColNames;
         usingCmp := cmpOps s;
         leftUsingIndices := usingLeft s;
         rightUsingIndices := usingRight s;
         leftRestIndices :=
           rest_positions (usingLeft s) (length (sourceColumns left));
         rightRestIndices :=
           rest_positions (usingRight s) (length (sourceColumns right)) |} ∧
    sourceColumns (plan_info pl) = columns s ++ colsL ++ colsR ∧
    Forall2 (λ j col, sourceColumns left !! j = Some col)
      (filter (λ j, Z.of_nat j ∉ usingLeft s)
              (seq 0 (length (sourceColumns left)))) colsL ∧
    Forall2 (λ j col, sourceColumns right !! j = Some col)
      (filter (λ j, Z.of_nat j ∉ usingRight s)
              (seq 0 (length (sourceColumns right)))) colsR ∧
    length (plan_usedLeft pl) = length (sourceColumns left) ∧
    length (plan_usedRight pl) = length (sourceColumns right) ∧
    (∀ j, Z.of_nat j ∈ usingLeft s → plan_usedLeft pl !! j = usedLeft s !! j) ∧
    (∀ r j, filter (λ j, Z.of_nat j ∉ usingLeft s)
                   (seq 0 (length (sourceColumns left))) !! r = Some j →
            plan_usedLeft pl !! j = Some (Z.of_nat (length (columns s) + r))) ∧
    (∀ j, Z.of_nat j ∈ usingRight s → plan_usedRight pl !! j = usedRight s !! j) ∧
    (∀ r j, filter (λ j, Z.of_nat j ∉ usingRight s)
                   (seq 0 (length (sourceColumns right))) !! r = Some j →
            plan_usedRight pl !! j
            = Some (Z.of_nat (length (columns s) + length colsL + r))) ∧
    remap_aliases (plan_usedLeft pl) (sourceAliases left) ∅ = Done aliases1 ∧
    remap_aliases (plan_usedRight pl) (sourceAliases right) aliases1
      = Done (sourceAliases (plan_info pl)).
Proof using invalidColIdx_neg.
  unfold equalityPlan_build. intros Hrun.
  destruct (decide (length leftColNames ≠ length rightColNames)) as [|Hlen];
    [done|].
  apply dec_stable in Hlen. symmetry in Hlen.
  outcome_head Hrun Hcap0. apply make_cap_inv in Hcap0 as ->.
  destruct (using_loop_cases left right leftColNames rightColNames Hlen
              (length leftColNames) 0 _
              (using_inv_init left right leftColNames rightColNames Hlen))
    as [(m & err & _ & _ & Hloop)|(s & Hloop & Hinv)]; [done| |];
    rewrite Hloop in Hrun; cbn [mbind outcome_bind] in Hrun; [done|].
  outcome_head Hrun Hcap1. apply make_cap_inv in Hcap1 as ->.
  pose proof Hinv as [HuL HuR Hcmp HdL HdR Hres Hcols HokL HokR].
  rewrite <- HuL in HokL. rewrite <- HuR in HokR.
  destruct (rest_loop_spec (sourceColumns left) (sourceColumns left) 0 []
              (usedLeft s) (columns s))
    as (usedL & colsL & HrunL & HcolsL & HlenL & HkeepL & HnewL); [done..|].
  change (Z.of_nat 0) with 0%Z in HrunL. rewrite HrunL in Hrun.
  rewrite <- HdL, (rest_filter_eq _ _ HokL), HdL in HcolsL, HkeepL, HnewL.
  cbn [mbind outcome_bind] in Hrun.
  outcome_head Hrun Hcap2. apply make_cap_inv in Hcap2 as ->.
  destruct (rest_loop_spec (sourceColumns right) (sourceColumns right) 0 []
              (usedRight s) (columns s ++ colsL))
    as (usedR & colsR & HrunR & HcolsR & HlenR & HkeepR & HnewR); [done..|].
  change (Z.of_nat 0) with 0%Z in HrunR. rewrite HrunR in Hrun.
  rewrite <- HdR, (rest_filter_eq _ _ HokR), HdR in HcolsR, HkeepR, HnewR.
  cbn [mbind outcome_bind] in Hrun.
  outcome_head Hrun Ha1. rename a into aliases1.
  outcome_head Hrun Ha2. rename a into aliases2.
  injection Hrun as <-.
  cbn [plan_pred plan_info plan_usedLeft plan_usedRight sourceColumns
       sourceAliases].
  exists s, colsL, colsR, aliases1.
  split_and!; try done.
  - unfold rest_positions. rewrite <- HdL, (rest_filter_eq _ _ HokL), HdL.
    rewrite <- HdR, (rest_filter_eq _ _ HokR), HdR. done.
  - by rewrite <- app_assoc.
  - lia.
  - lia.
  - intros j Hj. apply HkeepL.
    intros [Hnot _]%list_elem_of_filter. done.
  - intros j Hj. apply HkeepR.
    intros [Hnot _]%list_elem_of_filter. done.
  - intros r j Hr. rewrite (HnewR r j Hr), length_app. done.
Qed.

(** A successful construction is a successful run of the body. *)
Lemma makeEqualityPredicate_success (ctx : EvalContext) left right
    leftColNames rightColNames (jp : joinPredicate) (info : dataSourceInfo) :
  makeEqualityPredicate ctx left right leftColNames rightColNames
    = Done (Some jp, Some info, None) →
  ∃ pl, equalityPlan_build ctx left right leftColNames rightColNames
          = Done (inl pl) ∧
        jp = EqualityP (plan_pred pl) ∧ info = plan_info pl.
Proof.
  unfold makeEqualityPredicate.
  destruct (equalityPlan_build _ _ _ _ _) as [[pl|err]|]; cbn; [|done..].
  intros [= <- <-]. by exists pl.
Qed.

(** After the first loop there is one merged column per pair. *)
Lemma using_inv_columns left right leftColNames rightColNames s :
  using_inv left right leftColNames rightColNames (length leftColNames) s →
  Forall2 (λ li col, lookupZ (sourceColumns left) li = Some col)
          (usingLeft s) (columns s) ∧
  length (columns s) = length leftColNames.
Proof.
  intros [HuL _ _ _ _ _ Hcols _ _].
  rewrite take_ge in Hcols by lia. split; [done|].
  by rewrite <- (Forall2_length _ _ _ Hcols).
Qed.

Lemma rest_positions_columns (all : list ResultColumn) (usingIdx : list Z)
    (cols : list ResultColumn) :
  Forall2 (λ j col, all !! j = Some col)
    (filter (λ j, Z.of_nat j ∉ usingIdx) (seq 0 (length all))) cols →
  mapM (lookupZ all) (rest_positions usingIdx (length all)) = Some cols ∧
  length (rest_positions usingIdx (length all)) = length cols.
Proof.
  intros Hcols. unfold rest_positions. split.
  - apply mapM_Some, Forall2_fmap_l.
    eapply Forall2_impl; [done|]. intros j col Hj. cbn.
    by rewrite lookupZ_nat.
  - rewrite length_fmap. by apply Forall2_length in Hcols.
Qed.

(** C3: after a successful construction of the equality predicate, the
    merged schema consists of the columns of the USING pairs, in pair
    order and each taken from the left side at the position its name
    resolves to, then the left columns that no pair uses, in their order,
    then the right columns that no pair uses, in their order; so it has as
    many columns as there are pairs, unused left columns and unused right
    columns together. *)
Theorem makeEqualityPredicate_merged_schema (ctx : EvalContext) left right
    leftColNames rightColNames (jp : joinPredicate) (info : dataSourceInfo) :
  makeEqualityPredicate ctx left right leftColNames rightColNames
    = Done (Some jp, Some info, None) →
  ∃ p (colsU colsL colsR : list ResultColumn),
    jp = EqualityP p ∧
    length (leftUsingIndices p) = length leftColNames ∧
    length (rightUsingIndices p) = length leftColNames ∧
    (∀ k, k < length leftColNames →
       ∃ li ri fn,
         pair_resolved left right leftColNames rightColNames k li ri fn ∧
         leftUsingIndices p !! k = Some li ∧
         rightUsingIndices p !! k = Some ri) ∧
    leftRestIndices p
      = rest_positions (leftUsingIndices p) (length (sourceColumns left)) ∧
    rightRestIndices p
      = rest_positions (rightUsingIndices p) (length (sourceColumns right)) ∧
    mapM (lookupZ (sourceColumns left)) (leftUsingIndices p) = Some colsU ∧
    mapM (lookupZ (sourceColumns left)) (leftRestIndices p) = Some colsL ∧
    mapM (lookupZ (sourceColumns right)) (rightRestIndices p) = Some colsR ∧
    sourceColumns info = colsU ++ colsL ++ colsR ∧
    length (sourceColumns info)
      = length leftColNames + length (leftRestIndices p)
        + length (rightRestIndices p).
Proof using invalidColIdx_neg.
  intros (pl & Hbuild & -> & ->)%makeEqualityPredicate_success.
  apply equalityPlan_build_inv in Hbuild
    as (s & colsL & colsR & aliases1 & Hlen & Hinv & -> & Hinfo & HcolsL
        & HcolsR & _).
  destruct (using_inv_columns _ _ _ _ _ Hinv) as [HcolsU HlenU].
  destruct (rest_positions_columns _ _ _ HcolsL) as [HmL HlL].
  destruct (rest_positions_columns _ _ _ HcolsR) as [HmR HlR].
  destruct Hinv as [HuL HuR _ _ _ Hres _ _ _].
  eexists. exists (columns s), colsL, colsR.
  cbn [leftUsingIndices rightUsingIndices leftRestIndices rightRestIndices].
  split_and!; try done.
  - intros k Hk. destruct (Hres k Hk) as (li & ri & fn & ? & ? & ? & _).
    by exists li, ri, fn.
  - by apply mapM_Some.
  - rewrite Hinfo, !length_app. cbn [leftRestIndices rightRestIndices]. lia.
Qed.

(** *** Where each column goes *)

(** The final contents of usedLeft (or usedRight): a column used by a pair
    is mapped to the slot of a pair that uses it, and any other column to
    its place after [offset], where the rest columns of its side start. *)
Lemma side_used_spec (usingIdx used0 used' : list Z) (width offset : nat) :
  used_ok (length usingIdx) usingIdx used0 →
  length used0 = width → length used' = width →
  (∀ j, Z.of_nat j ∈ usingIdx → used' !! j = used0 !! j) →
  (∀ r j, filter (λ j, Z.of_nat j ∉ usingIdx) (seq 0 width) !! r = Some j →
          used' !! j = Some (Z.of_nat (offset + r))) →
  ∀ j, j < width →
    (Z.of_nat j ∈ usingIdx ∧
     ∃ m, used' !! j = Some (Z.of_nat m) ∧ usingIdx !! m = Some (Z.of_nat j)) ∨
    ((Z.of_nat j ∉ usingIdx) ∧
     ∃ r, used' !! j = Some (Z.of_nat (offset + r)) ∧
          rest_positions usingIdx width !! r = Some (Z.of_nat j)).
Proof using invalidColIdx_neg.
  intros Hok Hlen0 Hlen' Hkeep Hnew j Hj.
  destruct (decide (Z.of_nat j ∈ usingIdx)) as [Hin|Hnot].
  - left. split; [done|]. rewrite (Hkeep j Hin).
    destruct (lookup_lt_is_Some_2 used0 j) as [u Hu]; [lia|].
    destruct (Hok j u Hu) as [[-> Hfree]|(k & -> & Hk & Hused)].
    + exfalso. apply list_elem_of_lookup_1 in Hin as [k Hk].
      apply (Hfree k); [|done]. by apply lookup_lt_Some in Hk.
    + by exists k.
  - right. split; [done|].
    assert (j ∈ filter (λ j, Z.of_nat j ∉ usingIdx) (seq 0 width)) as Hjin.
    { apply list_elem_of_filter. split; [done|]. apply elem_of_seq. lia. }
    apply list_elem_of_lookup_1 in Hjin as [r Hr].
    exists r. split; [by apply Hnew|].
    unfold rest_positions. by rewrite list_lookup_fmap, Hr.
Qed.

(** C7: after a successful construction of the equality predicate, usedLeft
    and usedRight give every original column position of their side one
    position of the merged schema: for a column used by a USING pair the
    slot of that pair, and for any other column its place among the rest
    columns of its side, which follow the pairs (left) or the left rest
    columns (right); the merged schema holds the descriptor of every left
    column and of every unused right column at that position. The merged
    alias map binds each alias of the right side to its range remapped
    through usedRight, each alias that only the left side has to its range
    remapped through usedLeft, and nothing else; so the right side wins
    for a name that both sides have. Every remapped index is a position of
    the merged schema. *)
Theorem makeEqualityPredicate_remap (ctx : EvalContext) left right
    leftColNames rightColNames (jp : joinPredicate) (info : dataSourceInfo) :
  makeEqualityPredicate ctx left right leftColNames rightColNames
    = Done (Some jp, Some info, None) →
  ∃ pl p,
    equalityPlan_build ctx left right leftColNames rightColNames
      = Done (inl pl) ∧
    p = plan_pred pl ∧ jp = EqualityP p ∧ info = plan_info pl ∧
    length (plan_usedLeft pl) = length (sourceColumns left) ∧
    length (plan_usedRight pl) = length (sourceColumns right) ∧
    (∀ j col, sourceColumns left !! j = Some col →
       ∃ m, plan_usedLeft pl !! j = Some (Z.of_nat m) ∧
            sourceColumns info !! m = Some col ∧
            (Z.of_nat j ∈ leftUsingIndices p ∧
             leftUsingIndices p !! m = Some (Z.of_nat j)
             ∨
             (Z.of_nat j ∉ leftUsingIndices p) ∧
             ∃ r, leftRestIndices p !! r = Some (Z.of_nat j) ∧
                  m = length leftColNames + r)) ∧
    (∀ j col, sourceColumns right !! j = Some col →
       ∃ m, plan_usedRight pl !! j = Some (Z.of_nat m) ∧
            m < length (sourceColumns info) ∧
            (Z.of_nat j ∈ rightUsingIndices p ∧
             rightUsingIndices p !! m = Some (Z.of_nat j)
             ∨
             (Z.of_nat j ∉ rightUsingIndices p) ∧
             sourceColumns info !! m = Some col ∧
             ∃ r, rightRestIndices p !! r = Some (Z.of_nat j) ∧
                  m = length leftColNames + length (leftRestIndices p) + r)) ∧
    (∀ alias,
       sourceAliases info !! alias =
       match sourceAliases right !! alias with
       | Some colRange => mapM (lookupZ (plan_usedRight pl)) colRange
       | None =>
           match sourceAliases left !! alias with
           | Some colRange => mapM (lookupZ (plan_usedLeft pl)) colRange
           | None => None
           end
       end) ∧
    (∀ alias colRange, sourceAliases right !! alias = Some colRange →
       ∃ newRange, sourceAliases info !! alias = Some newRange ∧
                   remapped (plan_usedRight pl) colRange newRange) ∧
    (∀ alias newRange, sourceAliases info !! alias = Some newRange →
       Forall (λ m, (0 ≤ m < Z.of_nat (length (sourceColumns info)))%Z)
              newRange).
Proof using invalidColIdx_neg.
  intros (pl & Hbuild & -> & ->)%makeEqualityPredicate_success.
  exists pl, (plan_pred pl). split; [done|].
  apply equalityPlan_build_inv in Hbuild
    as (s & colsL & colsR & aliases1 & Hlen & Hinv & Hp & Hinfo & HcolsL
        & HcolsR & HlenL & HlenR & HkeepL & HnewL & HkeepR & HnewR
        & Ha1 & Ha2).
  destruct (using_inv_columns _ _ _ _ _ Hinv) as [HcolsU HlenU].
  destruct (rest_positions_columns _ _ _ HcolsL) as [_ HlL].
  pose proof Hinv as [HuL HuR _ HdL HdR _ _ HokL HokR].
  rewrite <- HuL in HokL. rewrite <- HuR in HokR.
  rewrite Hp. cbn [leftUsingIndices rightUsingIndices leftRestIndices
                   rightRestIndices].
  rewrite HlL.
  (* the two sides *)
  assert (∀ j col, sourceColumns left !! j = Some col →
     ∃ m, plan_usedLeft pl !! j = Some (Z.of_nat m) ∧
          sourceColumns (plan_info pl) !! m = Some col ∧
          (Z.of_nat j ∈ usingLeft s ∧ usingLeft s !! m = Some (Z.of_nat j)
           ∨
           (Z.of_nat j ∉ usingLeft s) ∧
           ∃ r, rest_positions (usingLeft s) (length (sourceColumns left)) !! r
                  = Some (Z.of_nat j) ∧
                m = length leftColNames + r)) as Hleft.
  { intros j col Hj. pose proof (lookup_lt_Some _ _ _ Hj) as Hjlt.
    destruct (side_used_spec (usingLeft s) (usedLeft s) (plan_usedLeft pl)
                (length (sourceColumns left)) (length (columns s))
                HokL HdL HlenL HkeepL HnewL j Hjlt)
      as [[Hin (m & Hm & Hum)]|[Hnot (r & Hr & Hrest)]].
    - exists m. split_and!; [done| |by left].
      destruct (Forall2_lookup_l _ _ _ _ _ HcolsU Hum) as (col' & Hcol' & Hl).
      rewrite lookupZ_nat in Hl. unfold ResultColumns in *.
      rewrite Hinfo, lookup_app_l by (by apply lookup_lt_Some in Hcol').
      congruence.
    - exists (length (columns s) + r). split_and!; [done| |].
      + unfold rest_positions in Hrest. rewrite list_lookup_fmap in Hrest.
        destruct (filter _ _ !! r) as [j'|] eqn:Hj'; [|done].
        cbn in Hrest. assert (j' = j) as -> by (injection Hrest; lia).
        destruct (Forall2_lookup_l _ _ _ _ _ HcolsL Hj') as (col' & Hcol' & Hl).
        unfold ResultColumns in *.
        rewrite Hinfo, lookup_app_r by lia.
        replace (length (columns s) + r - length (columns s)) with r by lia.
        rewrite lookup_app_l by (by apply lookup_lt_Some in Hcol').
        congruence.
      + right. split; [done|]. exists r. split; [done|lia]. }
  assert (∀ j col, sourceColumns right !! j = Some col →
     ∃ m, plan_usedRight pl !! j = Some (Z.of_nat m) ∧
          m < length (sourceColumns (plan_info pl)) ∧
          (Z.of_nat j ∈ usingRight s ∧ usingRight s !! m = Some (Z.of_nat j)
           ∨
           (Z.of_nat j ∉ usingRight s) ∧
           sourceColumns (plan_info pl) !! m = Some col ∧
           ∃ r, rest_positions (usingRight s) (length (sourceColumns right)) !! r
                  = Some (Z.of_nat j) ∧
                m = length leftColNames + length colsL + r)) as Hright.
  { intros j col Hj. pose proof (lookup_lt_Some _ _ _ Hj) as Hjlt.
    destruct (side_used_spec (usingRight s) (usedRight s) (plan_usedRight pl)
                (length (sourceColumns right))
                (length (columns s) + length colsL)
                HokR HdR HlenR HkeepR HnewR j Hjlt)
      as [[Hin (m & Hm & Hum)]|[Hnot (r & Hr & Hrest)]].
    - exists m. split_and!; [done| |by left].
      apply lookup_lt_Some in Hum. rewrite Hinfo, !length_app. lia.
    - exists (length (columns s) + length colsL + r).
      unfold rest_positions in Hrest. rewrite list_lookup_fmap in Hrest.
      destruct (filter _ _ !! r) as [j'|] eqn:Hj'; [|done].
      cbn in Hrest. assert (j' = j) as -> by (injection Hrest; lia).
      destruct (Forall2_lookup_l _ _ _ _ _ HcolsR Hj') as (col' & Hcol' & Hl).
      pose proof (lookup_lt_Some _ _ _ Hcol') as Hrlt.
      split_and!; [done|rewrite Hinfo, !length_app; lia|].
      right. split_and!; [done| |].
      + unfold ResultColumns in *.
        rewrite Hinfo, lookup_app_r by lia.
        rewrite lookup_app_r by lia.
        replace (length (columns s) + length colsL + r - length (columns s)
                 - length colsL) with r by lia.
        congruence.
      + exists r. unfold rest_positions.
        rewrite list_lookup_fmap, Hj'. split; [done|lia]. }
  (* every entry of the two maps is a position of the merged schema *)
  assert (∀ used (c m : Z),
     (used = plan_usedLeft pl ∨ used = plan_usedRight pl) →
     lookupZ used c = Some m →
     (0 ≤ m < Z.of_nat (length (sourceColumns (plan_info pl))))%Z) as Hbound.
  { intros used c m Hused [Hc Hm]%lookupZ_Some.
    pose proof (lookup_lt_Some _ _ _ Hm) as Hclt.
    destruct Hused as [->| ->].
    - destruct (lookup_lt_is_Some_2 (sourceColumns left) (Z.to_nat c))
        as [col Hcol]; [unfold ResultColumns in *; lia|].
      destruct (Hleft _ _ Hcol) as (m' & Hm' & Hcolm & _).
      apply lookup_lt_Some in Hcolm. rewrite Hm in Hm'.
      injection Hm' as ->. lia.
    - destruct (lookup_lt_is_Some_2 (sourceColumns right) (Z.to_nat c))
        as [col Hcol]; [unfold ResultColumns in *; lia|].
      destruct (Hright _ _ Hcol) as (m' & Hm' & Hlt & _).
      rewrite Hm in Hm'. injection Hm' as ->. lia. }
  (* the alias map *)
  pose proof (remap_aliases_spec _ _ _ _ Ha1) as Hal.
  pose proof (remap_aliases_spec _ _ _ _ Ha2) as Har.
  assert (∀ alias,
     sourceAliases (plan_info pl) !! alias =
     match sourceAliases right !! alias with
     | Some colRange => mapM (lookupZ (plan_usedRight pl)) colRange
     | None =>
         match sourceAliases left !! alias with
         | Some colRange => mapM (lookupZ (plan_usedLeft pl)) colRange
         | None => None
         end
     end) as Halias.
  { intros alias. destruct (Har alias) as [-> _].
    destruct (sourceAliases right !! alias); [done|].
    destruct (Hal alias) as [-> _].
    destruct (sourceAliases left !! alias); [done|]. apply lookup_empty. }
  split_and!; try done.
  - intros alias colRange Hr. rewrite Halias, Hr.
    destruct (Har alias) as [_ Hsome]. destruct (Hsome _ Hr) as [newRange Hn].
    by exists newRange.
  - intros alias newRange. rewrite Halias. intros Hn.
    assert (∃ used colRange,
      (used = plan_usedLeft pl ∨ used = plan_usedRight pl) ∧
      mapM (lookupZ used) colRange = Some newRange) as (used & cr & Hused & Hmap).
    { destruct (sourceAliases right !! alias) as [cr|].
      - exists (plan_usedRight pl), cr. split; [by right|done].
      - destruct (sourceAliases left !! alias) as [cr|]; [|done].
        exists (plan_usedLeft pl), cr. split; [by left|done]. }
    apply mapM_Some in Hmap. apply Forall_forall. intros m Hm.
    apply list_elem_of_lookup_1 in Hm as [k Hk].
    destruct (Forall2_lookup_r _ _ _ _ _ Hmap Hk) as (c & _ & Hc).
    by apply (Hbound used c m).
Qed.

(** *** Faults *)

(** The loop of [makeUsingPredicate] finds nothing exactly when the
    normalized names are pairwise distinct and none was seen before. *)
Lemma seenNames_loop_None (colNames : list string) :
  ∀ seenNames : gset string,
  seenNames_loop colNames seenNames = None ↔
  NoDup (Normalize <$> colNames) ∧
  ∀ x, x ∈ Normalize <$> colNames → x ∉ seenNames.
Proof.
  induction colNames as [|n colNames IH]; intros seenNames; cbn [seenNames_loop].
  { split; [|done]. intros _. split; [constructor|].
    intros x Hx. by apply elem_of_nil in Hx. }
  rewrite fmap_cons, NoDup_cons.
  destruct (decide (Normalize n ∈ seenNames)) as [Hin|Hnot].
  - split; [done|]. intros [_ Hfresh]. exfalso.
    apply (Hfresh (Normalize n)); [by left|done].
  - rewrite IH. split.
    + intros [Hnd Hfresh]. split_and!; [|done|].
      * intros Hn. apply (Hfresh _ Hn), elem_of_union. left.
        by apply elem_of_singleton.
      * intros x [->|Hx]%elem_of_cons; [done|].
        intros Hs. apply (Hfresh x Hx), elem_of_union. by right.
    + intros [[Hn Hnd] Hfresh]. split; [done|].
      intros x Hx [->%elem_of_singleton|Hs]%elem_of_union; [done|].
      apply (Hfresh x); [by right|done].
Qed.

Lemma seenNames_loop_Some (colNames : list string) :
  ∀ (seenNames : gset string) (err : error),
  seenNames_loop colNames seenNames = Some err →
  ∃ colName, err = ErrUsingTwice colName ∧ colName ∈ Normalize <$> colNames.
Proof.
  induction colNames as [|n colNames IH]; intros seenNames err;
    cbn [seenNames_loop]; [done|].
  destruct (decide (Normalize n ∈ seenNames)) as [Hin|Hnot].
  - intros [= <-]. exists (Normalize n). split; [done|]. by left.
  - intros (colName & -> & Hin)%IH. exists colName. split; [done|]. by right.
Qed.

(** With as many names on both sides, and no more names than columns, a
    fault of some pair makes the construction return the error of a fault,
    with no predicate and no schema. *)
Lemma makeEqualityPredicate_fault (ctx : EvalContext) left right
    leftColNames rightColNames (i : nat) (err : error) :
  length leftColNames = length rightColNames →
  length leftColNames
    ≤ length (sourceColumns left) + length (sourceColumns right) →
  pair_fault left right leftColNames rightColNames i err →
  ∃ m err',
    pair_fault left right leftColNames rightColNames m err' ∧
    makeEqualityPredicate ctx left right leftColNames rightColNames
      = Done (None, None, Some err').
Proof using invalidColIdx_neg.
  intros Hlen Hcap Hfault.
  unfold makeEqualityPredicate, equalityPlan_build.
  rewrite decide_False by (intros Hne; by apply Hne).
  cbv zeta. rewrite (make_cap_Done (A := ResultColumn)) by lia.
  cbn [mbind outcome_bind].
  destruct (using_loop_cases left right leftColNames rightColNames
              (eq_sym Hlen) (length leftColNames) 0 _
              (using_inv_init left right leftColNames rightColNames
                 (eq_sym Hlen)))
    as [(m & err' & _ & Hfault' & ->)|(s & _ & Hinv)]; [done| |].
  - by exists m, err'.
  - exfalso. destruct Hfault as (ln & rn & Hln & Hrn & Hf).
    destruct (inv_resolved _ _ _ _ _ _ Hinv i) as (li & ri & fn & Hres & _).
    { by apply lookup_lt_Some in Hln. }
    eapply pair_fault_not_resolved; [|done]. by exists ln, rn.
Qed.

(** C5, as the code has it: a name that occurs twice in the USING list
    makes makeUsingPredicate return an error, before anything else is
    looked at; name lists of different lengths make makeEqualityPredicate
    panic, which returns nothing; with name lists of equal length, not
    longer than the two schemas together, a name that denotes no visible
    column of its side and a pair of types without equality function make
    both constructors return an error. Whenever a constructor returns, it
    returns either a predicate with its schema and no error, or an error
    with neither. *)
Theorem construction_all_or_nothing (ctx : EvalContext) left right :
  (∀ colNames, ¬ NoDup (Normalize <$> colNames) →
     ∃ colName, colName ∈ Normalize <$> colNames ∧
       makeUsingPredicate ctx left right colNames
         = Done (None, None, Some (ErrUsingTwice colName))) ∧
  (∀ leftColNames rightColNames,
     length leftColNames ≠ length rightColNames →
     makeEqualityPredicate ctx left right leftColNames rightColNames
       = Panicked (PanicLengths (Z.of_nat (length leftColNames))
                                (Z.of_nat (length rightColNames)))) ∧
  (∀ leftColNames rightColNames i err,
     length leftColNames = length rightColNames →
     length leftColNames
       ≤ length (sourceColumns left) + length (sourceColumns right) →
     pair_fault left right leftColNames rightColNames i err →
     ∃ m err',
       pair_fault left right leftColNames rightColNames m err' ∧
       makeEqualityPredicate ctx left right leftColNames rightColNames
         = Done (None, None, Some err')) ∧
  (∀ colNames i err,
     NoDup (Normalize <$> colNames) →
     length colNames
       ≤ length (sourceColumns left) + length (sourceColumns right) →
     pair_fault left right colNames colNames i err →
     ∃ m err',
       pair_fault left right colNames colNames m err' ∧
       makeUsingPredicate ctx left right colNames
         = Done (None, None, Some err')) ∧
  (∀ leftColNames rightColNames r,
     makeEqualityPredicate ctx left right leftColNames rightColNames = Done r →
     (∃ jp info, r = (Some jp, Some info, None)) ∨
     (∃ err, r = (None, None, Some err))) ∧
  (∀ colNames r,
     makeUsingPredicate ctx left right colNames = Done r →
     (∃ jp info, r = (Some jp, Some info, None)) ∨
     (∃ err, r = (None, None, Some err))).
Proof using invalidColIdx_neg.
  assert (∀ leftColNames rightColNames r,
     makeEqualityPredicate ctx left right leftColNames rightColNames = Done r →
     (∃ jp info, r = (Some jp, Some info, None)) ∨
     (∃ err, r = (None, None, Some err))) as Hall.
  { intros leftColNames rightColNames r. unfold makeEqualityPredicate.
    destruct (equalityPlan_build _ _ _ _ _) as [[pl|err]|]; cbn; [| |done].
    - intros [= <-]. left. by eexists _, _.
    - intros [= <-]. right. by eexists. }
  split_and!.
  - intros colNames Hdup. unfold makeUsingPredicate.
    destruct (seenNames_loop colNames ∅) as [err|] eqn:Hseen.
    + apply seenNames_loop_Some in Hseen as (colName & -> & Hin).
      by exists colName.
    + apply seenNames_loop_None in Hseen as [Hnd _]. done.
  - intros leftColNames rightColNames Hne.
    unfold makeEqualityPredicate, equalityPlan_build.
    by rewrite decide_True.
  - intros leftColNames rightColNames i err.
    apply makeEqualityPredicate_fault.
  - intros colNames i err Hnd Hcap Hfault. unfold makeUsingPredicate.
    assert (seenNames_loop colNames ∅ = None) as ->.
    { apply seenNames_loop_None. split; [done|]. intros x _.
      apply not_elem_of_empty. }
    by apply (makeEqualityPredicate_fault ctx left right colNames colNames i err).
  - done.
  - intros colNames r. unfold makeUsingPredicate.
    destruct (seenNames_loop colNames ∅) as [err|].
    + intros [= <-]. right. by eexists.
    + apply Hall.
Qed.

(** *** Construction succeeds on well-formed input *)

Lemma remap_range_Done (used colRange : list Z) :
  Forall (λ c, (0 ≤ c < Z.of_nat (length used))%Z) colRange →
  ∃ newRange, remap_range used colRange = Done newRange.
Proof.
  intros Hrange. rewrite remap_range_mapM.
  destruct (mapM_is_Some_2 (lookupZ used) colRange) as [newRange ->];
    [|by eexists].
  eapply Forall_impl; [done|]. intros c Hc. cbn in Hc |- *.
  unfold lookupZ. rewrite decide_True by lia.
  apply lookup_lt_is_Some_2. lia.
Qed.

Lemma remap_aliases_Done (used : list Z) (src aliases : gmap string (list Z)) :
  (∀ alias colRange, src !! alias = Some colRange →
     Forall (λ c, (0 ≤ c < Z.of_nat (length used))%Z) colRange) →
  ∃ m', remap_aliases used src aliases = Done m'.
Proof.
  unfold remap_aliases.
  apply (map_fold_weak_ind (λ r (m : gmap string (list Z)),
    (∀ alias colRange, m !! alias = Some colRange →
       Forall (λ c, (0 ≤ c < Z.of_nat (length used))%Z) colRange) →
    ∃ m', r = Done m')).
  - intros _. by eexists.
  - intros i x m r Hi IH Hrange.
    destruct IH as [a ->].
    { intros alias colRange Hal. apply (Hrange alias).
      rewrite lookup_insert_ne; [done|]. intros ->. congruence. }
    destruct (remap_range_Done used x) as [newRange Hx].
    { apply (Hrange i). by rewrite lookup_insert_eq. }
    cbn. rewrite Hx. cbn. by eexists.
Qed.

(** With as many names on both sides, every pair resolved, at least one
    column on each side, and aliases that denote columns of their side,
    construction returns a predicate and a schema. *)
Lemma makeEqualityPredicate_succeeds (ctx : EvalContext) left right
    leftColNames rightColNames :
  length leftColNames = length rightColNames →
  length leftColNames
    ≤ length (sourceColumns left) + length (sourceColumns right) →
  0 < length (sourceColumns left) → 0 < length (sourceColumns right) →
  (∀ k, k < length leftColNames →
     ∃ li ri fn, pair_resolved left right leftColNames rightColNames k li ri fn) →
  (∀ alias colRange, sourceAliases left !! alias = Some colRange →
     Forall (λ c, (0 ≤ c < Z.of_nat (length (sourceColumns left)))%Z) colRange) →
  (∀ alias colRange, sourceAliases right !! alias = Some colRange →
     Forall (λ c, (0 ≤ c < Z.of_nat (length (sourceColumns right)))%Z) colRange) →
  ∃ jp info,
    makeEqualityPredicate ctx left right leftColNames rightColNames
      = Done (Some jp, Some info, None).
Proof using invalidColIdx_neg.
  intros Hlen Hcap HL HR Hres HaL HaR.
  unfold makeEqualityPredicate, equalityPlan_build.
  rewrite decide_False by (intros Hne; by apply Hne).
  cbv zeta. rewrite (make_cap_Done (A := ResultColumn)) by lia.
  cbn [mbind outcome_bind].
  destruct (using_loop_cases left right leftColNames rightColNames
              (eq_sym Hlen) (length leftColNames) 0 _
              (using_inv_init left right leftColNames rightColNames
                 (eq_sym Hlen)))
    as [(m & err' & Hm & Hfault & _)|(s & -> & Hinv)]; [done| |].
  { exfalso. destruct (Hres m) as (li & ri & fn & Hr); [lia|].
    by eapply pair_fault_not_resolved. }
  cbn [mbind outcome_bind].
  rewrite !(make_cap_Done (A := Z)) by lia.
  cbn [mbind outcome_bind].
  pose proof Hinv as [_ _ _ HdL HdR _ _ _ _].
  destruct (rest_loop_spec (sourceColumns left) (sourceColumns left) 0 []
              (usedLeft s) (columns s))
    as (usedL & colsL & HrunL & _ & HlenL & _); [done..|].
  change (Z.of_nat 0) with 0%Z in HrunL. rewrite HrunL.
  cbn [mbind outcome_bind].
  destruct (rest_loop_spec (sourceColumns right) (sourceColumns right) 0 []
              (usedRight s) (columns s ++ colsL))
    as (usedR & colsR & HrunR & _ & HlenR & _); [done..|].
  change (Z.of_nat 0) with 0%Z in HrunR. rewrite HrunR.
  cbn [mbind outcome_bind].
  destruct (remap_aliases_Done usedL (sourceAliases left) ∅) as [a1 ->].
  { intros alias colRange Hal. rewrite HlenL, HdL. by apply (HaL alias). }
  cbn [mbind outcome_bind].
  destruct (remap_aliases_Done usedR (sourceAliases right) a1) as [a2 ->].
  { intros alias colRange Hal. rewrite HlenR, HdR. by apply (HaR alias). }
  cbn. by eexists _, _.
Qed.

End Construction.

(** * Further properties of the row operations *)

Section MoreRuntime.
Context `{PT : ParserTypes} `{CO : !Collaborators}.

Implicit Types (p : equalityPredicate) (st : buffers).

Lemma length_copy {A : Type} (dst src : list A) :
  length (copy dst src) = length dst.
Proof.
  unfold copy. rewrite length_app, length_take, length_drop. lia.
Qed.

(** X1: prepareRow of the CROSS and of the ON predicate, given a result
    buffer wider than the two rows together, overwrites the first cells
    with the left row followed by the right row and leaves the cells after
    them as they were. *)
Theorem concat_keeps_tail (jp : joinPredicate) st :
  (∃ pc, jp = CrossP pc) ∨ (∃ po, jp = OnP po) →
  length (leftRow st) + length (rightRow st) ≤ length (result st) →
  prepareRow jp st =
    (Done (),
     {| result := leftRow st ++ rightRow st
                  ++ drop (length (leftRow st) + length (rightRow st)) (result st);
        leftRow := leftRow st; rightRow := rightRow st |}).
Proof.
  intros [[pc ->]|[po ->]] Hlen; cbn [prepareRow];
    unfold crossPredicate_prepareRow, onPredicate_prepareRow;
    by apply prepareRowConcat_wide.
Qed.

(** X2: prepareRowConcat with a buffer that is too narrow. When the buffer
    is shorter than the left row, the slice expression panics, after the
    buffer has been filled with the start of the left row. When it holds
    the left row but not all of the right row, nothing panics: the right
    row is cut to the room that is left. *)
Theorem prepareRowConcat_narrow st :
  (length (result st) < length (leftRow st) →
   prepareRowConcat st =
     (Panicked PanicSliceBounds,
      {| result := take (length (result st)) (leftRow st);
         leftRow := leftRow st; rightRow := rightRow st |})) ∧
  (length (leftRow st) ≤ length (result st) →
   length (result st) ≤ length (leftRow st) + length (rightRow st) →
   prepareRowConcat st =
     (Done (),
      {| result := leftRow st
                   ++ take (length (result st) - length (leftRow st)) (rightRow st);
         leftRow := leftRow st; rightRow := rightRow st |})).
Proof.
  split.
  - intros Hlen. unfold prepareRowConcat.
    rewrite decide_False by (rewrite length_copy; lia).
    unfold copy. by rewrite drop_ge, app_nil_r by lia.
  - intros Hl Hr. unfold prepareRowConcat.
    rewrite decide_True by (rewrite length_copy; lia).
    rewrite copy_prefix by lia.
    rewrite take_app_length, drop_app_length.
    unfold copy. rewrite length_drop.
    rewrite (drop_ge (drop _ _)) by (rewrite length_drop; lia).
    by rewrite app_nil_r.
Qed.


(** X4: eval of the ON predicate, given a result buffer as wide as the two
    rows together, leaves the left row followed by the right row in the
    buffer and returns what the filter gives on that row, an error
    included; a prepareRow that follows finds the buffer already filled and
    changes nothing. *)
Theorem onPredicate_eval_then_prepareRow (po : onPredicate) st :
  length (result st) = length (leftRow st) + length (rightRow st) →
  onPredicate_eval po st =
    (Done (RunFilter (on_filter po) (on_evalCtx po) (leftRow st ++ rightRow st)),
     {| result := leftRow st ++ rightRow st;
        leftRow := leftRow st; rightRow := rightRow st |}) ∧
  onPredicate_prepareRow po (onPredicate_eval po st).2
    = (Done (), (onPredicate_eval po st).2).
Proof.
  intros Hlen.
  assert (onPredicate_eval po st =
    (Done (RunFilter (on_filter po) (on_evalCtx po) (leftRow st ++ rightRow st)),
     {| result := leftRow st ++ rightRow st;
        leftRow := leftRow st; rightRow := rightRow st |})) as Heval.
  { unfold onPredicate_eval, mbind, exec_bind.
    rewrite prepareRowConcat_wide by lia.
    rewrite <- Hlen, drop_all, app_nil_r. done. }
  split; [done|]. rewrite Heval. cbn [snd].
  unfold onPredicate_prepareRow.
  rewrite prepareRowConcat_wide
    by (cbn [result leftRow rightRow]; rewrite length_app; lia).
  cbn [result leftRow rightRow].
  by rewrite <- length_app, drop_all, app_nil_r.
Qed.

(** prepareRow of the equality predicate on rows and a buffer of the right
    widths. *)
Lemma prepareRow_run p (res l r : DTuple) (lvs rvs lrest rrest : list Datum) :
  length (leftUsingIndices p) = length (rightUsingIndices p) →
  Forall2 (λ j v, lookupZ l j = Some v) (leftUsingIndices p) lvs →
  Forall2 (λ j v, lookupZ r j = Some v) (rightUsingIndices p) rvs →
  Forall2 (λ j v, lookupZ l j = Some v) (leftRestIndices p) lrest →
  Forall2 (λ j v, lookupZ r j = Some v) (rightRestIndices p) rrest →
  length res = length lvs + length lrest + length rrest →
  equalityPredicate_prepareRow p
    {| result := res; leftRow := l; rightRow := r |} =
  (Done (),
   {| result := zip_with coalesce lvs rvs ++ lrest ++ rrest;
      leftRow := l; rightRow := r |}).
Proof.
  intros Hlen Hlvs Hrvs Hlrest Hrrest Hres.
  pose proof (Forall2_length _ _ _ Hlvs) as Hl1.
  pose proof (Forall2_length _ _ _ Hrvs) as Hl2.
  pose proof (Forall2_length _ _ _ Hlrest) as Hl3.
  pose proof (Forall2_length _ _ _ Hrrest) as Hl4.
  unfold equalityPredicate_prepareRow.
  unfold mbind at 1, exec_bind at 1.
  rewrite (prepareRow_using_spec p l r _ 0 [] res lvs rvs); try done; try lia.
  unfold mbind at 1, exec_bind at 1.
  cbn [length Nat.add app].
  set (pre1 := zip_with coalesce lvs rvs).
  assert (length pre1 = length (leftUsingIndices p)) as Hpre1.
  { unfold pre1. rewrite length_zip_with. lia. }
  rewrite <- Hpre1.
  rewrite (prepareRow_rest_spec readLeft l l r _ (λ _ _, eq_refl) pre1 _ lrest);
    [|done|rewrite length_drop; lia].
  unfold mbind at 1, exec_bind at 1.
  replace (length pre1 + length (leftRestIndices p))
    with (length (pre1 ++ lrest)) by (rewrite length_app; lia).
  rewrite (prepareRow_rest_spec readRight r l r _ (λ _ _, eq_refl) _ _ rrest);
    [|done|rewrite !length_drop; lia].
  cbn. rewrite !drop_drop, drop_ge by lia.
  by rewrite app_nil_r, <- app_assoc.
Qed.

(** When the left values are all non-null, COALESCE keeps them. *)
Lemma zip_with_coalesce_left (lvs rvs : list Datum) :
  length lvs ≤ length rvs → Forall (λ v, v ≠ DNull) lvs →
  zip_with coalesce lvs rvs = lvs.
Proof.
  revert rvs. induction lvs as [|lv lvs IH]; intros rvs Hlen Hnn; [done|].
  destruct rvs as [|rv rvs]; [cbn in Hlen; lia|].
  apply Forall_cons in Hnn as [Hlv Hnn]. cbn [zip_with].
  rewrite IH by (cbn in Hlen; done || lia).
  unfold coalesce. by rewrite decide_False.
Qed.

(** X5: when eval of the equality predicate has returned true for a pair of
    rows, prepareRow on the same rows puts the left row's own USING values
    first: no value of the right row takes the place of one of them. *)
Theorem eval_true_prepareRow_left p (res l r : DTuple)
    (lvs rvs lrest rrest : list Datum) :
  (equalityPredicate_eval p {| result := res; leftRow := l; rightRow := r |}).1
    = Done (true, None) →
  length (leftUsingIndices p) = length (leftColNames p) →
  length (rightUsingIndices p) = length (leftColNames p) →
  mapM (lookupZ l) (leftUsingIndices p) = Some lvs →
  mapM (lookupZ r) (rightUsingIndices p) = Some rvs →
  mapM (lookupZ l) (leftRestIndices p) = Some lrest →
  mapM (lookupZ r) (rightRestIndices p) = Some rrest →
  length res = length lvs + length lrest + length rrest →
  equalityPredicate_prepareRow p
    {| result := res; leftRow := l; rightRow := r |} =
  (Done (),
   {| result := lvs ++ lrest ++ rrest; leftRow := l; rightRow := r |}).
Proof.
  intros Htrue HnL HnR Hlvs%mapM_Some Hrvs%mapM_Some Hlrest%mapM_Some
         Hrrest%mapM_Some Hres.
  rewrite (prepareRow_run p res l r lvs rvs lrest rrest); try done; [|lia].
  rewrite zip_with_coalesce_left; [done| |].
  - apply Forall2_length in Hlvs, Hrvs. lia.
  - apply Forall_lookup. intros k lv Hk.
    destruct (Forall2_lookup_r _ _ _ _ _ Hlvs Hk) as (li & Hli & Hlv).
    destruct (eval_loop_all_inv p _ _ 0 Htrue k)
      as (lv' & rv' & fn & Hv & Hnn & _).
    { apply lookup_lt_Some in Hli. lia. }
    apply pair_values_Some in Hv as (li' & ri' & Hli' & Hlv' & _).
    cbn [leftRow] in Hlv'. congruence.
Qed.

(** The loop of encode reads the row at the given columns only. *)
Lemma encode_loop_values (row1 row2 : DTuple) (cols : list Z) :
  ∀ (vals : list Datum) (b : list byte) (containsNull : bool),
  Forall2 (λ c v, lookupZ row1 c = Some v) cols vals →
  Forall2 (λ c v, lookupZ row2 c = Some v) cols vals →
  encode_loop b containsNull row1 cols = encode_loop b containsNull row2 cols.
Proof.
  induction cols as [|c cols IH]; intros vals b cn H1 H2; [done|].
  apply Forall2_cons_inv_l in H1 as (v & vals' & Hv1 & H1 & ->).
  apply Forall2_cons in H2 as [Hv2 H2].
  cbn [encode_loop]. rewrite !index_lookupZ, Hv1, Hv2. cbn.
  destruct (EncodeDatum b v) as [b' [err|]]; [done|].
  by apply (IH vals').
Qed.

(** X6: the key that encode of the equality predicate makes for a row
    depends on the values at the USING positions of the side only: two rows
    that agree there get the same key, the same containsNull and the same
    error, whatever their other columns hold. *)
Theorem encode_reads_using_columns_only p (b : list byte)
    (row1 row2 : DTuple) (side : Z) (vals : list Datum) :
  mapM (lookupZ row1) (side_columns p side) = Some vals →
  mapM (lookupZ row2) (side_columns p side) = Some vals →
  equalityPredicate_encode p b row1 side = equalityPredicate_encode p b row2 side.
Proof.
  intros H1%mapM_Some H2%mapM_Some.
  unfold equalityPredicate_encode, side_columns in *.
  destruct (decide (side = rightSide)) as [Hr|Hr]; cbn.
  - by apply (encode_loop_values _ _ _ vals).
  - destruct (decide (side = leftSide)); cbn; [|done].
    by apply (encode_loop_values _ _ _ vals).
Qed.

End MoreRuntime.

(** * Further properties of the construction *)

Section MoreConstruction.
Context `{PT : ParserTypes} `{CO : !Collaborators}.

Hypothesis invalidColIdx_neg : (invalidColIdx < 0)%Z.

Implicit Types (left right : dataSourceInfo) (cols : list ResultColumn).
Implicit Types (s : usingState) (leftColNames rightColNames : list string).

Ltac bind_head H E :=
  lazymatch type of H with
  | mbind _ ?m = Done _ =>
      destruct m eqn:E; cbn [mbind outcome_bind] in H; [|discriminate H]
  end.

(** make with a negative capacity. *)
Lemma make_cap_neg {A : Type} (cap : Z) :
  (cap < 0)%Z → make_cap (A := A) cap = Panicked PanicMakeSlice.
Proof. intros Hcap. unfold make_cap. by rewrite decide_False by lia. Qed.

Lemma make_cap_nonneg {A : Type} (cap : Z) (l : list A) :
  make_cap cap = Done l → (0 ≤ cap)%Z.
Proof. unfold make_cap. by destruct (decide (0 ≤ cap)%Z). Qed.

(** X7: pickUsingColumn never panics. It reports the missing column exactly
    when no visible column of the table has the name, hidden columns being
    passed over; and when several visible columns have the name it takes
    the last of them, with no complaint about the ambiguity. *)
Theorem pickUsingColumn_picks_last cols (colName context : string) :
  (∀ k col, cols !! k = Some col → visible_match colName col →
     (∀ k' col', k < k' → cols !! k' = Some col' →
                 ¬ visible_match colName col') →
     pickUsingColumn cols colName context = Done (inl (Z.of_nat k, Typ col))) ∧
  (pickUsingColumn cols colName context
     = Done (inr (ErrUsingMissing colName context)) ↔
   ∀ col, col ∈ cols → ¬ visible_match colName col) ∧
  (∀ pn, pickUsingColumn cols colName context ≠ Panicked pn).
Proof using invalidColIdx_neg.
  destruct (pickUsingColumn_cases invalidColIdx_neg cols colName context)
    as [[Hrun Hnone]|(k0 & col0 & Hrun & Hk0 & Hvis0 & Hlast0)].
  - split_and!.
    + intros k col Hk Hvis _. exfalso. apply (Hnone col); [|done].
      by eapply list_elem_of_lookup_2.
    + done.
    + intros pn. by rewrite Hrun.
  - split_and!.
    + intros k col Hk Hvis Hlast.
      destruct (Nat.lt_trichotomy k k0) as [Hlt|[->|Hgt]].
      * exfalso. by apply (Hlast k0 col0).
      * rewrite Hrun. congruence.
      * exfalso. by apply (Hlast0 k col).
    + rewrite Hrun. split; [done|]. intros Hnone. exfalso.
      apply (Hnone col0); [|done]. by eapply list_elem_of_lookup_2.
    + intros pn. by rewrite Hrun.
Qed.

(** X8: with two name lists of one length that is greater than the number
    of columns of the two tables together, makeEqualityPredicate panics in
    make, its capacity being negative, before it has resolved any name; so
    does makeUsingPredicate when no name is repeated. Neither returns the
    error of a column that does not exist. *)
Theorem too_many_names_panic (ctx : EvalContext) left right
    leftColNames rightColNames :
  length leftColNames = length rightColNames →
  length (sourceColumns left) + length (sourceColumns right)
    < length leftColNames →
  makeEqualityPredicate ctx left right leftColNames rightColNames
    = Panicked PanicMakeSlice ∧
  (NoDup (Normalize <$> leftColNames) →
   makeUsingPredicate ctx left right leftColNames = Panicked PanicMakeSlice).
Proof.
  clear invalidColIdx_neg. intros Hlen Hmany.
  assert (∀ names, length names = length leftColNames →
            makeEqualityPredicate ctx left right leftColNames names
              = Panicked PanicMakeSlice) as Hpanic.
  { intros names Hnames. unfold makeEqualityPredicate, equalityPlan_build.
    rewrite decide_False by (intros Hne; apply Hne; lia).
    cbv zeta. unfold ResultColumns in *.
    rewrite (make_cap_neg (A := ResultColumn)) by lia. done. }
  split; [by apply Hpanic|].
  intros Hnodup. unfold makeUsingPredicate.
  assert (seenNames_loop leftColNames ∅ = None) as ->.
  { apply seenNames_loop_None. split; [done|]. intros x _. set_solver. }
  by apply Hpanic.
Qed.

(** The error of the first loop is the fault of the first pair that has
    one. *)
Lemma using_loop_first_fault left right leftColNames rightColNames :
  length rightColNames = length leftColNames →
  ∀ (k i : nat) s (err : error),
  using_inv left right leftColNames rightColNames i s →
  i + k = length leftColNames →
  using_loop left right leftColNames rightColNames (seq i k) s
    = Done (inr err) →
  ∃ m, i ≤ m < length leftColNames ∧
       pair_fault left right leftColNames rightColNames m err ∧
       ∀ j, j < m →
         ∃ li ri fn, pair_resolved left right leftColNames rightColNames j li ri fn.
Proof using invalidColIdx_neg.
  intros Hlen k. induction k as [|k IH]; intros i s err Hinv Hik Hrun; [done|].
  cbn [seq using_loop] in Hrun.
  destruct (using_step_cases invalidColIdx_neg left right leftColNames
              rightColNames i s Hlen Hinv)
    as [(err' & Hfault & Hstep)|(s' & Hstep & Hinv')]; [lia| |];
    rewrite Hstep in Hrun; cbn [mbind outcome_bind] in Hrun.
  - injection Hrun as <-. exists i. split_and!; [lia..|done|].
    intros j Hj.
    destruct (inv_resolved _ _ _ _ _ _ Hinv j Hj) as (li & ri & fn & Hr & _).
    by exists li, ri, fn.
  - destruct (IH (S i) s' err Hinv' ltac:(lia) Hrun) as (m & Hm & Hfault & Hbefore).
    exists m. split_and!; [lia..|done|done].
Qed.

(** A pair has one fault at most. *)
Lemma pair_fault_unique left right leftColNames rightColNames (i : nat)
    (err err' : error) :
  pair_fault left right leftColNames rightColNames i err →
  pair_fault left right leftColNames rightColNames i err' → err = err'.
Proof using invalidColIdx_neg.
  intros (ln & rn & Hln & Hrn & H1) (ln' & rn' & Hln' & Hrn' & H2).
  assert (ln' = ln) as -> by congruence.
  assert (rn' = rn) as -> by congruence.
  assert (∀ cols0 name context li lty,
            pickUsingColumn cols0 name context = Done (inl (li, lty)) →
            (∀ col, col ∈ cols0 → ¬ visible_match name col) → False) as Hpick.
  { intros cols0 name context li lty Hp Hnone.
    apply (pickUsingColumn_found invalidColIdx_neg) in Hp
      as (col & [_ Hcol]%lookupZ_Some & Hvis & _).
    apply (Hnone col); [|done]. by eapply list_elem_of_lookup_2. }
  destruct H1 as [[Hn1 ->]|[((c1 & Hc1 & Hv1) & Hr1 & ->)
                           |(li & lty & ri & rty & Hl1 & Hr1 & Hf1 & ->)]];
  destruct H2 as [[Hn2 ->]|[((c2 & Hc2 & Hv2) & Hr2 & ->)
                           |(li' & lty' & ri' & rty' & Hl2 & Hr2 & Hf2 & ->)]];
    try done.
  - exfalso. by apply (Hn1 c2).
  - exfalso. apply (Hpick _ _ _ _ _ Hl2 Hn1).
  - exfalso. by apply (Hn2 c1).
  - exfalso. apply (Hpick _ _ _ _ _ Hr2 Hr1).
  - exfalso. apply (Hpick _ _ _ _ _ Hl1 Hn2).
  - exfalso. apply (Hpick _ _ _ _ _ Hr1 Hr2).
  - congruence.
Qed.

(** An error of the body comes from its first loop. *)
Lemma equalityPlan_build_error (ctx : EvalContext) left right
    leftColNames rightColNames (err : error) :
  equalityPlan_build ctx left right leftColNames rightColNames
    = Done (inr err) →
  length rightColNames = length leftColNames ∧
  using_loop left right leftColNames rightColNames
    (seq 0 (length leftColNames))
    {| cmpOps := replicate (length leftColNames) None;
       usingLeft := replicate (length leftColNames) 0%Z;
       usingRight := replicate (length rightColNames) 0%Z;
       usedLeft := replicate (length (sourceColumns left)) invalidColIdx;
       usedRight := replicate (length (sourceColumns right)) invalidColIdx;
       columns := [] |} = Done (inr err).
Proof.
  unfold equalityPlan_build. intros Hrun.
  destruct (decide (length leftColNames ≠ length rightColNames)) as [|Hlen];
    [done|].
  apply dec_stable in Hlen. symmetry in Hlen. split; [done|].
  bind_head Hrun Hcap0. apply make_cap_inv in Hcap0 as ->.
  bind_head Hrun Hloop.
  destruct a as [s|err0]; [|congruence].
  exfalso.
  bind_head Hrun Hcap1.
  bind_head Hrun HrunL. destruct a0 as [[leftRest usedL] cols1].
  bind_head Hrun Hcap2.
  bind_head Hrun HrunR. destruct a1 as [[rightRest usedR] cols2].
  bind_head Hrun Ha1. bind_head Hrun Ha2. discriminate Hrun.
Qed.

(** X9: with name lists of one length, not longer than the two schemas
    together, makeEqualityPredicate returns the error [err] exactly when
    [err] is the fault of the first pair, in the order of the lists, that
    has a fault: the pairs before it all resolve, and a fault of a later
    pair is never the one reported. *)
Theorem makeEqualityPredicate_reports_first_fault (ctx : EvalContext)
    left right leftColNames rightColNames (err : error) :
  length leftColNames = length rightColNames →
  length leftColNames
    ≤ length (sourceColumns left) + length (sourceColumns right) →
  makeEqualityPredicate ctx left right leftColNames rightColNames
    = Done (None, None, Some err) ↔
  ∃ m, pair_fault left right leftColNames rightColNames m err ∧
       ∀ j, j < m →
         ∃ li ri fn, pair_resolved left right leftColNames rightColNames j li ri fn.
Proof using invalidColIdx_neg.
  intros Hlen Hcap.
  pose proof (using_inv_init left right leftColNames rightColNames
                (eq_sym Hlen)) as Hinit.
  split.
  - unfold makeEqualityPredicate. intros Hrun.
    destruct (equalityPlan_build _ _ _ _ _) as [[pl|err0]|] eqn:Hbuild;
      cbn [mbind outcome_bind] in Hrun; [done| |done].
    injection Hrun as ->.
    apply equalityPlan_build_error in Hbuild as [_ Hloop].
    destruct (using_loop_first_fault left right leftColNames rightColNames
                (eq_sym Hlen) (length leftColNames) 0 _ err Hinit eq_refl Hloop)
      as (m & _ & Hfault & Hbefore).
    by exists m.
  - intros (m & Hfault & Hbefore).
    unfold makeEqualityPredicate, equalityPlan_build.
    rewrite decide_False by (intros Hne; by apply Hne).
    cbv zeta. unfold ResultColumns in *.
    rewrite (make_cap_Done (A := ResultColumn)) by lia.
    cbn [mbind outcome_bind].
    destruct (using_loop_cases invalidColIdx_neg left right leftColNames
                rightColNames (eq_sym Hlen) (length leftColNames) 0 _ Hinit)
      as [(m' & err' & _ & _ & Hloop)|(s & _ & Hinv)]; [done| |].
    + rewrite Hloop. cbn [mbind outcome_bind].
      destruct (using_loop_first_fault left right leftColNames rightColNames
                  (eq_sym Hlen) (length leftColNames) 0 _ err' Hinit eq_refl
                  Hloop) as (m1 & _ & Hfault1 & Hbefore1).
      destruct (Nat.lt_trichotomy m m1) as [Hlt|[->|Hgt]].
      * exfalso. destruct (Hbefore1 m Hlt) as (li & ri & fn & Hres).
        eapply (pair_fault_not_resolved invalidColIdx_neg);
          [exact Hfault|exact Hres].
      * by rewrite (pair_fault_unique _ _ _ _ _ _ _ Hfault Hfault1).
      * exfalso. destruct (Hbefore m1 Hgt) as (li & ri & fn & Hres).
        eapply (pair_fault_not_resolved invalidColIdx_neg);
          [exact Hfault1|exact Hres].
    + exfalso. destruct Hfault as (ln & rn & Hln & Hrn & Hf).
      destruct (inv_resolved _ _ _ _ _ _ Hinv m) as (li & ri & fn & Hres & _).
      { by apply lookup_lt_Some in Hln. }
      eapply (pair_fault_not_resolved invalidColIdx_neg); [|done].
      by exists ln, rn.
Qed.

(** A run of the body that builds a plan has passed its three calls of
    make. *)
Lemma equalityPlan_build_caps (ctx : EvalContext) left right
    leftColNames rightColNames (pl : equalityPlan) :
  equalityPlan_build ctx left right leftColNames rightColNames = Done (inl pl) →
  length leftColNames
    ≤ length (sourceColumns left) + length (sourceColumns right) ∧
  0 < length (sourceColumns left) ∧ 0 < length (sourceColumns right).
Proof.
  clear invalidColIdx_neg.
  unfold equalityPlan_build. intros Hrun.
  destruct (decide (length leftColNames ≠ length rightColNames)) as [|Hlen];
    [done|].
  bind_head Hrun Hcap0. apply make_cap_nonneg in Hcap0.
  bind_head Hrun Hloop. destruct a0 as [s|err0]; [|done].
  bind_head Hrun Hcap1. apply make_cap_nonneg in Hcap1.
  bind_head Hrun HrunL. destruct a1 as [[leftRest usedL] cols1].
  bind_head Hrun Hcap2. apply make_cap_nonneg in Hcap2.
  unfold ResultColumns in *. lia.
Qed.

(** The ranges that remap_aliases has remapped lie within the slice it
    reads. *)
Lemma remap_aliases_in_range (used : list Z)
    (src aliases m' : gmap string (list Z)) :
  remap_aliases used src aliases = Done m' →
  ∀ alias colRange, src !! alias = Some colRange →
    Forall (λ c, (0 ≤ c < Z.of_nat (length used))%Z) colRange.
Proof.
  clear invalidColIdx_neg.
  intros Hrun alias colRange Halias.
  destruct (remap_aliases_spec used src aliases m' Hrun alias) as [_ Hsome].
  destruct (Hsome colRange Halias) as [newRange Hnew%mapM_Some].
  apply Forall_lookup. intros k c Hk.
  destruct (Forall2_lookup_l _ _ _ _ _ Hnew Hk) as (u & _ & [Hc Hu]%lookupZ_Some).
  apply lookup_lt_Some in Hu. lia.
Qed.

(** X10: makeEqualityPredicate returns a predicate exactly when the two
    name lists have one length, not greater than the number of columns of
    the two tables together, each table has a column at least, every pair
    of names resolves to two columns whose types have an equality function,
    and the column ranges of the aliases of each table lie within its
    columns. In particular a table without columns makes it fail even when
    no name is given. *)
Theorem makeEqualityPredicate_succeeds_iff (ctx : EvalContext) left right
    leftColNames rightColNames :
  (∃ jp info,
     makeEqualityPredicate ctx left right leftColNames rightColNames
       = Done (Some jp, Some info, None)) ↔
  length leftColNames = length rightColNames ∧
  length leftColNames
    ≤ length (sourceColumns left) + length (sourceColumns right) ∧
  0 < length (sourceColumns left) ∧ 0 < length (sourceColumns right) ∧
  (∀ k, k < length leftColNames →
     ∃ li ri fn, pair_resolved left right leftColNames rightColNames k li ri fn) ∧
  (∀ alias colRange, sourceAliases left !! alias = Some colRange →
     Forall (λ c, (0 ≤ c < Z.of_nat (length (sourceColumns left)))%Z) colRange) ∧
  (∀ alias colRange, sourceAliases right !! alias = Some colRange →
     Forall (λ c, (0 ≤ c < Z.of_nat (length (sourceColumns right)))%Z) colRange).
Proof using invalidColIdx_neg.
  split.
  - intros (jp & info & Hrun).
    apply makeEqualityPredicate_success in Hrun as (pl & Hbuild & _ & _).
    destruct (equalityPlan_build_caps _ _ _ _ _ _ Hbuild) as (Hcap & HL & HR).
    destruct (equalityPlan_build_inv invalidColIdx_neg _ _ _ _ _ _ Hbuild)
      as (s & colsL & colsR & aliases1 & Hlen & Hinv & _ & _ & _ & _ & HlenL
          & HlenR & _ & _ & _ & _ & Ha1 & Ha2).
    split_and!; [done..| | |].
    + intros k Hk.
      destruct (inv_resolved _ _ _ _ _ _ Hinv k Hk) as (li & ri & fn & Hres & _).
      by exists li, ri, fn.
    + intros alias colRange Halias. rewrite <- HlenL.
      by apply (remap_aliases_in_range _ _ _ _ Ha1 alias).
    + intros alias colRange Halias. rewrite <- HlenR.
      by apply (remap_aliases_in_range _ _ _ _ Ha2 alias).
  - intros (Hlen & Hcap & HL & HR & Hres & HaL & HaR).
    by apply (makeEqualityPredicate_succeeds invalidColIdx_neg).
Qed.

(** ** What a constructed predicate does with rows *)

(** The values at positions that lie within a row. *)
Lemma lookups_exist {A : Type} (row : list A) (idxs : list Z) (n : nat) :
  length row = n →
  Forall (λ c, (0 ≤ c < Z.of_nat n)%Z) idxs →
  ∃ vs, Forall2 (λ j v, lookupZ row j = Some v) idxs vs.
Proof.
  clear invalidColIdx_neg. intros <-.
  induction 1 as [|c idxs Hc _ [vs IH]]; [by exists []|].
  destruct (lookup_lt_is_Some_2 row (Z.to_nat c)) as [v Hv]; [lia|].
  exists (v :: vs). constructor; [|done].
  apply lookupZ_Some. split; [lia|done].
Qed.

Lemma rest_positions_in_range (usingIdx : list Z) (n : nat) :
  Forall (λ c, (0 ≤ c < Z.of_nat n)%Z) (rest_positions usingIdx n).
Proof.
  clear invalidColIdx_neg.
  unfold rest_positions. apply Forall_fmap, Forall_forall.
  intros j [_ Hj%elem_of_seq]%list_elem_of_filter. cbn. lia.
Qed.

(** When the first loop is over, the positions it has stored lie within the
    two schemas and every comparison function is set. *)
Lemma using_inv_in_range left right leftColNames rightColNames s :
  using_inv left right leftColNames rightColNames (length leftColNames) s →
  Forall (λ c, (0 ≤ c < Z.of_nat (length (sourceColumns left)))%Z)
         (usingLeft s) ∧
  Forall (λ c, (0 ≤ c < Z.of_nat (length (sourceColumns right)))%Z)
         (usingRight s) ∧
  (∀ k, k < length leftColNames → ∃ fn, cmpOps s !! k = Some (Some fn)).
Proof using invalidColIdx_neg.
  intros Hinv.
  assert (∀ k, k < length leftColNames →
            ∃ li ri fn,
              usingLeft s !! k = Some li ∧ usingRight s !! k = Some ri ∧
              cmpOps s !! k = Some (Some fn) ∧
              (0 ≤ li < Z.of_nat (length (sourceColumns left)))%Z ∧
              (0 ≤ ri < Z.of_nat (length (sourceColumns right)))%Z) as Hall.
  { intros k Hk.
    destruct (inv_resolved _ _ _ _ _ _ Hinv k Hk)
      as (li & ri & fn & (ln & rn & lty & rty & _ & _ & Hpl & Hpr & _)
          & HuL & HuR & Hcmp).
    apply (pickUsingColumn_found invalidColIdx_neg) in Hpl
      as (colL & [HliL HcL%lookup_lt_Some]%lookupZ_Some & _).
    apply (pickUsingColumn_found invalidColIdx_neg) in Hpr
      as (colR & [HriR HcR%lookup_lt_Some]%lookupZ_Some & _).
    exists li, ri, fn. unfold ResultColumns in *.
    repeat split; (done || lia). }
  split_and!.
  - apply Forall_lookup. intros k li Hk.
    destruct (Hall k) as (li' & _ & _ & HuL & _ & _ & Hr & _).
    { apply lookup_lt_Some in Hk. by rewrite (inv_usingLeft_len _ _ _ _ _ _ Hinv) in Hk. }
    congruence.
  - apply Forall_lookup. intros k ri Hk.
    destruct (Hall k) as (_ & ri' & _ & _ & HuR & _ & _ & Hr).
    { apply lookup_lt_Some in Hk. by rewrite (inv_usingRight_len _ _ _ _ _ _ Hinv) in Hk. }
    congruence.
  - intros k Hk. destruct (Hall k Hk) as (_ & _ & fn & _ & _ & Hcmp & _).
    by exists fn.
Qed.

(** eval returns when every pair reads within the rows and has its
    comparison function. *)
Lemma eval_loop_Done (p : equalityPredicate) (st : buffers) (idxs : list nat) :
  (∀ i, i ∈ idxs →
     ∃ lv rv fn, pair_values p st i = Some (lv, rv) ∧
                 usingCmp p !! i = Some (Some fn)) →
  ∃ r, eval_loop p idxs st = (Done r, st).
Proof.
  clear invalidColIdx_neg.
  induction idxs as [|i idxs IH]; intros Hall; [by exists (true, None)|].
  destruct (Hall i) as (lv & rv & fn & Hv & Hfn); [apply elem_of_cons; by left|].
  destruct (decide (lv = DNull ∨ rv = DNull)) as [Hnull|Hnn].
  { rewrite (eval_loop_null p i idxs st); [by eexists|]. by exists lv, rv. }
  rewrite (eval_loop_compares p i idxs st (fn (evalCtx p) lv rv)).
  - destruct (fn (evalCtx p) lv rv) as [[] [err|]]; try by eexists.
    apply IH. intros i' Hi'. apply Hall. apply elem_of_cons. by right.
  - exists lv, rv, fn. split_and!; [done| | |done..].
    + intros ->. apply Hnn. by left.
    + intros ->. apply Hnn. by right.
Qed.

(** encode returns when the columns it reads lie within the row. *)
Lemma encode_loop_Done (row : DTuple) (cols : list Z) (n : nat) :
  length row = n →
  Forall (λ c, (0 ≤ c < Z.of_nat n)%Z) cols →
  ∀ (b : list byte) (containsNull : bool),
  ∃ r, encode_loop b containsNull row cols = Done r.
Proof.
  clear invalidColIdx_neg. intros <-.
  induction 1 as [|c cols Hc _ IH]; intros b cn; [by eexists|].
  destruct (lookup_lt_is_Some_2 row (Z.to_nat c)) as [v Hv]; [lia|].
  assert (lookupZ row c = Some v) as Hlook by (apply lookupZ_Some; split; [lia|done]).
  cbn [encode_loop]. rewrite !index_lookupZ, Hlook. cbn [mbind outcome_bind].
  destruct (EncodeDatum b v) as [b' [err|]]; [by eexists|]. apply IH.
Qed.

(** The shape of a plan: the index lists of its predicate lie within the
    two schemas, the comparison functions are set, and the merged schema is
    as wide as the three index lists are long. *)
Lemma plan_shape (ctx : EvalContext) left right (names rnames : list string)
    (pl : equalityPlan) :
  equalityPlan_build ctx left right names rnames = Done (inl pl) →
  leftColNames (plan_pred pl) = names ∧
  length (leftUsingIndices (plan_pred pl)) = length names ∧
  length (rightUsingIndices (plan_pred pl)) = length names ∧
  Forall (λ c, (0 ≤ c < Z.of_nat (length (sourceColumns left)))%Z)
         (leftUsingIndices (plan_pred pl)) ∧
  Forall (λ c, (0 ≤ c < Z.of_nat (length (sourceColumns right)))%Z)
         (rightUsingIndices (plan_pred pl)) ∧
  Forall (λ c, (0 ≤ c < Z.of_nat (length (sourceColumns left)))%Z)
         (leftRestIndices (plan_pred pl)) ∧
  Forall (λ c, (0 ≤ c < Z.of_nat (length (sourceColumns right)))%Z)
         (rightRestIndices (plan_pred pl)) ∧
  (∀ k, k < length names →
     ∃ fn, usingCmp (plan_pred pl) !! k = Some (Some fn)) ∧
  length (sourceColumns (plan_info pl))
    = length names + length (leftRestIndices (plan_pred pl))
      + length (rightRestIndices (plan_pred pl)).
Proof using invalidColIdx_neg.
  intros Hbuild.
  destruct (equalityPlan_build_inv invalidColIdx_neg _ _ _ _ _ _ Hbuild)
    as (s & colsL & colsR & aliases1 & Hlen & Hinv & -> & Hcols & HcolsL
        & HcolsR & _).
  cbn [leftColNames leftUsingIndices rightUsingIndices
       leftRestIndices rightRestIndices usingCmp].
  destruct (using_inv_in_range _ _ _ _ _ Hinv) as (HrL & HrR & Hcmp).
  destruct (using_inv_columns _ _ _ _ _ Hinv) as [_ Hn].
  destruct (rest_positions_columns _ _ _ HcolsL) as [_ HnL].
  destruct (rest_positions_columns _ _ _ HcolsR) as [_ HnR].
  split_and!; try done.
  - by apply (inv_usingLeft_len _ _ _ _ _ _ Hinv).
  - by apply (inv_usingRight_len _ _ _ _ _ _ Hinv).
  - apply rest_positions_in_range.
  - apply rest_positions_in_range.
  - rewrite Hcols, !length_app. unfold ResultColumns in *. lia.
Qed.

(** X11: a predicate that makeEqualityPredicate has returned never panics
    on rows as wide as the two schemas it was made for: eval returns, and
    writes nothing; prepareRow, given a buffer as wide as the merged schema,
    returns and keeps that width; encode returns for the left row with
    leftSide and for the right row with rightSide. *)
Theorem constructed_predicate_runs (ctx : EvalContext) left right
    leftColNames rightColNames (jp : joinPredicate) (info : dataSourceInfo)
    (st : buffers) (b : list byte) :
  makeEqualityPredicate ctx left right leftColNames rightColNames
    = Done (Some jp, Some info, None) →
  length (leftRow st) = length (sourceColumns left) →
  length (rightRow st) = length (sourceColumns right) →
  (∃ r, eval jp st = (Done r, st)) ∧
  (length (result st) = length (sourceColumns info) →
   ∃ out, prepareRow jp st =
            (Done (), {| result := out; leftRow := leftRow st;
                         rightRow := rightRow st |}) ∧
          length out = length (sourceColumns info)) ∧
  (∃ r, encode jp b (leftRow st) leftSide = Done r) ∧
  (∃ r, encode jp b (rightRow st) rightSide = Done r).
Proof using invalidColIdx_neg.
  intros Hrun HwL HwR.
  apply makeEqualityPredicate_success in Hrun as (pl & Hbuild & -> & ->).
  destruct (plan_shape _ _ _ _ _ _ Hbuild)
    as (Hnames & HnL & HnR & HuL & HuR & HrL & HrR & Hcmp & Hwidth).
  destruct (lookups_exist _ _ _ HwL HuL) as [lvs Hlvs].
  destruct (lookups_exist _ _ _ HwR HuR) as [rvs Hrvs].
  destruct (lookups_exist _ _ _ HwL HrL) as [lrest Hlrest].
  destruct (lookups_exist _ _ _ HwR HrR) as [rrest Hrrest].
  pose proof (Forall2_length _ _ _ Hlvs) as Hl1.
  pose proof (Forall2_length _ _ _ Hrvs) as Hl2.
  pose proof (Forall2_length _ _ _ Hlrest) as Hl3.
  pose proof (Forall2_length _ _ _ Hrrest) as Hl4.
  split_and!.
  - cbn [eval]. unfold equalityPredicate_eval. rewrite Hnames.
    apply eval_loop_Done. intros i Hi%elem_of_seq.
    destruct (Hcmp i) as [fn Hfn]; [lia|].
    destruct (lookup_lt_is_Some_2 (leftUsingIndices (plan_pred pl)) i)
      as [li Hli]; [lia|].
    destruct (lookup_lt_is_Some_2 (rightUsingIndices (plan_pred pl)) i)
      as [ri Hri]; [lia|].
    destruct (Forall2_lookup_l _ _ _ _ _ Hlvs Hli) as (lv & _ & Hlv).
    destruct (Forall2_lookup_l _ _ _ _ _ Hrvs Hri) as (rv & _ & Hrv).
    exists lv, rv, fn. split; [|done].
    apply pair_values_Some. by exists li, ri.
  - intros Hres. destruct st as [res l r]. cbn [result leftRow rightRow] in *.
    exists (zip_with coalesce lvs rvs ++ lrest ++ rrest). split.
    + cbn [prepareRow].
      apply (prepareRow_run _ res l r lvs rvs lrest rrest); try done; lia.
    + rewrite !length_app, length_zip_with. lia.
  - cbn [encode]. unfold equalityPredicate_encode.
    rewrite decide_False by done. rewrite decide_True by done.
    cbn [mbind outcome_bind]. by apply (encode_loop_Done _ _ _ HwL).
  - cbn [encode]. unfold equalityPredicate_encode.
    rewrite decide_True by done.
    cbn [mbind outcome_bind]. by apply (encode_loop_Done _ _ _ HwR).
Qed.

(** X12: construction and prepareRow agree on where a column goes. For a
    plan that makeEqualityPredicate has built, and rows as wide as the two
    schemas, prepareRow fills the merged row so that the position recorded
    for a source column (the one its aliases are remapped to) holds the
    value of that column: always for a column outside the USING pairs, and
    for a left USING column when its value is not null. The position of a
    right USING column holds COALESCE of the left value of its pair and the
    right value. *)
Theorem prepareRow_places_columns (ctx : EvalContext) left right
    leftColNames rightColNames (pl : equalityPlan) (res l r : DTuple) :
  equalityPlan_build ctx left right leftColNames rightColNames = Done (inl pl) →
  length l = length (sourceColumns left) →
  length r = length (sourceColumns right) →
  length res = length (sourceColumns (plan_info pl)) →
  ∃ out,
    equalityPredicate_prepareRow (plan_pred pl)
      {| result := res; leftRow := l; rightRow := r |}
    = (Done (), {| result := out; leftRow := l; rightRow := r |}) ∧
    (∀ j v, l !! j = Some v →
       v ≠ DNull ∨ Z.of_nat j ∉ leftUsingIndices (plan_pred pl) →
       ∃ m, plan_usedLeft pl !! j = Some (Z.of_nat m) ∧ out !! m = Some v) ∧
    (∀ j v, r !! j = Some v →
       Z.of_nat j ∉ rightUsingIndices (plan_pred pl) →
       ∃ m, plan_usedRight pl !! j = Some (Z.of_nat m) ∧ out !! m = Some v) ∧
    (∀ j v, r !! j = Some v →
       Z.of_nat j ∈ rightUsingIndices (plan_pred pl) →
       ∃ m li lv,
         plan_usedRight pl !! j = Some (Z.of_nat m) ∧
         leftUsingIndices (plan_pred pl) !! m = Some li ∧
         lookupZ l li = Some lv ∧
         out !! m = Some (coalesce lv v)).
Proof using invalidColIdx_neg.
  intros Hbuild HwL HwR Hres.
  destruct (plan_shape _ _ _ _ _ _ Hbuild)
    as (_ & HnL & HnR & HuL & HuR & HrL & HrR & _ & Hwidth).
  destruct (equalityPlan_build_inv invalidColIdx_neg _ _ _ _ _ _ Hbuild)
    as (s & colsL & colsR & aliases1 & Hlen & Hinv & Hpred & Hcols & HcolsL
        & HcolsR & HlenUL & HlenUR & HkeepL & HnewL & HkeepR & HnewR & _).
  rewrite Hpred in *.
  cbn [leftUsingIndices rightUsingIndices leftRestIndices rightRestIndices]
    in *.
  destruct (lookups_exist _ _ _ HwL HuL) as [lvs Hlvs].
  destruct (lookups_exist _ _ _ HwR HuR) as [rvs Hrvs].
  destruct (lookups_exist _ _ _ HwL HrL) as [lrest Hlrest].
  destruct (lookups_exist _ _ _ HwR HrR) as [rrest Hrrest].
  pose proof (Forall2_length _ _ _ Hlvs) as Hl1.
  pose proof (Forall2_length _ _ _ Hrvs) as Hl2.
  pose proof (Forall2_length _ _ _ Hlrest) as Hl3.
  pose proof (Forall2_length _ _ _ Hrrest) as Hl4.
  destruct (using_inv_columns _ _ _ _ _ Hinv) as [_ Hn].
  destruct (rest_positions_columns _ _ _ HcolsL) as [_ HnrL].
  pose proof (inv_usedLeft _ _ _ _ _ _ Hinv) as HokL.
  pose proof (inv_usedRight _ _ _ _ _ _ Hinv) as HokR.
  rewrite <- HnL in HokL. rewrite <- HnR in HokR.
  pose proof (side_used_spec invalidColIdx_neg _ _ _ _ (length (columns s))
                HokL (inv_usedLeft_len _ _ _ _ _ _ Hinv) HlenUL HkeepL HnewL)
    as HsideL.
  pose proof (side_used_spec invalidColIdx_neg _ _ _ _
                (length (columns s) + length colsL)
                HokR (inv_usedRight_len _ _ _ _ _ _ Hinv) HlenUR HkeepR HnewR)
    as HsideR.
  assert (length (zip_with coalesce lvs rvs) = length leftColNames) as Hzip.
  { rewrite length_zip_with. lia. }
  unfold ResultColumns, DTuple in *.
  exists (zip_with coalesce lvs rvs ++ lrest ++ rrest). split_and!.
  - apply (prepareRow_run _ res l r lvs rvs lrest rrest); try done;
      cbn [leftUsingIndices rightUsingIndices leftRestIndices
           rightRestIndices]; try done; lia.
  - intros j v Hj Hcase.
    destruct (HsideL j) as [(Hin & m & Hused & Hm)|(Hout & r0 & Hused & Hr0)].
    { apply lookup_lt_Some in Hj. lia. }
    + destruct Hcase as [Hv|Hnot]; [|done].
      exists m. split; [done|].
      destruct (Forall2_lookup_l _ _ _ _ _ Hlvs Hm) as (lv & Hlv & Hlook).
      rewrite lookupZ_nat in Hlook.
      pose proof (eq_trans (eq_sym Hlook) Hj) as [= ->].
      destruct (lookup_lt_is_Some_2 rvs m) as [rv Hrv].
      { apply lookup_lt_Some in Hlv. lia. }
      rewrite lookup_app_l by (apply lookup_lt_Some in Hlv; lia).
      rewrite lookup_zip_with, Hlv, Hrv. cbn.
      unfold coalesce. by rewrite decide_False.
    + exists (length (columns s) + r0). split; [done|].
      destruct (Forall2_lookup_l _ _ _ _ _ Hlrest Hr0) as (v' & Hv' & Hlook).
      rewrite lookupZ_nat in Hlook.
      pose proof (eq_trans (eq_sym Hlook) Hj) as [= ->].
      rewrite lookup_app_r by lia.
      rewrite lookup_app_l by (apply lookup_lt_Some in Hv'; lia).
      rewrite <- Hv'. f_equal. lia.
  - intros j v Hj Hnot.
    destruct (HsideR j) as [(Hin & _)|(_ & r0 & Hused & Hr0)]; [|done|].
    { apply lookup_lt_Some in Hj. lia. }
    exists (length (columns s) + length colsL + r0). split; [done|].
    destruct (Forall2_lookup_l _ _ _ _ _ Hrrest Hr0) as (v' & Hv' & Hlook).
    rewrite lookupZ_nat in Hlook.
      pose proof (eq_trans (eq_sym Hlook) Hj) as [= ->].
    rewrite lookup_app_r by lia. rewrite lookup_app_r by lia.
    rewrite <- Hv'. f_equal. lia.
  - intros j v Hj Hin.
    destruct (HsideR j) as [(_ & m & Hused & Hm)|(Hout & _)]; [| |done].
    { apply lookup_lt_Some in Hj. lia. }
    destruct (Forall2_lookup_l _ _ _ _ _ Hrvs Hm) as (rv & Hrv & Hlook).
    rewrite lookupZ_nat in Hlook.
      pose proof (eq_trans (eq_sym Hlook) Hj) as [= ->].
    destruct (lookup_lt_is_Some_2 (usingLeft s) m) as [li Hli].
    { apply lookup_lt_Some in Hm. lia. }
    destruct (Forall2_lookup_l _ _ _ _ _ Hlvs Hli) as (lv & Hlv & Hlook').
    exists m, li, lv. split_and!; [done..|].
    rewrite lookup_app_l by (apply lookup_lt_Some in Hlv; lia).
    by rewrite lookup_zip_with, Hlv, Hrv.
Qed.

(** ** The empty list of names, and lists without repetition *)

Lemma filter_all {A : Type} (P : A → Prop) `{!∀ x, Decision (P x)}
    (l : list A) :
  Forall P l → filter P l = l.
Proof.
  clear invalidColIdx_neg.
  induction 1 as [|x l Hx _ IH]; [done|].
  by rewrite filter_cons_True, IH.
Qed.

Lemma Forall2_seq_lookup {A : Type} (l l' : list A) :
  Forall2 (λ j x, l !! j = Some x) (seq 0 (length l)) l' → l' = l.
Proof.
  clear invalidColIdx_neg.
  intros Hall. pose proof (Forall2_length _ _ _ Hall) as Hlen.
  rewrite length_seq in Hlen.
  apply list_eq. intros i. destruct (l !! i) as [x|] eqn:Hi.
  - assert (seq 0 (length l) !! i = Some i) as Hseq.
    { apply lookup_seq. split; [done|]. by apply lookup_lt_Some in Hi. }
    destruct (Forall2_lookup_l _ _ _ _ _ Hall Hseq) as (y & Hy & Hly).
    congruence.
  - apply lookup_ge_None in Hi. apply lookup_ge_None. lia.
Qed.

Lemma rest_positions_nil (n : nat) :
  rest_positions [] n = Z.of_nat <$> seq 0 n.
Proof.
  clear invalidColIdx_neg.
  unfold rest_positions. rewrite filter_all; [done|].
  apply Forall_forall. intros j _. apply not_elem_of_nil.
Qed.

Lemma lookups_all {A : Type} (row : list A) :
  Forall2 (λ j v, lookupZ row j = Some v) (Z.of_nat <$> seq 0 (length row)) row.
Proof.
  clear invalidColIdx_neg.
  apply Forall2_fmap_l, Forall2_same_length_lookup_2.
  - by rewrite length_seq.
  - intros i j v [-> _]%lookup_seq Hv. cbn. by rewrite lookupZ_nat.
Qed.

(** X13: with no names at all, the predicate that makeEqualityPredicate
    returns is a cross join: the merged schema is the left columns followed
    by the right columns, eval is true for every pair of rows, and
    prepareRow, on rows and a buffer of the widths of the schemas, writes
    the left row followed by the right row, as the CROSS predicate does. *)
Theorem empty_using_is_cross (ctx : EvalContext) left right
    (jp : joinPredicate) (info : dataSourceInfo) (pc : crossPredicate) :
  makeEqualityPredicate ctx left right [] [] = Done (Some jp, Some info, None) →
  sourceColumns info = sourceColumns left ++ sourceColumns right ∧
  (∀ st, eval jp st = (Done (true, None), st) ∧
         eval jp st = eval (CrossP pc) st) ∧
  (∀ st, length (leftRow st) = length (sourceColumns left) →
         length (rightRow st) = length (sourceColumns right) →
         length (result st) = length (sourceColumns info) →
         prepareRow jp st =
           (Done (), {| result := leftRow st ++ rightRow st;
                        leftRow := leftRow st; rightRow := rightRow st |}) ∧
         prepareRow jp st = prepareRow (CrossP pc) st).
Proof using invalidColIdx_neg.
  intros Hrun.
  apply makeEqualityPredicate_success in Hrun as (pl & Hbuild & -> & ->).
  destruct (equalityPlan_build_inv invalidColIdx_neg _ _ _ _ _ _ Hbuild)
    as (s & colsL & colsR & aliases1 & _ & Hinv & Hpred & Hcols & HcolsL
        & HcolsR & _).
  destruct (using_inv_columns _ _ _ _ _ Hinv) as [_ Hn].
  pose proof (inv_usingLeft_len _ _ _ _ _ _ Hinv) as HnL.
  pose proof (inv_usingRight_len _ _ _ _ _ _ Hinv) as HnR.
  destruct (columns s) as [|? ?]; [clear Hn|done].
  destruct (usingLeft s) as [|? ?]; [clear HnL|done].
  destruct (usingRight s) as [|? ?]; [clear HnR|done].
  rewrite filter_all in HcolsL, HcolsR
    by (apply Forall_forall; intros j _; apply not_elem_of_nil).
  apply Forall2_seq_lookup in HcolsL as ->, HcolsR as ->.
  rewrite !rest_positions_nil in Hpred. cbn [app] in Hcols.
  assert (sourceColumns (plan_info pl)
          = sourceColumns left ++ sourceColumns right) as Hinfo by done.
  split_and!; [done| |].
  - intros st. cbn [eval]. unfold equalityPredicate_eval.
    rewrite Hpred. done.
  - intros [res l r]. cbn [result leftRow rightRow]. intros HwL HwR Hres.
    rewrite Hinfo, length_app in Hres.
    assert (prepareRow (EqualityP (plan_pred pl))
              {| result := res; leftRow := l; rightRow := r |}
            = (Done (), {| result := l ++ r; leftRow := l; rightRow := r |}))
      as Hprep.
    { cbn [prepareRow].
      rewrite (prepareRow_run _ res l r [] [] l r); rewrite ?Hpred;
        cbn [leftUsingIndices rightUsingIndices leftRestIndices
             rightRestIndices length]; try done.
      - rewrite <- HwL. apply lookups_all.
      - rewrite <- HwR. apply lookups_all.
      - unfold ResultColumns, DTuple in *. lia. }
    split; [done|]. rewrite Hprep. cbn [prepareRow].
    unfold crossPredicate_prepareRow.
    rewrite prepareRowConcat_wide
      by (cbn [result leftRow rightRow]; unfold ResultColumns, DTuple in *; lia).
    cbn [result leftRow rightRow].
    rewrite drop_ge by (unfold ResultColumns, DTuple in *; lia).
    by rewrite app_nil_r.
Qed.

(** Positions that no two pairs share leave as many rest positions as
    there are columns less pairs. *)
Lemma rest_positions_count (usingIdx : list Z) (n : nat) :
  NoDup usingIdx →
  Forall (λ c, (0 ≤ c < Z.of_nat n)%Z) usingIdx →
  length (rest_positions usingIdx n) + length usingIdx = n.
Proof.
  clear invalidColIdx_neg.
  intros Hnodup Hrange. unfold rest_positions. rewrite length_fmap.
  pose proof (filter_app_complement (λ j, Z.of_nat j ∈ usingIdx) (seq 0 n))
    as Hsplit.
  apply Permutation_length in Hsplit.
  rewrite length_app, length_seq in Hsplit.
  assert (filter (λ j, Z.of_nat j ∈ usingIdx) (seq 0 n)
          ≡ₚ Z.to_nat <$> usingIdx) as Hused.
  { apply NoDup_Permutation.
    - apply NoDup_filter, NoDup_seq.
    - apply NoDup_fmap_2_strong; [|done].
      intros x y Hx Hy Hxy.
      rewrite Forall_forall in Hrange.
      pose proof (Hrange x Hx). pose proof (Hrange y Hy). lia.
    - intros j. rewrite list_elem_of_filter, elem_of_seq, list_elem_of_fmap.
      rewrite Forall_forall in Hrange. split.
      + intros [Hj _]. exists (Z.of_nat j). split; [lia|done].
      + intros (c & -> & Hc). pose proof (Hrange c Hc).
        rewrite Z2Nat.id by lia. split; [done|lia]. }
  apply Permutation_length in Hused. rewrite length_fmap in Hused.
  rewrite <- Hused, Nat.add_comm. exact Hsplit.
Qed.

(** Names that differ once normalized resolve to columns that differ. *)
Lemma using_inv_NoDup left right colNames s :
  NoDup (Normalize <$> colNames) →
  using_inv left right colNames colNames (length colNames) s →
  NoDup (usingLeft s) ∧ NoDup (usingRight s).
Proof using invalidColIdx_neg.
  intros Hnodup Hinv.
  assert (∀ k li ri,
            usingLeft s !! k = Some li → usingRight s !! k = Some ri →
            ∃ ln colL colR,
              colNames !! k = Some ln ∧
              lookupZ (sourceColumns left) li = Some colL ∧
              ReNormalizeName (Name colL) = Normalize ln ∧
              lookupZ (sourceColumns right) ri = Some colR ∧
              ReNormalizeName (Name colR) = Normalize ln) as Hname.
  { intros k li ri HuL HuR.
    destruct (inv_resolved _ _ _ _ _ _ Hinv k)
      as (li' & ri' & fn & (ln & rn & lty & rty & Hln & Hrn & Hpl & Hpr & _)
          & HuL' & HuR' & _).
    { apply lookup_lt_Some in HuL.
      by rewrite (inv_usingLeft_len _ _ _ _ _ _ Hinv) in HuL. }
    assert (rn = ln) as -> by congruence.
    assert (li' = li) as -> by congruence.
    assert (ri' = ri) as -> by congruence.
    apply (pickUsingColumn_found invalidColIdx_neg) in Hpl
      as (colL & HcL & [_ HvL] & _).
    apply (pickUsingColumn_found invalidColIdx_neg) in Hpr
      as (colR & HcR & [_ HvR] & _).
    by exists ln, colL, colR. }
  assert (∀ k k' ln ln', colNames !! k = Some ln → colNames !! k' = Some ln' →
            Normalize ln = Normalize ln' → k = k') as Hinj.
  { intros k k' ln ln' Hk Hk' Heq.
    apply (NoDup_lookup (Normalize <$> colNames) k k' (Normalize ln)); [done|..].
    - by rewrite list_lookup_fmap, Hk.
    - by rewrite list_lookup_fmap, Hk', Heq. }
  pose proof (inv_usingLeft_len _ _ _ _ _ _ Hinv) as HnL.
  pose proof (inv_usingRight_len _ _ _ _ _ _ Hinv) as HnR.
  split; apply NoDup_alt; intros k k' x Hk Hk'.
  - destruct (lookup_lt_is_Some_2 (usingRight s) k) as [ri Hri].
    { apply lookup_lt_Some in Hk. lia. }
    destruct (lookup_lt_is_Some_2 (usingRight s) k') as [ri' Hri'].
    { apply lookup_lt_Some in Hk'. lia. }
    destruct (Hname k x ri Hk Hri) as (ln & colL & _ & Hln & HcL & HvL & _).
    destruct (Hname k' x ri' Hk' Hri') as (ln' & colL' & _ & Hln' & HcL' & HvL' & _).
    apply (Hinj k k' ln ln' Hln Hln'). congruence.
  - destruct (lookup_lt_is_Some_2 (usingLeft s) k) as [li Hli].
    { apply lookup_lt_Some in Hk. lia. }
    destruct (lookup_lt_is_Some_2 (usingLeft s) k') as [li' Hli'].
    { apply lookup_lt_Some in Hk'. lia. }
    destruct (Hname k li x Hli Hk) as (ln & _ & colR & Hln & _ & _ & HcR & HvR).
    destruct (Hname k' li' x Hli' Hk') as (ln' & _ & colR' & Hln' & _ & _ & HcR' & HvR').
    apply (Hinj k k' ln ln' Hln Hln'). congruence.
Qed.

(** X14: the merged schema that makeUsingPredicate returns has as many
    columns as the two tables together, less one for every name of the
    USING list: each name takes one column of each table, and puts one
    column in their place. *)
Theorem makeUsingPredicate_width (ctx : EvalContext) left right
    (colNames : list string) (jp : joinPredicate) (info : dataSourceInfo) :
  makeUsingPredicate ctx left right colNames
    = Done (Some jp, Some info, None) →
  length (sourceColumns info) + length colNames
    = length (sourceColumns left) + length (sourceColumns right).
Proof using invalidColIdx_neg.
  unfold makeUsingPredicate.
  destruct (seenNames_loop colNames ∅) as [err|] eqn:Hseen; [done|].
  apply seenNames_loop_None in Hseen as [Hnodup _].
  intros Hrun.
  apply makeEqualityPredicate_success in Hrun as (pl & Hbuild & -> & ->).
  destruct (equalityPlan_build_inv invalidColIdx_neg _ _ _ _ _ _ Hbuild)
    as (s & colsL & colsR & aliases1 & _ & Hinv & _ & Hcols & HcolsL
        & HcolsR & _).
  destruct (using_inv_columns _ _ _ _ _ Hinv) as [_ Hn].
  destruct (using_inv_in_range _ _ _ _ _ Hinv) as (HrL & HrR & _).
  destruct (using_inv_NoDup _ _ _ _ Hnodup Hinv) as [HndL HndR].
  destruct (rest_positions_columns _ _ _ HcolsL) as [_ HnrL].
  destruct (rest_positions_columns _ _ _ HcolsR) as [_ HnrR].
  pose proof (rest_positions_count _ _ HndL HrL) as HcL.
  pose proof (rest_positions_count _ _ HndR HrR) as HcR.
  rewrite (inv_usingLeft_len _ _ _ _ _ _ Hinv) in HcL.
  rewrite (inv_usingRight_len _ _ _ _ _ _ Hinv) in HcR.
  rewrite Hcols, !length_app. unfold ResultColumns in *. lia.
Qed.

(** The loop that looks for a repeated name stops at the first name that
    it has seen before. *)
Lemma seenNames_loop_first_repeat (pre : list string) (x : string)
    (post : list string) :
  ∀ seenNames : gset string,
  NoDup (Normalize <$> pre) →
  (∀ y, y ∈ Normalize <$> pre → y ∉ seenNames) →
  Normalize x ∈ Normalize <$> pre ∨ Normalize x ∈ seenNames →
  seenNames_loop (pre ++ x :: post) seenNames
    = Some (ErrUsingTwice (Normalize x)).
Proof.
  clear invalidColIdx_neg.
  induction pre as [|a pre IH]; intros seen Hnodup Hfresh Hx.
  - destruct Hx as [Hx|Hx]; [by apply elem_of_nil in Hx|].
    cbn. by rewrite decide_True.
  - cbn [app seenNames_loop]. rewrite fmap_cons in Hnodup, Hfresh, Hx.
    apply NoDup_cons in Hnodup as [Ha Hnodup].
    rewrite decide_False by (apply Hfresh, elem_of_cons; by left).
    apply IH; [done| |].
    + intros y Hy [->%elem_of_singleton|Hin]%elem_of_union; [done|].
      apply (Hfresh y); [|done]. apply elem_of_cons. by right.
    + destruct Hx as [[->|Hx]%elem_of_cons|Hx].
      * right. apply elem_of_union. left. by apply elem_of_singleton.
      * by left.
      * right. apply elem_of_union. by right.
Qed.

(** X15: when a name of the USING list repeats an earlier one, once both
    are normalized, makeUsingPredicate returns the error for the first such
    name in the order of the list, whatever the two tables are and whatever
    follows in the list. *)
Theorem makeUsingPredicate_first_repeat (ctx : EvalContext) left right
    (pre : list string) (x : string) (post : list string) :
  NoDup (Normalize <$> pre) →
  Normalize x ∈ Normalize <$> pre →
  makeUsingPredicate ctx left right (pre ++ x :: post)
    = Done (None, None, Some (ErrUsingTwice (Normalize x))).
Proof.
  clear invalidColIdx_neg.
  intros Hnodup Hx. unfold makeUsingPredicate.
  rewrite (seenNames_loop_first_repeat pre x post ∅ Hnodup); [done| |by left].
  intros y _. apply not_elem_of_empty.
Qed.

(** ** Hidden columns and comparison functions *)

(** X16: a USING name never takes a hidden column. In the predicate that
    makeEqualityPredicate returns, every hidden column of either table is
    among the rest columns of its side, and the merged columns that stand
    for the pairs, which come first in the merged schema, are all
    visible. *)
Theorem hidden_columns_are_rest (ctx : EvalContext) left right
    leftColNames rightColNames (pl : equalityPlan) :
  equalityPlan_build ctx left right leftColNames rightColNames = Done (inl pl) →
  (∀ j col, sourceColumns left !! j = Some col → hidden col = true →
     (Z.of_nat j ∉ leftUsingIndices (plan_pred pl)) ∧
     Z.of_nat j ∈ leftRestIndices (plan_pred pl)) ∧
  (∀ j col, sourceColumns right !! j = Some col → hidden col = true →
     (Z.of_nat j ∉ rightUsingIndices (plan_pred pl)) ∧
     Z.of_nat j ∈ rightRestIndices (plan_pred pl)) ∧
  (∀ m col, m < length leftColNames →
     sourceColumns (plan_info pl) !! m = Some col → hidden col = false).
Proof using invalidColIdx_neg.
  intros Hbuild.
  destruct (equalityPlan_build_inv invalidColIdx_neg _ _ _ _ _ _ Hbuild)
    as (s & colsL & colsR & aliases1 & _ & Hinv & -> & Hcols & _).
  cbn [leftUsingIndices rightUsingIndices leftRestIndices rightRestIndices].
  assert (∀ k, k < length leftColNames →
            ∃ li ri colL colR,
              usingLeft s !! k = Some li ∧ usingRight s !! k = Some ri ∧
              lookupZ (sourceColumns left) li = Some colL ∧
              lookupZ (sourceColumns right) ri = Some colR ∧
              hidden colL = false ∧ hidden colR = false) as Hvis.
  { intros k Hk.
    destruct (inv_resolved _ _ _ _ _ _ Hinv k Hk)
      as (li & ri & fn & (ln & rn & lty & rty & _ & _ & Hpl & Hpr & _)
          & HuL & HuR & _).
    apply (pickUsingColumn_found invalidColIdx_neg) in Hpl
      as (colL & HcL & [HhL _] & _).
    apply (pickUsingColumn_found invalidColIdx_neg) in Hpr
      as (colR & HcR & [HhR _] & _).
    by exists li, ri, colL, colR. }
  pose proof (inv_usingLeft_len _ _ _ _ _ _ Hinv) as HnL.
  pose proof (inv_usingRight_len _ _ _ _ _ _ Hinv) as HnR.
  assert (∀ (usingIdx : list Z) (n j : nat), j < n →
            Z.of_nat j ∉ usingIdx → Z.of_nat j ∈ rest_positions usingIdx n)
    as Hrest.
  { intros usingIdx n j Hj Hnot. unfold rest_positions.
    apply list_elem_of_fmap_2, list_elem_of_filter. split; [done|].
    apply elem_of_seq. lia. }
  split_and!.
  - intros j col Hj Hhid.
    assert (Z.of_nat j ∉ usingLeft s) as Hnot.
    { intros (k & Hk)%list_elem_of_lookup.
      destruct (Hvis k) as (li & _ & colL & _ & HuL & _ & HcL & _ & HhL & _).
      { apply lookup_lt_Some in Hk. lia. }
      assert (li = Z.of_nat j) as -> by congruence.
      rewrite lookupZ_nat in HcL.
      pose proof (eq_trans (eq_sym HcL) Hj) as [= ->]. congruence. }
    split; [done|]. apply Hrest; [|done]. by apply lookup_lt_Some in Hj.
  - intros j col Hj Hhid.
    assert (Z.of_nat j ∉ usingRight s) as Hnot.
    { intros (k & Hk)%list_elem_of_lookup.
      destruct (Hvis k) as (_ & ri & _ & colR & _ & HuR & _ & HcR & _ & HhR).
      { apply lookup_lt_Some in Hk. lia. }
      assert (ri = Z.of_nat j) as -> by congruence.
      rewrite lookupZ_nat in HcR.
      pose proof (eq_trans (eq_sym HcR) Hj) as [= ->]. congruence. }
    split; [done|]. apply Hrest; [|done]. by apply lookup_lt_Some in Hj.
  - intros m col Hm Hcol.
    destruct (using_inv_columns _ _ _ _ _ Hinv) as [Hfrom Hn].
    unfold ResultColumns in *.
    rewrite Hcols, lookup_app_l in Hcol by lia.
    destruct (Forall2_lookup_r _ _ _ _ _ Hfrom Hcol) as (li & Hli & Hlook).
    destruct (Hvis m Hm) as (li' & _ & colL & _ & HuL & _ & HcL & _ & HhL & _).
    assert (li' = li) as -> by congruence.
    pose proof (eq_trans (eq_sym HcL) Hlook) as [= ->]. done.
Qed.

(** X17: the comparison function that the returned predicate holds for a
    pair is the one that FindEqualComparisonFunction gives for the types of
    the two columns the pair of names resolves to, each a visible column of
    its table with that name, at the position stored for the pair. *)
Theorem comparison_functions_by_type (ctx : EvalContext) left right
    leftColNames rightColNames (jp : joinPredicate) (info : dataSourceInfo)
    (k : nat) (ln rn : string) :
  makeEqualityPredicate ctx left right leftColNames rightColNames
    = Done (Some jp, Some info, None) →
  leftColNames !! k = Some ln → rightColNames !! k = Some rn →
  ∃ p li ri colL colR fn,
    jp = EqualityP p ∧
    leftUsingIndices p !! k = Some li ∧ rightUsingIndices p !! k = Some ri ∧
    lookupZ (sourceColumns left) li = Some colL ∧
    lookupZ (sourceColumns right) ri = Some colR ∧
    visible_match (Normalize ln) colL ∧ visible_match (Normalize rn) colR ∧
    FindEqualComparisonFunction (Typ colL) (Typ colR) = Some fn ∧
    usingCmp p !! k = Some (Some fn).
Proof using invalidColIdx_neg.
  intros Hrun Hln Hrn.
  apply makeEqualityPredicate_success in Hrun as (pl & Hbuild & -> & ->).
  destruct (equalityPlan_build_inv invalidColIdx_neg _ _ _ _ _ _ Hbuild)
    as (s & colsL & colsR & aliases1 & _ & Hinv & -> & _).
  destruct (inv_resolved _ _ _ _ _ _ Hinv k)
    as (li & ri & fn & (ln' & rn' & lty & rty & Hln' & Hrn' & Hpl & Hpr & Hfn)
        & HuL & HuR & Hcmp).
  { by apply lookup_lt_Some in Hln. }
  assert (ln' = ln) as -> by congruence.
  assert (rn' = rn) as -> by congruence.
  apply (pickUsingColumn_found invalidColIdx_neg) in Hpl
    as (colL & HcL & HvL & <-).
  apply (pickUsingColumn_found invalidColIdx_neg) in Hpr
    as (colR & HcR & HvR & <-).
  eexists _, li, ri, colL, colR, fn. split; [done|].
  cbn [leftUsingIndices rightUsingIndices usingCmp]. by split_and!.
Qed.

End MoreConstruction.

(** * The command that queues the builds *)

Section Stress.
Context `{TC : TeamCity}.

Implicit Types (client : Client) (w : world) (builds : list queued).
Implicit Types (params base : gmap string string).

(** Setting the two keys again overwrites what an earlier turn has set. *)
Lemma build_params_again (propEvalKV : bool) params (path path' : string) :
  build_params propEvalKV (build_params propEvalKV params path) path'
  = build_params propEvalKV params path'.
Proof.
  unfold build_params.
  rewrite (insert_insert_ne _ "env.PKG"
             "env.COCKROACH_PROPOSER_EVALUATED_KV") by done.
  by rewrite insert_insert_eq, insert_insert_eq.
Qed.

Lemma queue_list_app client builds1 builds2 w :
  queue_list client (builds1 ++ builds2) w =
  match queue_list client builds1 w with
  | (Some f, w') => (Some f, w')
  | (None, w') => queue_list client builds2 w'
  end.
Proof.
  revert w. induction builds1 as [|[[id br] params] builds1 IH]; intros w;
    [done|].
  cbn [app queue_list].
  destruct (QueueBuild client id br params (server w)) as [[build|err] sv];
    [apply IH|done].
Qed.

(** The innermost loop queues the builds of its configuration, whatever an
    earlier turn has left in the two keys it sets. *)
Lemma queue_packages_list client (buildTypeID branchName : string)
    (propEvalKV : bool) base (importPaths : list string) :
  ∀ params w,
  (∀ path, build_params propEvalKV params path
           = build_params propEvalKV base path) →
  queue_packages client buildTypeID branchName propEvalKV importPaths params w
  = queue_list client
      (builds_of_configuration buildTypeID branchName propEvalKV importPaths
         base) w.
Proof.
  induction importPaths as [|path importPaths IH]; intros params w Hsame;
    [done|].
  cbn [queue_packages builds_of_configuration fmap list_fmap queue_list].
  fold (build_params propEvalKV params path). rewrite Hsame.
  destruct (QueueBuild client buildTypeID branchName
              (build_params propEvalKV base path) (server w))
    as [[build|err] sv]; [|done].
  apply IH. intros path'. apply build_params_again.
Qed.

Lemma queue_configurations_list client (buildTypeID branchName : string)
    (propEvalKV : bool) (importPaths : list string)
    (configs : list (gmap string string)) :
  ∀ w,
  queue_configurations client buildTypeID branchName propEvalKV importPaths
    configs w
  = queue_list client
      (concat (builds_of_configuration buildTypeID branchName propEvalKV
                 importPaths <$> configs)) w.
Proof.
  induction configs as [|base configs IH]; intros w; [done|].
  cbn [queue_configurations fmap list_fmap concat].
  rewrite queue_list_app, (queue_packages_list _ _ _ _ base) by done.
  destruct (queue_list client _ w) as [[f|] w']; [done|]. apply IH.
Qed.

Lemma queue_all_list client (buildTypeID branchName : string)
    (importPaths : list string) (flags : list bool) :
  ∀ w,
  queue_all client buildTypeID branchName importPaths flags w
  = queue_list client
      (concat (builds_of_flag buildTypeID branchName importPaths <$> flags)) w.
Proof.
  induction flags as [|propEvalKV flags IH]; intros w; [done|].
  cbn [queue_all fmap list_fmap concat].
  rewrite queue_list_app, queue_configurations_list.
  fold (builds_of_flag buildTypeID branchName importPaths propEvalKV).
  destruct (queue_list client _ w) as [[f|] w']; [done|]. apply IH.
Qed.

(** What queueing a list of builds logs, and where it stops. *)
Lemma queue_list_log client builds :
  ∀ w (status : option fatal) w',
  queue_list client builds w = (status, w') →
  ∃ (lines : list logLine) (rest : list queued),
    logged w' = logged w ++ lines ∧
    builds = (queued_of <$> lines) ++ rest ∧
    match status with
    | None => rest = []
    | Some (FatalQueue buildTypeID branchName params err) =>
        ∃ rest', rest = (buildTypeID, branchName, params) :: rest' ∧
          ∃ sv, QueueBuild client buildTypeID branchName params sv
                = (inr err, server w')
    | Some _ => False
    end.
Proof.
  induction builds as [|[[id br] params] builds IH]; intros w status w' Hrun.
  - injection Hrun as <- <-. exists [], []. by rewrite app_nil_r.
  - cbn [queue_list] in Hrun.
    destruct (QueueBuild client id br params (server w))
      as [[build|err] sv] eqn:Hcall.
    + destruct (IH _ _ _ Hrun) as (lines & rest & Hlog & Hbuilds & Hstatus).
      cbn [logged] in Hlog.
      exists (Created id br params build :: lines), rest. split_and!.
      * by rewrite Hlog, <- app_assoc.
      * by rewrite Hbuilds.
      * done.
    + injection Hrun as <- <-. exists [], ((id, br, params) :: builds).
      cbn [logged server]. split_and!; [by rewrite app_nil_r|done|].
      exists builds. split; [done|]. by exists (server w).
Qed.

(** X18: main queues nothing unless it is configured. When one of the
    three variables is not set in the environment, or the server address
    does not parse, it ends with a fatal error that is not one of
    QueueBuild, having logged no build and left the server as it was; the
    address is looked at before the user name, and the user name before
    the password. *)
Theorem main_needs_configuration (buildTypeID branchName : string)
    (environ : gmap string string) (sv : Server) :
  environ !! teamcityServerURLEnv = None ∨
  (∃ serverURL err, environ !! teamcityServerURLEnv = Some serverURL ∧
                    Parse serverURL = inr err) ∨
  environ !! teamcityAPIUserEnv = None ∨
  environ !! teamcityAPIPasswordEnv = None →
  ∃ f, main buildTypeID branchName environ sv
         = (Some f, {| server := sv; logged := [] |}) ∧
       f = match environ !! teamcityServerURLEnv with
           | None => FatalEnv teamcityServerURLEnv
           | Some serverURL =>
               match Parse serverURL with
               | inr err => FatalParse err
               | inl _ =>
                   match environ !! teamcityAPIUserEnv with
                   | None => FatalEnv teamcityAPIUserEnv
                   | Some _ => FatalEnv teamcityAPIPasswordEnv
                   end
               end
           end.
Proof.
  intros Hcase. unfold main.
  destruct (environ !! teamcityServerURLEnv) as [serverURL|] eqn:Hurl;
    [|by eexists].
  destruct (Parse serverURL) as [u|err] eqn:Hparse; [|by eexists].
  destruct (environ !! teamcityAPIUserEnv) as [username|] eqn:Huser;
    [|by eexists].
  destruct (environ !! teamcityAPIPasswordEnv) as [password|] eqn:Hpwd;
    [|by eexists].
  exfalso.
  destruct Hcase as [?|[(url' & err & Hurl' & Herr)|[?|?]]]; try done.
  congruence.
Qed.

(** Once configured, main queues the list of all builds. *)
Lemma main_configured (buildTypeID branchName : string)
    (environ : gmap string string) (sv : Server)
    (serverURL : string) (u : URL) (username password : string) :
  environ !! teamcityServerURLEnv = Some serverURL →
  Parse serverURL = inl u →
  environ !! teamcityAPIUserEnv = Some username →
  environ !! teamcityAPIPasswordEnv = Some password →
  main buildTypeID branchName environ sv =
  queue_list (New (Host u) username password)
    (all_builds buildTypeID branchName
       (ImportPaths ["github.com/cockroachdb/cockroach/..."]))
    {| server := sv; logged := [] |}.
Proof.
  intros Hurl Hparse Huser Hpwd. unfold main.
  rewrite Hurl, Hparse, Huser, Hpwd. cbv zeta. apply queue_all_list.
Qed.

(** X19: once the three variables are set and the address parses, main
    queues the builds in one fixed order: for the flag true and then for
    false, for the plain, the race and the deadlock configuration, for each
    package in the order of the import paths. What it has logged when it
    ends is a prefix of that list: the whole list when it ends normally,
    and otherwise the builds before the one that QueueBuild refused, after
    which it queues nothing more. *)
Theorem main_queues_in_order (buildTypeID branchName : string)
    (environ : gmap string string) (sv : Server)
    (serverURL : string) (u : URL) (username password : string)
    (status : option fatal) (w : world) :
  environ !! teamcityServerURLEnv = Some serverURL →
  Parse serverURL = inl u →
  environ !! teamcityAPIUserEnv = Some username →
  environ !! teamcityAPIPasswordEnv = Some password →
  main buildTypeID branchName environ sv = (status, w) →
  ∃ rest,
    all_builds buildTypeID branchName
      (ImportPaths ["github.com/cockroachdb/cockroach/..."])
    = (queued_of <$> logged w) ++ rest ∧
    match status with
    | None => rest = []
    | Some (FatalQueue buildTypeID' branchName' params err) =>
        ∃ rest', rest = (buildTypeID', branchName', params) :: rest' ∧
          ∃ sv', QueueBuild (New (Host u) username password)
                   buildTypeID' branchName' params sv'
                 = (inr err, server w)
    | Some _ => False
    end.
Proof.
  intros Hurl Hparse Huser Hpwd.
  rewrite (main_configured _ _ _ _ _ _ _ _ Hurl Hparse Huser Hpwd).
  intros Hrun.
  destruct (queue_list_log _ _ _ _ _ Hrun)
    as (lines & rest & Hlog & Hbuilds & Hstatus).
  cbn [logged app] in Hlog. rewrite Hlog. by exists rest.
Qed.

Lemma elem_of_concat {A : Type} (x : A) (ls : list (list A)) :
  x ∈ concat ls → ∃ l, x ∈ l ∧ l ∈ ls.
Proof.
  induction ls as [|l ls IH]; cbn [concat].
  - by intros ?%elem_of_nil.
  - intros [Hx|Hx]%elem_of_app.
    + exists l. split; [done|]. apply elem_of_cons. by left.
    + destruct (IH Hx) as (l' & Hl' & Hin). exists l'. split; [done|].
      apply elem_of_cons. by right.
Qed.

(** The builds of the list, one by one. *)
Lemma all_builds_elem (buildTypeID branchName : string)
    (importPaths : list string) (q : queued) :
  q ∈ all_builds buildTypeID branchName importPaths →
  ∃ (propEvalKV : bool) base (importPath : string),
    base ∈ configurations ∧ importPath ∈ importPaths ∧
    q = (buildTypeID, branchName, build_params propEvalKV base importPath).
Proof.
  unfold all_builds.
  intros (bs & Hq & (b & -> & _)%list_elem_of_fmap)%elem_of_concat.
  unfold builds_of_flag in Hq.
  apply elem_of_concat in Hq
    as (cs & Hq & (base & -> & Hbase)%list_elem_of_fmap).
  unfold builds_of_configuration in Hq.
  apply list_elem_of_fmap in Hq as (path & -> & Hpath).
  by exists b, base, path.
Qed.

(** X20: every build that main creates is for the build type and the
    branch of the flags, and for a package of the import paths; its
    parameters are those of one of the three configurations with the two
    keys env.PKG and env.COCKROACH_PROPOSER_EVALUATED_KV set to that
    package and to true or false. Nothing that an earlier turn of the loop
    has written into the map is left in them. *)
Theorem main_build_parameters (buildTypeID branchName : string)
    (environ : gmap string string) (sv : Server) (line : logLine) :
  line ∈ logged (main buildTypeID branchName environ sv).2 →
  ∃ (propEvalKV : bool) base (importPath : string) (build : Build)
    params,
    line = Created buildTypeID branchName params build ∧
    base ∈ configurations ∧
    importPath ∈ ImportPaths ["github.com/cockroachdb/cockroach/..."] ∧
    params !! "env.PKG" = Some importPath ∧
    params !! "env.COCKROACH_PROPOSER_EVALUATED_KV"
      = Some (FormatBool propEvalKV) ∧
    ∀ key, key ≠ "env.PKG" → key ≠ "env.COCKROACH_PROPOSER_EVALUATED_KV" →
           params !! key = base !! key.
Proof.
  destruct (main buildTypeID branchName environ sv) as [status w] eqn:Hrun.
  cbn [snd]. intros Hline.
  destruct (environ !! teamcityServerURLEnv) as [serverURL|] eqn:Hurl;
    [|unfold main in Hrun; rewrite Hurl in Hrun; injection Hrun as <- <-;
      by apply elem_of_nil in Hline].
  destruct (Parse serverURL) as [u|err] eqn:Hparse;
    [|unfold main in Hrun; rewrite Hurl, Hparse in Hrun;
      injection Hrun as <- <-; by apply elem_of_nil in Hline].
  destruct (environ !! teamcityAPIUserEnv) as [username|] eqn:Huser;
    [|unfold main in Hrun; rewrite Hurl, Hparse, Huser in Hrun;
      injection Hrun as <- <-; by apply elem_of_nil in Hline].
  destruct (environ !! teamcityAPIPasswordEnv) as [password|] eqn:Hpwd;
    [|unfold main in Hrun; rewrite Hurl, Hparse, Huser, Hpwd in Hrun;
      injection Hrun as <- <-; by apply elem_of_nil in Hline].
  rewrite (main_configured _ _ _ _ _ _ _ _ Hurl Hparse Huser Hpwd) in Hrun.
  destruct (queue_list_log _ _ _ _ _ Hrun)
    as (lines & rest & Hlog & Hbuilds & _).
  cbn [logged app] in Hlog. rewrite Hlog in Hline.
  destruct (all_builds_elem buildTypeID branchName
              (ImportPaths ["github.com/cockroachdb/cockroach/..."])
              (queued_of line))
    as (b & base & path & Hbase & Hpath & Hq).
  { rewrite Hbuilds. apply elem_of_app. left. by apply list_elem_of_fmap_2. }
  destruct line as [id br params build]. cbn [queued_of] in Hq.
  injection Hq as -> -> ->.
  exists b, base, path, build, (build_params b base path).
  unfold build_params. split_and!; [done..| | |].
  - by rewrite lookup_insert_ne, lookup_insert_eq.
  - by rewrite lookup_insert_eq.
  - intros key Hpkg Hkv. by rewrite !lookup_insert_ne.
Qed.

Lemma length_all_builds (buildTypeID branchName : string)
    (importPaths : list string) :
  length (all_builds buildTypeID branchName importPaths)
  = 6 * length importPaths.
Proof.
  unfold all_builds, builds_of_flag, configurations, builds_of_configuration.
  cbn [fmap list_fmap concat]. rewrite !length_app, !length_fmap. cbn. lia.
Qed.

(** X21: when main is configured and QueueBuild refuses no build, main
    ends normally, having created each build of the list once, in order:
    six builds for every package. *)
Theorem main_all_queued (buildTypeID branchName : string)
    (environ : gmap string string) (sv : Server)
    (serverURL : string) (u : URL) (username password : string) :
  environ !! teamcityServerURLEnv = Some serverURL →
  Parse serverURL = inl u →
  environ !! teamcityAPIUserEnv = Some username →
  environ !! teamcityAPIPasswordEnv = Some password →
  (∀ client id br params sv0 err sv1,
     QueueBuild client id br params sv0 ≠ (inr err, sv1)) →
  (main buildTypeID branchName environ sv).1 = None ∧
  queued_of <$> logged (main buildTypeID branchName environ sv).2
    = all_builds buildTypeID branchName
        (ImportPaths ["github.com/cockroachdb/cockroach/..."]) ∧
  length (logged (main buildTypeID branchName environ sv).2)
    = 6 * length (ImportPaths ["github.com/cockroachdb/cockroach/..."]).
Proof.
  intros Hurl Hparse Huser Hpwd Hnever.
  rewrite (main_configured _ _ _ _ _ _ _ _ Hurl Hparse Huser Hpwd).
  destruct (queue_list _ _ _) as [status w] eqn:Hrun. cbn [fst snd].
  destruct (queue_list_log _ _ _ _ _ Hrun)
    as (lines & rest & Hlog & Hbuilds & Hstatus).
  cbn [logged app] in Hlog.
  destruct status as [[name|err|id br params err]|].
  - done.
  - done.
  - exfalso. destruct Hstatus as (rest' & _ & sv' & Hcall).
    by apply Hnever in Hcall.
  - subst rest. rewrite app_nil_r in Hbuilds. rewrite Hlog.
    split_and!; [done|done|].
    rewrite <- (length_fmap queued_of), <- Hbuilds. apply length_all_builds.
Qed.

End Stress.

(** * The properties on the sample tables *)

Section Examples.
#[local] Existing Instance Sample.types.
#[local] Existing Instance Sample.collaborators.
Import Sample.

Lemma sample_invalidColIdx_neg : (invalidColIdx < 0)%Z.
Proof. done. Qed.

Lemma sample_encodeDatum_appends (b : list byte) (d : Datum) (b' : list byte) :
  EncodeDatum b d = (b', None) → b' = b ++ datumBytes d.
Proof. destruct d; cbn; by intros [= <-]. Qed.

(** USING(a) over the tables (a, b) and (a, c) gives the predicate [usingA]
    and the schema (a, b, c). *)
Example sample_construction :
  makeUsingPredicate () leftInfo rightInfo ["a"]
  = Done (Some (EqualityP usingA), Some mergedInfo, None).
Proof. vm_compute. reflexivity. Qed.

(** The join of (1,10), (2,20), (null,30) with (1,100), (3,300),
    (null,400): only the first rows match, and give (1,10,100). *)
Example sample_eval_match :
  equalityPredicate_eval usingA (rows [SInt 1; SInt 10] [SInt 1; SInt 100])
  = (Done (true, None), rows [SInt 1; SInt 10] [SInt 1; SInt 100]) ∧
  equalityPredicate_prepareRow usingA
    (rows [SInt 1; SInt 10] [SInt 1; SInt 100])
  = (Done (), {| result := [SInt 1; SInt 10; SInt 100];
                 leftRow := [SInt 1; SInt 10];
                 rightRow := [SInt 1; SInt 100] |}).
Proof. split; vm_compute; reflexivity. Qed.

Example sample_eval_no_match :
  (equalityPredicate_eval usingA (rows [SInt 2; SInt 20] [SInt 3; SInt 300])).1
  = Done (false, None) ∧
  (equalityPredicate_eval usingA (rows [SNull; SInt 30] [SNull; SInt 400])).1
  = Done (false, None) ∧
  (equalityPredicate_eval usingA (rows [SInt 1; SInt 10] [SNull; SInt 400])).1
  = Done (false, None).
Proof. split_and!; vm_compute; reflexivity. Qed.

(** More names than the two tables have columns: the capacity given to make
    is negative, and construction panics before it looks at the names. *)
Example sample_too_many_names :
  makeUsingPredicate () oneA oneA ["a"; "b"; "c"] = Panicked PanicMakeSlice.
Proof. vm_compute. reflexivity. Qed.

(** ** The theorems at concrete inputs *)

Lemma cross_on_concat_witness :
  length (result fourCells)
    = length (leftRow fourCells) + length (rightRow fourCells) ∧
  crossPredicate_eval Build_crossPredicate fourCells
    = (Done (true, None), fourCells) ∧
  crossPredicate_prepareRow Build_crossPredicate fourCells =
    (Done (), {| result := leftRow fourCells ++ rightRow fourCells;
                 leftRow := leftRow fourCells;
                 rightRow := rightRow fourCells |}) ∧
  onPredicate_prepareRow sampleOn fourCells =
    (Done (), {| result := leftRow fourCells ++ rightRow fourCells;
                 leftRow := leftRow fourCells;
                 rightRow := rightRow fourCells |}) ∧
  length (leftRow fourCells ++ rightRow fourCells)
    = length (leftRow fourCells) + length (rightRow fourCells).
Proof.
  split; [reflexivity|].
  destruct (cross_on_concat Build_crossPredicate sampleOn fourCells)
    as [Heval Hprepare].
  split; [exact Heval|].
  apply Hprepare. reflexivity.
Defined.

(** A null on the right of the only pair: eval is false, with no error. *)
Lemma equalityPredicate_eval_spec_witness :
  pair_null usingA (rows [SInt 1; SInt 10] [SNull; SInt 400]) 0 ∧
  equalityPredicate_eval usingA (rows [SInt 1; SInt 10] [SNull; SInt 400])
    = (Done (false, None), rows [SInt 1; SInt 10] [SNull; SInt 400]).
Proof.
  assert (pair_null usingA (rows [SInt 1; SInt 10] [SNull; SInt 400]) 0) as Hnull.
  { exists (SInt 1), SNull. split; [reflexivity|]. right. reflexivity. }
  split; [exact Hnull|].
  destruct (equalityPredicate_eval_spec usingA
              (rows [SInt 1; SInt 10] [SNull; SInt 400])) as (_ & Hn & _).
  apply (Hn 0); [cbn; lia|exact Hnull|].
  intros j Hj. lia.
Defined.

(** The left value of the pair is null: the merged value is the right one. *)
Lemma equalityPredicate_prepareRow_spec_witness :
  length (leftUsingIndices usingA) = length (rightUsingIndices usingA) ∧
  mapM (lookupZ [SNull; SInt 30]) (leftUsingIndices usingA) = Some [SNull] ∧
  mapM (lookupZ [SInt 7; SInt 400]) (rightUsingIndices usingA) = Some [SInt 7] ∧
  mapM (lookupZ [SNull; SInt 30]) (leftRestIndices usingA) = Some [SInt 30] ∧
  mapM (lookupZ [SInt 7; SInt 400]) (rightRestIndices usingA)
    = Some [SInt 400] ∧
  length [SNull; SNull; SNull]
    = length [SNull] + length [SInt 30] + length [SInt 400] ∧
  equalityPredicate_prepareRow usingA
    {| result := [SNull; SNull; SNull];
       leftRow := [SNull; SInt 30]; rightRow := [SInt 7; SInt 400] |} =
  (Done (),
   {| result := zip_with coalesce [SNull] [SInt 7] ++ [SInt 30] ++ [SInt 400];
      leftRow := [SNull; SInt 30]; rightRow := [SInt 7; SInt 400] |}).
Proof.
  repeat (split; [reflexivity|]).
  apply (equalityPredicate_prepareRow_spec usingA
           [SNull; SNull; SNull] [SNull; SInt 30] [SInt 7; SInt 400]
           [SNull] [SInt 7] [SInt 30] [SInt 400]); reflexivity.
Defined.

Lemma equalityPredicate_encode_spec_witness :
  (∀ b d b', EncodeDatum b d = (b', None) → b' = b ++ datumBytes d) ∧
  (leftSide = leftSide ∨ leftSide = rightSide) ∧
  mapM (lookupZ [SNull; SInt 30]) (side_columns usingA leftSide)
    = Some [SNull] ∧
  match equalityPredicate_encode usingA [] [SNull; SInt 30] leftSide with
  | Done (b', containsNull, None) =>
      b' = [] ++ concat (datumBytes <$> [SNull]) ∧
      (containsNull = true ↔ DNull ∈ [SNull])
  | Done (b', containsNull, Some err) =>
      b' = [] ∧ containsNull = false ∧
      ∃ k d bk, [SNull] !! k = Some d ∧
        EncodeDatum ([] ++ concat (datumBytes <$> take k [SNull])) d
          = (bk, Some err)
  | Panicked _ => False
  end.
Proof.
  split; [exact sample_encodeDatum_appends|].
  split; [left; reflexivity|].
  split; [reflexivity|].
  apply (equalityPredicate_encode_spec datumBytes sample_encodeDatum_appends
           usingA [] [SNull; SInt 30] leftSide [SNull]);
    [left; reflexivity|reflexivity].
Defined.

(** encode of the CROSS predicate returns: it is no contract violation. *)
Lemma cross_encode_is_no_panic :
  encode (CrossP Build_crossPredicate) [] [] leftSide = Done ([], false, None) ∧
  ¬ (∀ (jp : joinPredicate) (b : list byte) (row : DTuple) (side : Z),
       (∃ pc, jp = CrossP pc) ∨ (∃ po, jp = OnP po) →
       ∃ pn, encode jp b row side = Panicked pn).
Proof.
  split; [reflexivity|]. intros Hall.
  destruct (Hall (CrossP Build_crossPredicate) [] [] leftSide) as [pn Hpn].
  - left. by eexists.
  - discriminate Hpn.
Qed.

Lemma makeEqualityPredicate_merged_schema_witness :
  (invalidColIdx < 0)%Z ∧
  makeEqualityPredicate () leftInfo rightInfo ["a"] ["a"]
    = Done (Some (EqualityP usingA), Some mergedInfo, None) ∧
  ∃ p (colsU colsL colsR : list ResultColumn),
    EqualityP usingA = EqualityP p ∧
    length (leftUsingIndices p) = length ["a"] ∧
    length (rightUsingIndices p) = length ["a"] ∧
    (∀ k, k < length ["a"] →
       ∃ li ri fn,
         pair_resolved leftInfo rightInfo ["a"] ["a"] k li ri fn ∧
         leftUsingIndices p !! k = Some li ∧
         rightUsingIndices p !! k = Some ri) ∧
    leftRestIndices p
      = rest_positions (leftUsingIndices p) (length (sourceColumns leftInfo)) ∧
    rightRestIndices p
      = rest_positions (rightUsingIndices p)
                       (length (sourceColumns rightInfo)) ∧
    mapM (lookupZ (sourceColumns leftInfo)) (leftUsingIndices p) = Some colsU ∧
    mapM (lookupZ (sourceColumns leftInfo)) (leftRestIndices p) = Some colsL ∧
    mapM (lookupZ (sourceColumns rightInfo)) (rightRestIndices p)
      = Some colsR ∧
    sourceColumns mergedInfo = colsU ++ colsL ++ colsR ∧
    length (sourceColumns mergedInfo)
      = length ["a"] + length (leftRestIndices p)
        + length (rightRestIndices p).
Proof.
  split; [reflexivity|].
  split; [vm_compute; reflexivity|].
  apply (makeEqualityPredicate_merged_schema sample_invalidColIdx_neg ()
           leftInfo rightInfo ["a"] ["a"] (EqualityP usingA) mergedInfo).
  vm_compute. reflexivity.
Defined.

(** Both tables under the alias t: the merged alias map has the range of
    the right table, remapped to the positions 0 and 2. *)
Lemma makeEqualityPredicate_remap_witness :
  (invalidColIdx < 0)%Z ∧
  makeEqualityPredicate () leftT rightT ["a"] ["a"]
    = Done (Some (EqualityP usingA), Some mergedT, None) ∧
  sourceAliases mergedT !! "t" = Some [0; 2]%Z ∧
  ∃ newRange, sourceAliases mergedT !! "t" = Some newRange ∧
              remapped [0; 2]%Z [0; 1]%Z newRange.
Proof.
  split; [reflexivity|].
  assert (makeEqualityPredicate () leftT rightT ["a"] ["a"]
          = Done (Some (EqualityP usingA), Some mergedT, None)) as Hrun.
  { vm_compute. reflexivity. }
  split; [exact Hrun|].
  split; [vm_compute; reflexivity|].
  destruct (makeEqualityPredicate_remap sample_invalidColIdx_neg ()
              leftT rightT ["a"] ["a"] (EqualityP usingA) mergedT Hrun)
    as (pl & p & Hbuild & _ & _ & _ & _ & _ & _ & _ & _ & Hright & _).
  assert (pl = planT) as ->.
  { assert (equalityPlan_build () leftT rightT ["a"] ["a"] = Done (inl planT))
      as Heq by (vm_compute; reflexivity).
    rewrite Hbuild in Heq. congruence. }
  apply (Hright "t" [0; 1]%Z). vm_compute. reflexivity.
Defined.

(** Name lists of different lengths: a panic, not a returned error. *)
Lemma length_mismatch_is_no_error :
  makeEqualityPredicate () leftInfo rightInfo ["a"] []
    = Panicked (PanicLengths 1 0) ∧
  ¬ (∀ (left right : dataSourceInfo) (leftColNames rightColNames : list string),
       length leftColNames ≠ length rightColNames →
       ∃ err, makeEqualityPredicate () left right leftColNames rightColNames
              = Done (None, None, Some err)).
Proof.
  split; [vm_compute; reflexivity|]. intros Hall.
  destruct (Hall leftInfo rightInfo ["a"] []) as [err Herr].
  - cbn. lia.
  - vm_compute in Herr. discriminate Herr.
Qed.

Lemma construction_all_or_nothing_witness :
  (invalidColIdx < 0)%Z ∧
  (∃ colName, colName ∈ Normalize <$> ["x"; "x"] ∧
     makeUsingPredicate () leftInfo rightInfo ["x"; "x"]
       = Done (None, None, Some (ErrUsingTwice colName))) ∧
  makeEqualityPredicate () leftInfo rightInfo ["a"] []
    = Panicked (PanicLengths 1 0) ∧
  (∃ m err',
     pair_fault leftS rightS ["a"; "s"] ["a"; "s"] m err' ∧
     makeUsingPredicate () leftS rightS ["a"; "s"]
       = Done (None, None, Some err')).
Proof.
  split; [reflexivity|].
  destruct (construction_all_or_nothing sample_invalidColIdx_neg ()
              leftInfo rightInfo) as (Hdup & Hlen & _).
  destruct (construction_all_or_nothing sample_invalidColIdx_neg ()
              leftS rightS) as (_ & _ & _ & Hfault & _).
  split_and!.
  - apply (Hdup ["x"; "x"]). intros Hnd. apply NoDup_cons in Hnd as [Hx _].
    apply Hx. left.
  - apply (Hlen ["a"] []). cbn. lia.
  - apply (Hfault ["a"; "s"] 1 (@ErrUsingTypes types TString "s" TInt "s")).
    + apply (bool_decide_unpack _). vm_compute. exact I.
    + cbn. lia.
    + exists "s", "s". split; [reflexivity|]. split; [reflexivity|].
      right. right. exists 1%Z, TString, 1%Z, TInt.
      split_and!; reflexivity.
Defined.

(** ** The further properties at concrete inputs *)

Example sample_plans :
  equalityPlan_build () leftT rightT ["a"] ["a"] = Done (inl planT) ∧
  equalityPlan_build () leftH rightInfo ["a"] ["a"] = Done (inl planH) ∧
  makeEqualityPredicate () leftInfo rightInfo [] []
    = Done (Some (EqualityP noUsing), Some concatInfo, None).
Proof. split_and!; vm_compute; reflexivity. Qed.

(** A buffer of five cells: the fifth keeps its value. *)
Lemma concat_keeps_tail_witness :
  length (leftRow fiveCells) + length (rightRow fiveCells)
    ≤ length (result fiveCells) ∧
  prepareRow (OnP sampleOn) fiveCells =
    (Done (), {| result := [SInt 1; SInt 10; SInt 1; SInt 100; SInt 7];
                 leftRow := leftRow fiveCells;
                 rightRow := rightRow fiveCells |}).
Proof.
  split; [cbn; lia|].
  apply (concat_keeps_tail (OnP sampleOn) fiveCells).
  - right. exists sampleOn. reflexivity.
  - cbn. lia.
Defined.

(** One cell for a left row of two: a panic. Three cells for two rows of
    two: the last right value is dropped. *)
Lemma prepareRowConcat_narrow_witness :
  prepareRowConcat oneCell =
    (Panicked PanicSliceBounds,
     {| result := [SInt 1]; leftRow := leftRow oneCell;
        rightRow := rightRow oneCell |}) ∧
  prepareRowConcat threeCells =
    (Done (),
     {| result := [SInt 1; SInt 10; SInt 1]; leftRow := leftRow threeCells;
        rightRow := rightRow threeCells |}).
Proof.
  split.
  - apply (proj1 (prepareRowConcat_narrow oneCell)). cbn. lia.
  - apply (proj2 (prepareRowConcat_narrow threeCells)); cbn; lia.
Defined.

Lemma onPredicate_eval_then_prepareRow_witness :
  length (result fourCells)
    = length (leftRow fourCells) + length (rightRow fourCells) ∧
  onPredicate_eval sampleOn fourCells =
    (Done (true, None),
     {| result := [SInt 1; SInt 10; SInt 1; SInt 100];
        leftRow := leftRow fourCells; rightRow := rightRow fourCells |}) ∧
  onPredicate_prepareRow sampleOn (onPredicate_eval sampleOn fourCells).2
    = (Done (), (onPredicate_eval sampleOn fourCells).2).
Proof.
  split; [reflexivity|].
  exact (onPredicate_eval_then_prepareRow sampleOn fourCells eq_refl).
Defined.

(** The rows (1, 10) and (1, 100) match: the merged row starts with the
    left value 1. *)
Lemma eval_true_prepareRow_left_witness :
  (equalityPredicate_eval usingA
     {| result := [SNull; SNull; SNull];
        leftRow := [SInt 1; SInt 10]; rightRow := [SInt 1; SInt 100] |}).1
    = Done (true, None) ∧
  equalityPredicate_prepareRow usingA
    {| result := [SNull; SNull; SNull];
       leftRow := [SInt 1; SInt 10]; rightRow := [SInt 1; SInt 100] |} =
  (Done (),
   {| result := [SInt 1] ++ [SInt 10] ++ [SInt 100];
      leftRow := [SInt 1; SInt 10]; rightRow := [SInt 1; SInt 100] |}).
Proof.
  split; [vm_compute; reflexivity|].
  apply (eval_true_prepareRow_left usingA
           [SNull; SNull; SNull] [SInt 1; SInt 10] [SInt 1; SInt 100]
           [SInt 1] [SInt 1] [SInt 10] [SInt 100]);
    vm_compute; reflexivity.
Defined.

(** Two left rows with the same value of a and different values of b. *)
Lemma encode_reads_using_columns_only_witness :
  mapM (lookupZ [SInt 1; SInt 10]) (side_columns usingA leftSide)
    = Some [SInt 1] ∧
  mapM (lookupZ [SInt 1; SInt 99]) (side_columns usingA leftSide)
    = Some [SInt 1] ∧
  equalityPredicate_encode usingA [] [SInt 1; SInt 10] leftSide
    = equalityPredicate_encode usingA [] [SInt 1; SInt 99] leftSide.
Proof.
  split; [reflexivity|]. split; [reflexivity|].
  apply (encode_reads_using_columns_only usingA []
           [SInt 1; SInt 10] [SInt 1; SInt 99] leftSide [SInt 1]);
    reflexivity.
Defined.

(** Of the four columns named a, the third is the last visible one. *)
Lemma pickUsingColumn_picks_last_witness :
  (invalidColIdx < 0)%Z ∧
  manyA !! 2 = Some (col "a" TString) ∧
  visible_match "a" (col "a" TString) ∧
  pickUsingColumn manyA "a" "left" = Done (inl (2%Z, TString)).
Proof.
  split; [reflexivity|]. split; [reflexivity|].
  split; [split; reflexivity|].
  apply (proj1 (pickUsingColumn_picks_last sample_invalidColIdx_neg
                  manyA "a" "left") 2 (col "a" TString)).
  - reflexivity.
  - split; reflexivity.
  - intros k' col' Hk Hcol [Hhidden _].
    destruct k' as [|[|[|[|k']]]]; try lia; cbn in Hcol.
    + injection Hcol as <-. discriminate Hhidden.
    + discriminate Hcol.
Defined.

(** Three names for two tables of one column each. *)
Lemma too_many_names_panic_witness :
  length ["a"; "b"; "c"] = length ["a"; "b"; "c"] ∧
  length (sourceColumns oneA) + length (sourceColumns oneA)
    < length ["a"; "b"; "c"] ∧
  makeEqualityPredicate () oneA oneA ["a"; "b"; "c"] ["a"; "b"; "c"]
    = Panicked PanicMakeSlice ∧
  (NoDup (Normalize <$> ["a"; "b"; "c"]) →
   makeUsingPredicate () oneA oneA ["a"; "b"; "c"] = Panicked PanicMakeSlice).
Proof.
  split; [reflexivity|]. split; [cbn; lia|].
  apply (too_many_names_panic (PT := types) (CO := collaborators) ()
           oneA oneA ["a"; "b"; "c"] ["a"; "b"; "c"]).
  - reflexivity.
  - cbn. lia.
Defined.

(** USING(a, s, zz) over (a, s string) and (a, s int): the pair s has types
    that do not match and zz is no column; the error is that of s. *)
Lemma makeEqualityPredicate_reports_first_fault_witness :
  (invalidColIdx < 0)%Z ∧
  pair_fault leftS rightS ["a"; "s"; "zz"] ["a"; "s"; "zz"] 1
    (@ErrUsingTypes types TString "s" TInt "s") ∧
  pair_fault leftS rightS ["a"; "s"; "zz"] ["a"; "s"; "zz"] 2
    (@ErrUsingMissing types "zz" "left") ∧
  makeEqualityPredicate () leftS rightS ["a"; "s"; "zz"] ["a"; "s"; "zz"]
    = Done (None, None, Some (@ErrUsingTypes types TString "s" TInt "s")).
Proof.
  split; [reflexivity|].
  assert (pair_fault leftS rightS ["a"; "s"; "zz"] ["a"; "s"; "zz"] 1
            (@ErrUsingTypes types TString "s" TInt "s")) as Hfault.
  { exists "s", "s". split; [reflexivity|]. split; [reflexivity|].
    right. right. exists 1%Z, TString, 1%Z, TInt. split_and!; reflexivity. }
  split; [exact Hfault|]. split.
  { exists "zz", "zz". split; [reflexivity|]. split; [reflexivity|].
    left. split; [|reflexivity].
    intros c Hc [_ Hname]. revert Hname.
    apply list_elem_of_In in Hc. cbn in Hc.
    destruct Hc as [<-|[<-|[]]]; cbn; discriminate. }
  apply (proj2 (makeEqualityPredicate_reports_first_fault
                  sample_invalidColIdx_neg () leftS rightS
                  ["a"; "s"; "zz"] ["a"; "s"; "zz"]
                  (@ErrUsingTypes types TString "s" TInt "s")
                  eq_refl ltac:(cbn; lia))).
  exists 1. split; [exact Hfault|].
  intros j Hj. assert (j = 0) as -> by lia.
  exists 0%Z, 0%Z, eqInt. exists "a", "a", TInt, TInt.
  split_and!; reflexivity.
Defined.

(** USING(a) over (a, b) and (a, c) succeeds, so the conditions hold. *)
Lemma makeEqualityPredicate_succeeds_iff_witness :
  (invalidColIdx < 0)%Z ∧
  makeEqualityPredicate () leftInfo rightInfo ["a"] ["a"]
    = Done (Some (EqualityP usingA), Some mergedInfo, None) ∧
  0 < length (sourceColumns leftInfo) ∧
  (∀ k, k < length ["a"] →
     ∃ li ri fn, pair_resolved leftInfo rightInfo ["a"] ["a"] k li ri fn).
Proof.
  split; [reflexivity|].
  assert (makeEqualityPredicate () leftInfo rightInfo ["a"] ["a"]
          = Done (Some (EqualityP usingA), Some mergedInfo, None)) as Hrun.
  { vm_compute. reflexivity. }
  split; [exact Hrun|].
  destruct (proj1 (makeEqualityPredicate_succeeds_iff
                     sample_invalidColIdx_neg () leftInfo rightInfo
                     ["a"] ["a"])) as (_ & _ & HL & _ & Hres & _).
  { exists (EqualityP usingA), mergedInfo. exact Hrun. }
  split; [exact HL|exact Hres].
Defined.

Lemma constructed_predicate_runs_witness :
  (invalidColIdx < 0)%Z ∧
  makeEqualityPredicate () leftInfo rightInfo ["a"] ["a"]
    = Done (Some (EqualityP usingA), Some mergedInfo, None) ∧
  (∃ r, eval (EqualityP usingA) (rows [SInt 1; SInt 10] [SInt 1; SInt 100])
        = (Done r, rows [SInt 1; SInt 10] [SInt 1; SInt 100])) ∧
  (∃ r, encode (EqualityP usingA) [] [SInt 1; SInt 100] rightSide = Done r).
Proof.
  split; [reflexivity|].
  assert (makeEqualityPredicate () leftInfo rightInfo ["a"] ["a"]
          = Done (Some (EqualityP usingA), Some mergedInfo, None)) as Hrun.
  { vm_compute. reflexivity. }
  split; [exact Hrun|].
  destruct (constructed_predicate_runs sample_invalidColIdx_neg ()
              leftInfo rightInfo ["a"] ["a"] (EqualityP usingA) mergedInfo
              (rows [SInt 1; SInt 10] [SInt 1; SInt 100]) [] Hrun
              eq_refl eq_refl) as (Heval & _ & _ & Henc).
  split; [exact Heval|exact Henc].
Defined.

(** The left column b, at position 1, is found in the merged row at the
    position usedLeft gives for it. *)
Lemma prepareRow_places_columns_witness :
  (invalidColIdx < 0)%Z ∧
  equalityPlan_build () leftT rightT ["a"] ["a"] = Done (inl planT) ∧
  ∃ out,
    equalityPredicate_prepareRow (plan_pred planT)
      {| result := [SNull; SNull; SNull];
         leftRow := [SInt 1; SInt 10]; rightRow := [SInt 1; SInt 100] |}
    = (Done (), {| result := out; leftRow := [SInt 1; SInt 10];
                   rightRow := [SInt 1; SInt 100] |}) ∧
    ∃ m, plan_usedLeft planT !! 1 = Some (Z.of_nat m) ∧
         out !! m = Some (SInt 10).
Proof.
  split; [reflexivity|].
  assert (equalityPlan_build () leftT rightT ["a"] ["a"] = Done (inl planT))
    as Hbuild by (vm_compute; reflexivity).
  split; [exact Hbuild|].
  destruct (prepareRow_places_columns sample_invalidColIdx_neg ()
              leftT rightT ["a"] ["a"] planT
              [SNull; SNull; SNull] [SInt 1; SInt 10] [SInt 1; SInt 100]
              Hbuild eq_refl eq_refl eq_refl)
    as (out & Hprep & Hleft & _).
  exists out. split; [exact Hprep|].
  apply (Hleft 1 (SInt 10)); [reflexivity|]. left. discriminate.
Defined.

Lemma empty_using_is_cross_witness :
  (invalidColIdx < 0)%Z ∧
  makeEqualityPredicate () leftInfo rightInfo [] []
    = Done (Some (EqualityP noUsing), Some concatInfo, None) ∧
  sourceColumns concatInfo
    = sourceColumns leftInfo ++ sourceColumns rightInfo ∧
  prepareRow (EqualityP noUsing) fourCells
    = prepareRow (CrossP Build_crossPredicate) fourCells.
Proof.
  split; [reflexivity|].
  assert (makeEqualityPredicate () leftInfo rightInfo [] []
          = Done (Some (EqualityP noUsing), Some concatInfo, None)) as Hrun.
  { vm_compute. reflexivity. }
  split; [exact Hrun|].
  destruct (empty_using_is_cross sample_invalidColIdx_neg () leftInfo
              rightInfo (EqualityP noUsing) concatInfo Build_crossPredicate
              Hrun) as (Hcols & _ & Hprep).
  split; [exact Hcols|].
  apply (Hprep fourCells); reflexivity.
Defined.

(** Two and two columns, one name: three merged columns. *)
Lemma makeUsingPredicate_width_witness :
  (invalidColIdx < 0)%Z ∧
  makeUsingPredicate () leftInfo rightInfo ["a"]
    = Done (Some (EqualityP usingA), Some mergedInfo, None) ∧
  length (sourceColumns mergedInfo) + length ["a"]
    = length (sourceColumns leftInfo) + length (sourceColumns rightInfo).
Proof.
  split; [reflexivity|].
  assert (makeUsingPredicate () leftInfo rightInfo ["a"]
          = Done (Some (EqualityP usingA), Some mergedInfo, None)) as Hrun.
  { vm_compute. reflexivity. }
  split; [exact Hrun|].
  exact (makeUsingPredicate_width sample_invalidColIdx_neg () leftInfo
           rightInfo ["a"] (EqualityP usingA) mergedInfo Hrun).
Defined.

(** USING(a, b, a, b): the error names a, the first name that repeats. *)
Lemma makeUsingPredicate_first_repeat_witness :
  NoDup (Normalize <$> ["a"; "b"]) ∧
  Normalize "a" ∈ Normalize <$> ["a"; "b"] ∧
  makeUsingPredicate () leftInfo rightInfo (["a"; "b"] ++ "a" :: ["b"])
    = Done (None, None, Some (ErrUsingTwice (Normalize "a"))).
Proof.
  assert (NoDup (Normalize <$> ["a"; "b"])) as Hnodup.
  { apply (bool_decide_unpack _). vm_compute. exact I. }
  assert (Normalize "a" ∈ Normalize <$> ["a"; "b"]) as Hin.
  { apply (bool_decide_unpack _). vm_compute. exact I. }
  split; [exact Hnodup|]. split; [exact Hin|].
  exact (makeUsingPredicate_first_repeat (PT := types) (CO := collaborators)
           () leftInfo rightInfo ["a"; "b"] "a" ["b"] Hnodup Hin).
Defined.

(** The hidden column rowid of the left table is a rest column. *)
Lemma hidden_columns_are_rest_witness :
  (invalidColIdx < 0)%Z ∧
  equalityPlan_build () leftH rightInfo ["a"] ["a"] = Done (inl planH) ∧
  sourceColumns leftH !! 1 = Some (hid "rowid" TInt) ∧
  (Z.of_nat 1 ∉ leftUsingIndices (plan_pred planH)) ∧
  Z.of_nat 1 ∈ leftRestIndices (plan_pred planH).
Proof.
  split; [reflexivity|].
  assert (equalityPlan_build () leftH rightInfo ["a"] ["a"] = Done (inl planH))
    as Hbuild by (vm_compute; reflexivity).
  split; [exact Hbuild|]. split; [reflexivity|].
  destruct (hidden_columns_are_rest sample_invalidColIdx_neg () leftH
              rightInfo ["a"] ["a"] planH Hbuild) as (Hleft & _).
  apply (Hleft 1 (hid "rowid" TInt)); reflexivity.
Defined.

Lemma comparison_functions_by_type_witness :
  (invalidColIdx < 0)%Z ∧
  makeEqualityPredicate () leftInfo rightInfo ["a"] ["a"]
    = Done (Some (EqualityP usingA), Some mergedInfo, None) ∧
  ∃ p li ri colL colR fn,
    EqualityP usingA = EqualityP p ∧
    leftUsingIndices p !! 0 = Some li ∧ rightUsingIndices p !! 0 = Some ri ∧
    lookupZ (sourceColumns leftInfo) li = Some colL ∧
    lookupZ (sourceColumns rightInfo) ri = Some colR ∧
    visible_match (Normalize "a") colL ∧ visible_match (Normalize "a") colR ∧
    FindEqualComparisonFunction (Typ colL) (Typ colR) = Some fn ∧
    usingCmp p !! 0 = Some (Some fn).
Proof.
  split; [reflexivity|].
  assert (makeEqualityPredicate () leftInfo rightInfo ["a"] ["a"]
          = Done (Some (EqualityP usingA), Some mergedInfo, None)) as Hrun.
  { vm_compute. reflexivity. }
  split; [exact Hrun|].
  exact (comparison_functions_by_type sample_invalidColIdx_neg () leftInfo
           rightInfo ["a"] ["a"] (EqualityP usingA) mergedInfo 0 "a" "a"
           Hrun eq_refl eq_refl).
Defined.

(** ** The command at concrete inputs *)

(** Without the user name: a fatal error that names the variable. *)
Lemma main_needs_configuration_witness :
  noUser !! teamcityAPIUserEnv = None ∧
  ∃ f, main (TC := teamcity None) "Cockroach_Nightlies_Stress" "master"
         noUser 0
       = (Some f, @Build_world (teamcity None) 0 []) ∧
       f = FatalEnv "TC_API_USER".
Proof.
  assert (noUser !! teamcityAPIUserEnv = None) as Huser
    by (vm_compute; reflexivity).
  split; [exact Huser|].
  exact (main_needs_configuration (TC := teamcity None)
           "Cockroach_Nightlies_Stress" "master" noUser 0
           (or_intror (or_intror (or_introl Huser)))).
Defined.

(** A server that takes four builds: main stops at the fifth build of the
    list, the first of the deadlock configuration. *)
Lemma main_queues_in_order_witness :
  environment !! teamcityServerURLEnv = Some "tc.example.org" ∧
  environment !! teamcityAPIUserEnv = Some "u" ∧
  environment !! teamcityAPIPasswordEnv = Some "p" ∧
  (main (TC := teamcity (Some 4)) "Cockroach_Nightlies_Stress" "master"
     environment 0).1
    = Some (@FatalQueue (teamcity (Some 4)) "Cockroach_Nightlies_Stress"
              "master"
              (build_params true {["env.TAGS" := "deadlock"]} "pkg/sql")
              "queue is full") ∧
  ∃ rest,
    all_builds "Cockroach_Nightlies_Stress" "master" ["pkg/sql"; "pkg/kv"]
    = (queued_of <$>
         logged (main (TC := teamcity (Some 4)) "Cockroach_Nightlies_Stress"
                   "master" environment 0).2) ++ rest ∧
    ∃ rest',
      rest = ("Cockroach_Nightlies_Stress", "master",
              build_params true {["env.TAGS" := "deadlock"]} "pkg/sql")
             :: rest'.
Proof.
  assert (environment !! teamcityServerURLEnv = Some "tc.example.org") as Hurl
    by (vm_compute; reflexivity).
  assert (environment !! teamcityAPIUserEnv = Some "u") as Huser
    by (vm_compute; reflexivity).
  assert (environment !! teamcityAPIPasswordEnv = Some "p") as Hpwd
    by (vm_compute; reflexivity).
  split; [exact Hurl|]. split; [exact Huser|]. split; [exact Hpwd|].
  destruct (main (TC := teamcity (Some 4)) "Cockroach_Nightlies_Stress"
              "master" environment 0) as [status w] eqn:Hrun.
  assert (status = Some (@FatalQueue (teamcity (Some 4))
                  "Cockroach_Nightlies_Stress" "master"
                  (build_params true {["env.TAGS" := "deadlock"]} "pkg/sql")
                  "queue is full")) as Hstatus.
  { vm_compute in Hrun. injection Hrun as <- _. vm_compute. reflexivity. }
  split; [exact Hstatus|].
  destruct (main_queues_in_order (TC := teamcity (Some 4))
              "Cockroach_Nightlies_Stress" "master" environment 0
              "tc.example.org" "tc.example.org" "u" "p" status w
              Hurl eq_refl Huser Hpwd Hrun) as (rest & Hall & Hrest).
  exists rest. split; [exact Hall|].
  rewrite Hstatus in Hrest. destruct Hrest as (rest' & Hrest & _).
  exists rest'. exact Hrest.
Defined.

(** The first build that main creates on a server that takes them all. *)
Lemma main_build_parameters_witness :
  ∃ line,
    line ∈ logged (main (TC := teamcity None) "Cockroach_Nightlies_Stress"
                     "master" environment 0).2 ∧
    ∃ (propEvalKV : bool) base (importPath : string) (build : nat) params,
      line = @Created (teamcity None) "Cockroach_Nightlies_Stress"
               "master" params build ∧
      base ∈ configurations ∧
      importPath ∈ ["pkg/sql"; "pkg/kv"] ∧
      params !! "env.PKG" = Some importPath ∧
      params !! "env.COCKROACH_PROPOSER_EVALUATED_KV"
        = Some (FormatBool propEvalKV) ∧
      ∀ key, key ≠ "env.PKG" → key ≠ "env.COCKROACH_PROPOSER_EVALUATED_KV" →
             params !! key = base !! key.
Proof.
  exists (@Created (teamcity None) "Cockroach_Nightlies_Stress" "master"
            (build_params true ∅ "pkg/sql") 0).
  assert (@Created (teamcity None) "Cockroach_Nightlies_Stress" "master"
            (build_params true ∅ "pkg/sql") 0
          ∈ logged (main (TC := teamcity None) "Cockroach_Nightlies_Stress"
                      "master" environment 0).2) as Hin.
  { vm_compute. constructor. }
  split; [exact Hin|].
  exact (main_build_parameters (TC := teamcity None)
           "Cockroach_Nightlies_Stress" "master" environment 0 _ Hin).
Defined.

(** Two packages on a server that takes every build: twelve builds. *)
Lemma main_all_queued_witness :
  (main (TC := teamcity None) "Cockroach_Nightlies_Stress" "master"
     environment 0).1 = None ∧
  length (logged (main (TC := teamcity None) "Cockroach_Nightlies_Stress"
                    "master" environment 0).2)
    = 6 * length ["pkg/sql"; "pkg/kv"].
Proof.
  destruct (main_all_queued (TC := teamcity None)
              "Cockroach_Nightlies_Stress" "master" environment 0
              "tc.example.org" "tc.example.org" "u" "p")
    as (Hstatus & _ & Hlen).
  - vm_compute. reflexivity.
  - reflexivity.
  - vm_compute. reflexivity.
  - vm_compute. reflexivity.
  - intros client id br params sv0 err sv1. cbn. discriminate.
  - split; [exact Hstatus|exact Hlen].
Defined.

End Examples.
